(** * Browser monitor: the session telemetry engine of [mcp_playwright/main.py]

    A shallow embedding of [PlaywrightBrowserManager]: its event handlers,
    its lifecycle operations and its two windowed queries, over an explicit
    store of Python objects.

    Python lists and dicts are mutable objects reached through references,
    and the code relies on that: [current_group] is updated in place while it
    already sits in [deduplicated_logs], [_handle_response] writes into a
    request dict that stays in [self.network_requests], [sorted(...)] and a
    slice build new lists while [list.sort] reorders an existing one.  The
    store below keeps one cell per object, lists hold references, and every
    operation is a state transformer that may raise. *)

From Stdlib Require Import ZArith String List Bool Lia DecimalString Sorted Permutation.
From stdpp Require Import base list sorting.

Local Open Scope string_scope.
Local Open Scope Z_scope.

(** ** Values *)

(** References into the object store, and handles of objects owned by the
    browser provider (the Playwright driver, a browser, a page). *)
Definition loc := nat.
Definition handle := nat.

(** [ConsoleMessage.location] and header dicts are passed through verbatim. *)
Record location := Location {
  loc_url : string;
  loc_lineNumber : Z;
  loc_columnNumber : Z
}.

Definition headers := list (string * string).

(** Timestamps are readings of the event loop clock.  The code only compares
    them; every finite double is an integer multiple of 2^-1074, so reading a
    timestamp in that unit embeds the order of the clock values into [Z]. *)
Definition timestamp := Z.

(** The dict built by [_handle_console_message]. *)
Record log_entry := LogEntry {
  log_type : string;
  log_text : string;
  log_location : location;
  log_timestamp : timestamp
}.

(** The dict built for a group in [get_console_logs].  The list under
    ['timestamps'] is referenced from this dict only and is kept inline. *)
Record log_group := LogGroup {
  grp_type : string;
  grp_text : string;
  grp_location : location;
  grp_timestamp : timestamp;
  grp_count : Z;
  grp_timestamps : list timestamp
}.

(** The dict stored under ["response"] by [_handle_response]. *)
Record response_entry := ResponseEntry {
  resp_status : Z;
  resp_statusText : string;
  resp_headers : headers;
  resp_timestamp : timestamp
}.

(** The dict built by [_handle_request]; [req_response = None] is the dict
    without a ["response"] key. *)
Record request_entry := RequestEntry {
  req_url : string;
  req_method : string;
  req_headers : headers;
  req_timestamp : timestamp;
  req_resourceType : string;
  req_id : Z;
  req_response : option response_entry
}.

(** What the page hands to the three handlers. *)
Record console_message := ConsoleMessage {
  msg_type : string;
  msg_text : string;
  msg_location : location
}.

Record request := Request {
  rq_url : string;
  rq_method : string;
  rq_headers : headers;
  rq_resource_type : string;
  rq_id : Z
}.

Record response := Response {
  rs_url : string;
  rs_status : Z;
  rs_status_text : string;
  rs_headers : headers
}.

Inductive event :=
| EConsole (message : console_message)
| ERequest (r : request)
| EResponse (r : response).

Definition event_name (e : event) : string :=
  match e with
  | EConsole _ => "console"
  | ERequest _ => "request"
  | EResponse _ => "response"
  end.

(** One event as the event loop runs its listeners: the page it comes from,
    the value [asyncio.get_event_loop().time()] has at that moment, and the
    payload. *)
Record delivery := Delivery {
  dl_page : handle;
  dl_now : timestamp;
  dl_event : event
}.

(** ** The object store *)

Inductive cell :=
| CList (items : list loc)
| CLog (e : log_entry)
| CGroup (g : log_group)
| CReq (r : request_entry).

(** Bound methods registered with [page.on]. *)
Inductive handler :=
| HandleConsoleMessage
| HandleRequest
| HandleResponse.

(** Awaited calls into the browser provider. *)
Inductive call :=
| StartPlaywright
| ChromiumLaunch (pw : handle) (launch_options : list (string * bool))
| BrowserNewPage (b : handle)
| PageGoto (p : handle) (url : string)
| PageClose (p : handle)
| BrowserClose (b : handle)
| PlaywrightStop (pw : handle).

(** The attributes of [PlaywrightBrowserManager]. *)
Record manager := Manager {
  playwright : option handle;
  browser : option handle;
  page : option handle;
  console_logs : loc;
  network_requests : loc;
  is_initialized : bool;
  headless : bool
}.

Record world := World {
  heap : list cell;
  self : manager;
  listeners : list (handle * string * handler);
  calls : list call
}.

Inductive exn :=
| TypeError
| AttributeError
| ProviderError (c : call).

Inductive outcome (A : Type) :=
| Ok (a : A)
| Raise (e : exn).
Arguments Ok {A} a.
Arguments Raise {A} e.

(** ** The monad of operations *)

Definition M (A : Type) : Type := world -> outcome A * world.

Definition ret {A} (a : A) : M A := fun w => (Ok a, w).

Definition bind {A B} (m : M A) (f : A -> M B) : M B :=
  fun w =>
    match m w with
    | (Ok a, w') => f a w'
    | (Raise e, w') => (Raise e, w')
    end.

Definition raise {A} (e : exn) : M A := fun w => (Raise e, w).

Declare Scope py_scope.
Delimit Scope py_scope with py.
Notation "x <- c1 ;; c2" := (bind c1 (fun x => c2))
  (at level 100, c1 at next level, right associativity) : py_scope.
Notation "c1 ;; c2" := (bind c1 (fun _ => c2))
  (at level 100, right associativity) : py_scope.
Local Open Scope py_scope.

Definition set_heap (h : list cell) (w : world) : world :=
  World h (self w) (listeners w) (calls w).

Definition set_self (s : manager) (w : world) : world :=
  World (heap w) s (listeners w) (calls w).

Definition get_self : M manager := fun w => (Ok (self w), w).

Definition put_self (s : manager) : M unit := fun w => (Ok tt, set_self s w).

(** A new object gets the next free reference. *)
Definition alloc (c : cell) : M loc :=
  fun w => (Ok (length (heap w)), set_heap (heap w ++ [c]) w).

Definition load (l : loc) : M cell :=
  fun w =>
    match heap w !! l with
    | Some c => (Ok c, w)
    | None => (Raise TypeError, w)
    end.

Definition store (l : loc) (c : cell) : M unit :=
  fun w => (Ok tt, set_heap (<[l := c]> (heap w)) w).

Definition load_list (l : loc) : M (list loc) :=
  c <- load l ;;
  match c with CList items => ret items | _ => raise TypeError end.

Definition load_log (l : loc) : M log_entry :=
  c <- load l ;;
  match c with CLog e => ret e | _ => raise TypeError end.

Definition load_group (l : loc) : M log_group :=
  c <- load l ;;
  match c with CGroup g => ret g | _ => raise TypeError end.

Definition load_req (l : loc) : M request_entry :=
  c <- load l ;;
  match c with CReq r => ret r | _ => raise TypeError end.

(** [xs.append(x)] *)
Definition list_append (xs : loc) (x : loc) : M unit :=
  items <- load_list xs ;;
  store xs (CList (items ++ [x])).

Fixpoint map_m {A B} (f : A -> M B) (l : list A) : M (list B) :=
  match l with
  | [] => ret []
  | x :: l' =>
      y <- f x ;;
      ys <- map_m f l' ;;
      ret (y :: ys)
  end.

(** ** Python list and sorting primitives *)

(** [xs[:n]] for a Python integer [n]: a negative stop counts from the end
    and is clamped at the start of the list. *)
Definition slice_to {A} (xs : list A) (n : Z) : list A :=
  if 0 <=? n then take (Z.to_nat n) xs
  else take (Z.to_nat (Z.of_nat (length xs) + n)) xs.

Definition list_slice_to (xs : loc) (n : Z) : M loc :=
  items <- load_list xs ;;
  alloc (CList (slice_to items n)).

(** Python's sort is stable, so its result is the one arrangement that is
    ordered by key and keeps equal keys in their input order: the result of
    a stable insertion sort.  With [reverse=True] every comparison is
    reversed and equal keys still keep their input order. *)
Fixpoint insert_by {A} (le : A -> A -> bool) (x : A) (l : list A) : list A :=
  match l with
  | [] => [x]
  | y :: l' => if le x y then x :: l else y :: insert_by le x l'
  end.

Fixpoint stable_sort {A} (le : A -> A -> bool) (l : list A) : list A :=
  match l with
  | [] => []
  | x :: l' => insert_by le x (stable_sort le l')
  end.

Definition key_le {A} (key : A -> timestamp) (reverse : bool) (a b : A) : bool :=
  if reverse then key b <=? key a else key a <=? key b.

(** [lambda x: x.get('timestamp', 0)]: every dict built by this program has
    the key, so the default is never taken; a list has no [get]. *)
Definition timestamp_key (x : loc) : M timestamp :=
  c <- load x ;;
  match c with
  | CLog e => ret (log_timestamp e)
  | CGroup g => ret (grp_timestamp g)
  | CReq r => ret (req_timestamp r)
  | CList _ => raise AttributeError
  end.

(** The key is computed once per item, then the items are ordered. *)
Definition sort_items (key : loc -> M timestamp) (reverse : bool)
    (items : list loc) : M (list loc) :=
  keys <- map_m key items ;;
  ret (map snd (stable_sort (key_le fst reverse) (zip keys items))).

(** [sorted(xs, key=..., reverse=...)] builds a new list. *)
Definition sorted (xs : loc) (key : loc -> M timestamp) (reverse : bool) : M loc :=
  items <- load_list xs ;;
  r <- sort_items key reverse items ;;
  alloc (CList r).

(** [xs.sort(key=..., reverse=...)] reorders [xs] itself. *)
Definition list_sort (xs : loc) (key : loc -> M timestamp) (reverse : bool) : M unit :=
  items <- load_list xs ;;
  r <- sort_items key reverse items ;;
  store xs (CList r).

(** [str(n)] for an integer. *)
Definition str_int (n : Z) : string := NilZero.string_of_int (Z.to_int n).

(** ** Event handlers *)

Definition _handle_console_message (message : console_message) (now : timestamp) : M unit :=
  s <- get_self ;;
  log_entry <- alloc (CLog {| log_type := msg_type message;
                              log_text := msg_text message;
                              log_location := msg_location message;
                              log_timestamp := now |}) ;;
  list_append (console_logs s) log_entry.

Definition _handle_request (r : request) (now : timestamp) : M unit :=
  s <- get_self ;;
  request_entry <- alloc (CReq {| req_url := rq_url r;
                                  req_method := rq_method r;
                                  req_headers := rq_headers r;
                                  req_timestamp := now;
                                  req_resourceType := rq_resource_type r;
                                  req_id := rq_id r;
                                  req_response := None |}) ;;
  list_append (network_requests s) request_entry.

Definition with_response (r : request_entry) (x : response_entry) : request_entry :=
  {| req_url := req_url r; req_method := req_method r;
     req_headers := req_headers r; req_timestamp := req_timestamp r;
     req_resourceType := req_resourceType r; req_id := req_id r;
     req_response := Some x |}.

Definition response_dict (r : response) (now : timestamp) : response_entry :=
  {| resp_status := rs_status r; resp_statusText := rs_status_text r;
     resp_headers := rs_headers r; resp_timestamp := now |}.

(** [request.get("url") == response.url and "response" not in request] *)
Definition awaits_response (r : response) (e : request_entry) : bool :=
  (req_url e =? rs_url r)%string &&
  match req_response e with None => true | Some _ => false end.

(** The [for ... break] loop of [_handle_response]. *)
Fixpoint _handle_response_loop (r : response) (now : timestamp)
    (requests : list loc) : M unit :=
  match requests with
  | [] => ret tt
  | request :: rest =>
      e <- load_req request ;;
      if awaits_response r e
      then store request (CReq (with_response e (response_dict r now)))
      else _handle_response_loop r now rest
  end.

Definition _handle_response (r : response) (now : timestamp) : M unit :=
  s <- get_self ;;
  requests <- load_list (network_requests s) ;;
  _handle_response_loop r now requests.

(** ** Queries *)

Definition new_group (log : log_entry) : log_group :=
  {| grp_type := log_type log;
     grp_text := log_text log;
     grp_location := log_location log;
     grp_timestamp := log_timestamp log;
     grp_count := 1;
     grp_timestamps := [log_timestamp log] |}.

(** The [else] branch of the loop, applied to the dict of the current group:
    count, then timestamps, then the text. *)
Definition repeat_group (g : log_group) (log : log_entry) : log_group :=
  let count := grp_count g + 1 in
  {| grp_type := grp_type g;
     grp_text := if 1 <? count
                 then log_text log ++ " (repeated " ++ str_int count ++ " times)"
                 else grp_text g;
     grp_location := grp_location g;
     grp_timestamp := grp_timestamp g;
     grp_count := count;
     grp_timestamps := grp_timestamps g ++ [log_timestamp log] |}.

(** [log['type'] != current_group['type'] or log['text'] != current_group['text']] *)
Definition differs (log : log_entry) (g : log_group) : bool :=
  negb (log_type log =? grp_type g)%string || negb (log_text log =? grp_text g)%string.

(** The loop over [sorted_logs]; [current_group] is a reference to the dict
    that was appended last, and is updated where it sits. *)
Fixpoint dedup_loop (sorted_logs : list loc) (current_group : option loc)
    (deduplicated_logs : loc) : M unit :=
  match sorted_logs with
  | [] => ret tt
  | l :: rest =>
      log <- load_log l ;;
      let start_group :=
        (g <- alloc (CGroup (new_group log)) ;;
         list_append deduplicated_logs g ;;
         dedup_loop rest (Some g) deduplicated_logs) in
      match current_group with
      | None => start_group
      | Some g =>
          cg <- load_group g ;;
          if differs log cg then start_group
          else
            (store g (CGroup (repeat_group cg log)) ;;
             dedup_loop rest current_group deduplicated_logs)
      end
  end.

Definition get_console_logs (last_n : Z) : M loc :=
  s <- get_self ;;
  console <- load_list (console_logs s) ;;
  match console with
  | [] => alloc (CList [])
  | _ :: _ =>
      deduplicated_logs <- alloc (CList []) ;;
      sorted_logs <- sorted (console_logs s) timestamp_key false ;;
      logs <- load_list sorted_logs ;;
      dedup_loop logs None deduplicated_logs ;;
      list_sort deduplicated_logs timestamp_key true ;;
      deduplicated_logs <- list_slice_to deduplicated_logs last_n ;;
      list_sort deduplicated_logs timestamp_key false ;;
      ret deduplicated_logs
  end.

Definition get_network_requests (last_n : Z) : M loc :=
  s <- get_self ;;
  requests <- load_list (network_requests s) ;;
  match requests with
  | [] => alloc (CList [])
  | _ :: _ =>
      sorted_requests <- sorted (network_requests s) timestamp_key true ;;
      limited_requests <- list_slice_to sorted_requests last_n ;;
      list_sort limited_requests timestamp_key false ;;
      ret limited_requests
  end.

(** ** Event delivery *)

Definition run_handler (h : handler) (e : event) (now : timestamp) : M unit :=
  match h, e with
  | HandleConsoleMessage, EConsole message => _handle_console_message message now
  | HandleRequest, ERequest r => _handle_request r now
  | HandleResponse, EResponse r => _handle_response r now
  | _, _ => raise AttributeError
  end.

Definition listens (d : delivery) (l : handle * string * handler) : bool :=
  (fst (fst l) =? dl_page d)%nat && (snd (fst l) =? event_name (dl_event d))%string.

(** The page's emitter runs, in registration order, the listeners registered
    for the event's name.  An exception of a listener does not reach the
    suspended operation. *)
Definition emit (d : delivery) (w : world) : world :=
  fold_left (fun w1 l => snd (run_handler (snd l) (dl_event d) (dl_now d) w1))
            (List.filter (listens d) (listeners w)) w.

Definition emit_all (ds : list delivery) (w : world) : world :=
  fold_left (fun w1 d => emit d w1) ds w.

(** [page.on(name, h)] *)
Definition page_on (p : handle) (name : string) (h : handler) : M unit :=
  fun w => (Ok tt, World (heap w) (self w) (listeners w ++ [(p, name, h)]) (calls w)).

(** ** Lifecycle *)

(** What the provider does with an awaited call: the events whose listeners
    run while the operation is suspended, and the object the call returns,
    or [None] when the call raises. *)
Record reply := Reply {
  deliveries : list delivery;
  result : option handle
}.

Section Provider.

(** The browser provider is outside the program: its answer to a call may
    depend on all the calls made so far. *)
Variable provider : list call -> call -> reply.

Definition await (c : call) : M handle :=
  fun w =>
    let r := provider (calls w) c in
    let w1 := World (heap w) (self w) (listeners w) (calls w ++ [c]) in
    let w2 := emit_all (deliveries r) w1 in
    match result r with
    | Some h => (Ok h, w2)
    | None => (Raise (ProviderError c), w2)
    end.

Definition initialize : M unit :=
  s <- get_self ;;
  if is_initialized s then ret tt
  else
    pw <- await StartPlaywright ;;
    s <- get_self ;;
    put_self (Manager (Some pw) (browser s) (page s) (console_logs s)
                      (network_requests s) (is_initialized s) (headless s)) ;;
    s <- get_self ;;
    let launch_options := if headless s then [("headless", true)] else [] in
    b <- await (ChromiumLaunch pw launch_options) ;;
    s <- get_self ;;
    put_self (Manager (playwright s) (Some b) (page s) (console_logs s)
                      (network_requests s) (is_initialized s) (headless s)) ;;
    s <- get_self ;;
    put_self (Manager (playwright s) (browser s) (page s) (console_logs s)
                      (network_requests s) true (headless s)).

Definition close : M unit :=
  s <- get_self ;;
  match page s with
  | Some p =>
      await (PageClose p) ;;
      s <- get_self ;;
      put_self (Manager (playwright s) (browser s) None (console_logs s)
                        (network_requests s) (is_initialized s) (headless s))
  | None => ret tt
  end ;;
  s <- get_self ;;
  match browser s with
  | Some b =>
      await (BrowserClose b) ;;
      s <- get_self ;;
      put_self (Manager (playwright s) None (page s) (console_logs s)
                        (network_requests s) (is_initialized s) (headless s))
  | None => ret tt
  end ;;
  s <- get_self ;;
  match playwright s with
  | Some pw =>
      await (PlaywrightStop pw) ;;
      s <- get_self ;;
      put_self (Manager None (browser s) (page s) (console_logs s)
                        (network_requests s) (is_initialized s) (headless s))
  | None => ret tt
  end ;;
  s <- get_self ;;
  put_self (Manager (playwright s) (browser s) (page s) (console_logs s)
                    (network_requests s) false (headless s)) ;;
  console <- alloc (CList []) ;;
  s <- get_self ;;
  put_self (Manager (playwright s) (browser s) (page s) console
                    (network_requests s) (is_initialized s) (headless s)) ;;
  network <- alloc (CList []) ;;
  s <- get_self ;;
  put_self (Manager (playwright s) (browser s) (page s) (console_logs s)
                    network (is_initialized s) (headless s)).

Definition open_url (url : string) : M string :=
  s <- get_self ;;
  (if is_initialized s then ret tt else initialize) ;;
  s <- get_self ;;
  match page s with
  | Some p => await (PageClose p) ;; ret tt
  | None => ret tt
  end ;;
  console <- alloc (CList []) ;;
  s <- get_self ;;
  put_self (Manager (playwright s) (browser s) (page s) console
                    (network_requests s) (is_initialized s) (headless s)) ;;
  network <- alloc (CList []) ;;
  s <- get_self ;;
  put_self (Manager (playwright s) (browser s) (page s) (console_logs s)
                    network (is_initialized s) (headless s)) ;;
  s <- get_self ;;
  match browser s with
  | None => raise AttributeError
  | Some b =>
      p <- await (BrowserNewPage b) ;;
      s <- get_self ;;
      put_self (Manager (playwright s) (browser s) (Some p) (console_logs s)
                        (network_requests s) (is_initialized s) (headless s)) ;;
      page_on p "console" HandleConsoleMessage ;;
      page_on p "request" HandleRequest ;;
      page_on p "response" HandleResponse ;;
      await (PageGoto p url) ;;
      ret ("Opened " ++ url ++
           " successfully. The browser window will remain open for you to interact with.")%string
  end.

End Provider.

(** ** Reading the store *)

Definition as_list (c : cell) : option (list loc) :=
  match c with CList items => Some items | _ => None end.

Definition as_log (c : cell) : option log_entry :=
  match c with CLog e => Some e | _ => None end.

Definition as_group (c : cell) : option log_group :=
  match c with CGroup g => Some g | _ => None end.

Definition as_req (c : cell) : option request_entry :=
  match c with CReq r => Some r | _ => None end.

(** The object at a reference, seen through one of the projections above. *)
Definition obj_at {A} (proj : cell -> option A) (h : list cell) (l : loc) : option A :=
  match h !! l with Some c => proj c | None => None end.

Definition list_at := obj_at as_list.
Definition log_at := obj_at as_log.
Definition group_at := obj_at as_group.
Definition req_at := obj_at as_req.

(** The dicts of a list object, when it holds distinct objects of the
    expected kind. *)
Definition dicts_at {A} (at_ : list cell -> loc -> option A) (h : list cell)
    (l : loc) : option (list A) :=
  match list_at h l with
  | Some items => if bool_decide (NoDup items) then mapM (at_ h) items else None
  | None => None
  end.

Definition logs_at := dicts_at log_at.
Definition groups_at := dicts_at group_at.
Definition reqs_at := dicts_at req_at.

(** The stored console log and network log of a session. *)
Definition console_view (w : world) : option (list log_entry) :=
  logs_at (heap w) (console_logs (self w)).

Definition network_view (w : world) : option (list request_entry) :=
  reqs_at (heap w) (network_requests (self w)).

(** ** The queries on values

    The same computations on the dicts themselves; the theorems below show
    that the operations on the store return lists holding these values. *)

Definition sort_on {A} (key : A -> timestamp) (reverse : bool) (l : list A) : list A :=
  stable_sort (key_le key reverse) l.

(** One turn of the grouping loop; [acc] holds the groups built so far, the
    current one first. *)
Definition dedup_step (acc : list log_group) (log : log_entry) : list log_group :=
  match acc with
  | [] => [new_group log]
  | g :: acc' =>
      if differs log g then new_group log :: acc
      else repeat_group g log :: acc'
  end.

Definition deduplicate (logs : list log_entry) : list log_group :=
  rev (fold_left dedup_step logs []).

Definition console_result (logs : list log_entry) (last_n : Z) : list log_group :=
  let groups := deduplicate (sort_on log_timestamp false logs) in
  sort_on grp_timestamp false (slice_to (sort_on grp_timestamp true groups) last_n).

Definition network_result (requests : list request_entry) (last_n : Z)
    : list request_entry :=
  sort_on req_timestamp false (slice_to (sort_on req_timestamp true requests) last_n).

(** [_handle_response] on the exchanges themselves. *)
Fixpoint attach (r : response) (now : timestamp) (requests : list request_entry)
    : list request_entry :=
  match requests with
  | [] => []
  | e :: rest =>
      if awaits_response r e then with_response e (response_dict r now) :: rest
      else e :: attach r now rest
  end.

(** The handlers on the two logs. *)
Definition apply_handler (h : handler) (e : event) (now : timestamp)
    (logs : list log_entry * list request_entry)
    : list log_entry * list request_entry :=
  match h, e with
  | HandleConsoleMessage, EConsole m =>
      ((fst logs ++ [LogEntry (msg_type m) (msg_text m) (msg_location m) now])%list,
       snd logs)
  | HandleRequest, ERequest r =>
      (fst logs,
       (snd logs ++ [RequestEntry (rq_url r) (rq_method r) (rq_headers r) now
                                  (rq_resource_type r) (rq_id r) None])%list)
  | HandleResponse, EResponse r => (fst logs, attach r now (snd logs))
  | _, _ => logs
  end.

Definition captured (ls : list (handle * string * handler)) (d : delivery)
    (logs : list log_entry * list request_entry)
    : list log_entry * list request_entry :=
  fold_left (fun v l => apply_handler (snd l) (dl_event d) (dl_now d) v)
            (List.filter (listens d) ls) logs.

Definition captured_all (ls : list (handle * string * handler)) (ds : list delivery)
    (logs : list log_entry * list request_entry)
    : list log_entry * list request_entry :=
  fold_left (fun v d => captured ls d v) ds logs.

(** The listeners [open_url] registers on a new page, and its answer. *)
Definition new_listeners (p : handle) : list (handle * string * handler) :=
  [(p, "console", HandleConsoleMessage);
   (p, "request", HandleRequest);
   (p, "response", HandleResponse)].

Definition opened_message (url : string) : string :=
  "Opened " ++ url ++
  " successfully. The browser window will remain open for you to interact with.".

(** The calls [close] is to make: page, browser, driver, each if present. *)
Definition releases (s : manager) : list call :=
  (match page s with Some p => [PageClose p] | None => [] end
   ++ match browser s with Some b => [BrowserClose b] | None => [] end
   ++ match playwright s with Some pw => [PlaywrightStop pw] | None => [] end)%list.

(** What a caller can observe of a session. *)
Definition session_view (w : world) :=
  (playwright (self w), browser (self w), page (self w),
   is_initialized (self w), headless (self w),
   console_view w, network_view w, listeners w, calls w).

(** Oldest first. *)
Definition ascending {A} (key : A -> timestamp) (l : list A) : Prop :=
  StronglySorted (fun a b => key a <= key b) l.

(** Oldest first, no two at the same instant. *)
Definition increasing {A} (key : A -> timestamp) (l : list A) : Prop :=
  StronglySorted (fun a b => key a < key b) l.

(** [holds proj h items vals]: the references [items] lead to the values
    [vals], one by one. *)
Definition holds {A} (proj : cell -> option A) (h : list cell)
    (items : list loc) (vals : list A) : Prop :=
  Forall2 (fun l a => obj_at proj h l = Some a) items vals.

(** The references [items], whose dicts have the timestamps [keys], in the
    order [sort_items] gives them. *)
Definition sort_locs (reverse : bool) (keys : list timestamp) (items : list loc)
    : list loc :=
  map snd (stable_sort (key_le fst reverse) (zip keys items)).

(** [w'] is [w] up to objects with references from [n0] on: the manager's
    attributes, the listeners, the calls made and every object below [n0]
    are the same. *)
Definition preserves (n0 : nat) (w w' : world) : Prop :=
  self w' = self w /\ listeners w' = listeners w /\ calls w' = calls w
  /\ take n0 (heap w') = take n0 (heap w)
  /\ (length (heap w) <= length (heap w'))%nat.

(** [m] touches no object below [n0], and its results satisfy [Q]. *)
Definition keeps {A} (n0 : nat) (m : M A) (Q : A -> Prop) : Prop :=
  forall w, (n0 <= length (heap w))%nat ->
    preserves n0 w (snd (m w)) /\ forall a, fst (m w) = Ok a -> Q a.

(** The operation ends with an exception. *)
Definition rejected {A} (m : M A) (w : world) : Prop :=
  exists e, fst (m w) = Raise e.

(** How many items [xs[:n]] keeps of [len] when [n] is not positive. *)
Definition kept (len : nat) (n : Z) : nat :=
  if n =? 0 then 0%nat else (len - Z.to_nat (- n))%nat.

(** ** Sessions used in the examples *)

Definition no_location : location := Location "" 0 0.

Definition fresh_manager : manager :=
  Manager None None None 0%nat 1%nat false true.

(** A session whose console log holds [logs] and whose network log holds
    [requests]: the two list objects first, then one dict per entry. *)
Definition session_with (logs : list log_entry) (requests : list request_entry) : world :=
  let nl := length logs in
  let nr := length requests in
  World (CList (seq 2 nl) :: CList (seq (2 + nl) nr)
           :: map CLog logs ++ map CReq requests)
        fresh_manager [] [].

Definition entry (type text : string) (t : timestamp) : log_entry :=
  LogEntry type text no_location t.

Definition get_request (url : string) (t : timestamp) (id : Z) : request_entry :=
  RequestEntry url "GET" [] t "document" id None.

(** A provider that always answers, delivers nothing, and numbers the
    objects it returns by the calls made so far. *)
Definition quiet_provider (history : list call) (c : call) : reply :=
  Reply [] (Some (length history)).

(** A provider whose pages, while they load, log their address, request it
    and get the response. *)
Definition loading_provider (history : list call) (c : call) : reply :=
  match c with
  | PageGoto p url =>
      Reply [Delivery p 10 (ERequest (Request url "GET" [] "document" 7));
             Delivery p 11 (EResponse (Response url 200 "OK" []));
             Delivery p 12 (EConsole (ConsoleMessage "log" url no_location))]
            (Some (length history))
  | _ => Reply [] (Some (length history))
  end.

(** A new manager with its two empty lists, as [__init__] leaves it. *)
Definition new_session : world := session_with [] [].

(** The session after a first page was opened. *)
Definition one_page_open : world :=
  snd (open_url loading_provider "http://first" new_session).


(** ** The rest of the manager, and the tools *)

(** [__init__]: a new manager owns two new empty lists. *)
Definition __init__ (headless_ : bool) : M unit :=
  console <- alloc (CList []) ;;
  network <- alloc (CList []) ;;
  put_self (Manager None None None console network false headless_).

(** The functions registered with [mcp.tool()] call the manager and pass
    its answer on. *)
Module Tools.
Section Registered.
Variable provider : list call -> call -> reply.

Definition open_browser (url : string) : M string := open_url provider url.

Definition get_console_logs (last_n : Z) : M loc := get_console_logs last_n.

Definition get_network_requests (last_n : Z) : M loc := get_network_requests last_n.

Definition close_browser : M string :=
  close provider ;;
  ret "Browser closed successfully".

End Registered.
End Tools.

(** The first version of the server, [mcp_playwright.py]: its two queries
    hand out the stored lists themselves. *)
Module Legacy.

Definition get_console_logs : M loc :=
  s <- get_self ;;
  ret (console_logs s).

Definition get_network_requests : M loc :=
  s <- get_self ;;
  ret (network_requests s).

End Legacy.

(** ** Sessions as a server sees them *)

(** Both logs are lists of distinct dicts of their kind, and they are two
    different lists. *)
Definition well_formed (w : world) : Prop :=
  is_Some (console_view w) /\ is_Some (network_view w)
  /\ console_logs (self w) <> network_requests (self w).

(** What happens to a session: a tool is called, or the page emits events
    while no tool runs.  An exception of a tool goes to the caller and the
    server goes on with the state the tool left. *)
Inductive action :=
| Events (ds : list delivery)
| OpenBrowser (url : string)
| GetConsoleLogs (last_n : Z)
| GetNetworkRequests (last_n : Z)
| CloseBrowser.

Definition perform (provider : list call -> call -> reply) (a : action)
    (w : world) : world :=
  match a with
  | Events ds => emit_all ds w
  | OpenBrowser url => snd (Tools.open_browser provider url w)
  | GetConsoleLogs last_n => snd (Tools.get_console_logs last_n w)
  | GetNetworkRequests last_n => snd (Tools.get_network_requests last_n w)
  | CloseBrowser => snd (Tools.close_browser provider w)
  end.

Definition perform_all (provider : list call -> call -> reply) (acts : list action)
    (w : world) : world :=
  fold_left (fun w1 a => perform provider a w1) acts w.

(** ** Measures on the logs *)

(** The request of an exchange, its response left out. *)
Definition without_response (e : request_entry) : request_entry :=
  RequestEntry (req_url e) (req_method e) (req_headers e) (req_timestamp e)
               (req_resourceType e) (req_id e) None.

Definition answered (e : request_entry) : bool :=
  match req_response e with Some _ => true | None => false end.

Definition total_count (groups : list log_group) : Z :=
  fold_right Z.add 0 (map grp_count groups).

(** Two entries that the grouping loop takes for one message. *)
Definition same_message (a b : log_entry) : Prop :=
  log_type a = log_type b /\ log_text a = log_text b.

(** What a group keeps of the entries it stands for. *)
Definition group_sound (logs : list log_entry) (g : log_group) : Prop :=
  grp_count g = Z.of_nat (length (grp_timestamps g))
  /\ head (grp_timestamps g) = Some (grp_timestamp g)
  /\ exists e, In e logs
       /\ grp_type g = log_type e
       /\ grp_location g = log_location e
       /\ grp_timestamp g = log_timestamp e.

(** The clock readings of a sequence of deliveries never go back. *)
Definition clock_ordered (ds : list delivery) : Prop :=
  StronglySorted (fun a b => dl_now a <= dl_now b) ds.

(** Both logs are in timestamp order and hold nothing later than [t]. *)
Definition ordered_until (t : timestamp)
    (logs : list log_entry * list request_entry) : Prop :=
  ascending log_timestamp (fst logs) /\ ascending req_timestamp (snd logs)
  /\ Forall (fun e => log_timestamp e <= t) (fst logs)
  /\ Forall (fun e => req_timestamp e <= t) (snd logs).

(** The references in a window over [items], whose dicts have the
    timestamps [keys]: they depend on the timestamps only. *)
Definition window_locs (keys : list timestamp) (items : list loc) (n : Z) : list loc :=
  sort_locs false
    (slice_to (stable_sort (key_le id true) keys) n)
    (slice_to (sort_locs true keys items) n).

(** ** Providers that fail *)

(** A provider that raises on the calls [bad] picks and answers the others;
    it delivers nothing. *)
Definition failing_on (bad : call -> bool) (history : list call) (c : call) : reply :=
  Reply [] (if bad c then None else Some (length history)).

Definition is_launch (c : call) : bool :=
  match c with ChromiumLaunch _ _ => true | _ => false end.

Definition is_page_close (c : call) : bool :=
  match c with PageClose _ => true | _ => false end.

Definition is_stop (c : call) : bool :=
  match c with PlaywrightStop _ => true | _ => false end.

Definition is_goto (c : call) : bool :=
  match c with PageGoto _ _ => true | _ => false end.

Definition is_new_page (c : call) : bool :=
  match c with BrowserNewPage _ => true | _ => false end.


(** * Proofs *)

Local Close Scope string_scope.

(** ** Stable sorting by a key *)

Section StableSort.
Context {A : Type} (key : A -> timestamp) (reverse : bool).

Local Abbreviation le := (key_le key reverse).
Local Abbreviation le_holds := (fun a b => le a b = true).

Lemma key_le_total a b : le a b = false -> le b a = true.
Proof. unfold key_le. destruct reverse; intros H; lia. Qed.

Lemma key_le_trans a b c : le a b = true -> le b c = true -> le a c = true.
Proof. unfold key_le. destruct reverse; intros H1 H2; lia. Qed.

Lemma key_le_same a b : key a = key b -> le a b = true.
Proof. unfold key_le. destruct reverse; intros H; lia. Qed.

Lemma insert_by_perm x l : Permutation (insert_by le x l) (x :: l).
Proof.
  induction l as [|y l IH]; simpl; [done|].
  destruct (le x y); [done|].
  rewrite IH. apply perm_swap.
Qed.

Lemma stable_sort_perm l : Permutation (stable_sort le l) l.
Proof.
  induction l as [|x l IH]; simpl; [done|].
  rewrite insert_by_perm. by constructor.
Qed.

Lemma stable_sort_length l : length (stable_sort le l) = length l.
Proof. apply Permutation_length, stable_sort_perm. Qed.

Lemma insert_by_sorted x l :
  StronglySorted le_holds l -> StronglySorted le_holds (insert_by le x l).
Proof.
  induction 1 as [|y l Hs IH Hy]; simpl.
  - repeat constructor.
  - destruct (le x y) eqn:Hxy.
    + constructor; [by constructor|].
      constructor; [done|].
      eapply Forall_impl; [exact Hy|]. intros z Hz. by eapply key_le_trans.
    + constructor; [done|].
      rewrite insert_by_perm. constructor; [|done].
      by apply key_le_total.
Qed.

Lemma stable_sort_sorted l : StronglySorted le_holds (stable_sort le l).
Proof.
  induction l as [|x l IH]; simpl; [constructor|]. by apply insert_by_sorted.
Qed.

(** A list that is already in order is left as it is. *)
Lemma stable_sort_id l : StronglySorted le_holds l -> stable_sort le l = l.
Proof.
  induction 1 as [|x l Hs IH Hx]; simpl; [done|].
  rewrite IH. destruct Hx as [|y l Hy _]; simpl; [done|]. by rewrite Hy.
Qed.

(** Stability: the items of one key keep their order. *)
Lemma insert_by_stable k x l :
  List.filter (fun a => key a =? k) (insert_by le x l)
  = List.filter (fun a => key a =? k) (x :: l).
Proof.
  induction l as [|y l IH]; [done|].
  cbn [insert_by]. destruct (le x y) eqn:Hxy; [done|].
  cbn [List.filter] in *. rewrite IH.
  destruct (key x =? k) eqn:Hx; [|done].
  destruct (key y =? k) eqn:Hy; [|done].
  rewrite key_le_same in Hxy; [done|lia].
Qed.

Lemma stable_sort_stable k l :
  List.filter (fun a => key a =? k) (stable_sort le l)
  = List.filter (fun a => key a =? k) l.
Proof.
  induction l as [|x l IH]; [done|].
  cbn [stable_sort]. rewrite insert_by_stable. cbn [List.filter]. by rewrite IH.
Qed.
End StableSort.

Section SortOn.
Context {A : Type} (key : A -> timestamp).

Lemma sort_on_perm reverse (l : list A) : Permutation (sort_on key reverse l) l.
Proof. apply stable_sort_perm. Qed.

Lemma sort_on_length reverse (l : list A) :
  length (sort_on key reverse l) = length l.
Proof. apply stable_sort_length. Qed.

Lemma sort_on_sorted reverse (l : list A) :
  StronglySorted (fun a b => key_le key reverse a b = true) (sort_on key reverse l).
Proof. apply stable_sort_sorted. Qed.

(** Two lists in ascending key order that agree key by key are equal. *)
Lemma ascending_unique (l1 l2 : list A) :
  StronglySorted (fun a b => key_le key false a b = true) l1 ->
  StronglySorted (fun a b => key_le key false a b = true) l2 ->
  (forall k, List.filter (fun a => key a =? k) l1
             = List.filter (fun a => key a =? k) l2) ->
  l1 = l2.
Proof.
  intros H1. revert l2.
  induction H1 as [|x l1 Hs1 IH Hx]; intros l2 H2 Heq.
  - destruct l2 as [|y l2]; [done|].
    specialize (Heq (key y)). cbn in Heq. by rewrite Z.eqb_refl in Heq.
  - destruct H2 as [|y l2 Hs2 Hy].
    { specialize (Heq (key x)). cbn in Heq. by rewrite Z.eqb_refl in Heq. }
    assert (Hin : forall (a : A) (l l' : list A),
               List.filter (fun b => key b =? key a) (a :: l)
               = List.filter (fun b => key b =? key a) l' -> In a l').
    { intros a l l' E. cbn in E. rewrite Z.eqb_refl in E.
      eapply (proj1 (filter_In _ a l')). rewrite <- E. by left. }
    assert (Hk : key x = key y).
    { pose proof (Hin x l1 _ (Heq (key x))) as Hxin.
      pose proof (Hin y l2 _ (eq_sym (Heq (key y)))) as Hyin.
      rewrite Forall_forall in Hx, Hy. unfold key_le in Hx, Hy.
      destruct Hxin as [->|Hxin]; [done|].
      destruct Hyin as [->|Hyin]; [done|].
      apply list_elem_of_In, Hy in Hxin. apply list_elem_of_In, Hx in Hyin. lia. }
    pose proof (Heq (key x)) as E. cbn in E.
    rewrite Z.eqb_refl, <- Hk, Z.eqb_refl in E.
    injection E as -> E. f_equal. apply IH; [done|].
    intros k. specialize (Heq k). cbn in Heq.
    destruct (key y =? k); [|done].
    congruence.
Qed.

(** Sorting newest first and then oldest first is sorting oldest first. *)
Lemma sort_on_ascending_of_descending (l : list A) :
  sort_on key false (sort_on key true l) = sort_on key false l.
Proof.
  apply ascending_unique; try apply sort_on_sorted.
  intros k. unfold sort_on. by rewrite !stable_sort_stable.
Qed.

Lemma sort_on_id reverse (l : list A) :
  StronglySorted (fun a b => key_le key reverse a b = true) l ->
  sort_on key reverse l = l.
Proof. apply stable_sort_id. Qed.
End SortOn.

(** Sorting commutes with a map that respects the order. *)
Lemma stable_sort_map {A B} (g : A -> B) (le : B -> B -> bool) (l : list A) :
  map g (stable_sort (fun a b => le (g a) (g b)) l) = stable_sort le (map g l).
Proof.
  induction l as [|x l IH]; simpl; [done|].
  rewrite <- IH. generalize (stable_sort (fun a b => le (g a) (g b)) l).
  intros s. induction s as [|y s IHs]; simpl; [done|].
  destruct (le (g x) (g y)); simpl; [done|]. by rewrite IHs.
Qed.

(** ** Objects in the store *)

Section Objects.
Context {A : Type} (proj : cell -> option A).

Lemma obj_at_lt h l a : obj_at proj h l = Some a -> (l < length h)%nat.
Proof.
  unfold obj_at. destruct (h !! l) eqn:E; [|done].
  intros _. by eapply lookup_lt_Some.
Qed.

Lemma obj_at_app h ext l a :
  obj_at proj h l = Some a -> obj_at proj (h ++ ext) l = Some a.
Proof.
  intros H. pose proof (obj_at_lt _ _ _ H). unfold obj_at in *.
  by rewrite lookup_app_l.
Qed.

Lemma obj_at_new h c : obj_at proj (h ++ [c]) (length h) = proj c.
Proof. unfold obj_at. by rewrite list_lookup_middle. Qed.

(** Overwriting an object of another kind by an object of another kind
    changes nothing for this kind. *)
Lemma obj_at_store_other h l0 c l :
  proj c = None -> obj_at proj h l0 = None ->
  obj_at proj (<[l0 := c]> h) l = obj_at proj h l.
Proof.
  intros Hc H0. unfold obj_at in *.
  destruct (decide (l0 = l)) as [->|Hne].
  - destruct (h !! l) eqn:E.
    + rewrite list_lookup_insert_eq by (by eapply lookup_lt_Some). by rewrite Hc.
    + rewrite list_insert_ge by (by apply lookup_ge_None). by rewrite E.
  - by rewrite list_lookup_insert_ne.
Qed.

Lemma obj_at_store_ne h l0 c l :
  l0 <> l -> obj_at proj (<[l0 := c]> h) l = obj_at proj h l.
Proof. intros Hne. unfold obj_at. by rewrite list_lookup_insert_ne. Qed.

Lemma obj_at_store_eq h l a c :
  obj_at proj h l = Some a -> obj_at proj (<[l := c]> h) l = proj c.
Proof.
  intros H. pose proof (obj_at_lt _ _ _ H). unfold obj_at.
  by rewrite list_lookup_insert_eq.
Qed.

Lemma holds_app h ext items vals :
  holds proj h items vals -> holds proj (h ++ ext) items vals.
Proof.
  intros H. eapply Forall2_impl; [exact H|]. intros l a. apply obj_at_app.
Qed.

Lemma holds_store_other h l0 c items vals :
  proj c = None -> obj_at proj h l0 = None ->
  holds proj h items vals -> holds proj (<[l0 := c]> h) items vals.
Proof.
  intros Hc H0 H. eapply Forall2_impl; [exact H|]. intros l a.
  by rewrite obj_at_store_other.
Qed.

Lemma holds_store_notin h l0 c items vals :
  l0 ∉ items ->
  holds proj h items vals -> holds proj (<[l0 := c]> h) items vals.
Proof.
  intros Hnotin H. unfold holds in *.
  induction H as [|x v items vals Hx H IH]; constructor.
  - rewrite obj_at_store_ne; [done|]. intros ->. apply Hnotin. by left.
  - apply IH. intros Hin. apply Hnotin. by right.
Qed.

Lemma holds_lt h items vals :
  holds proj h items vals -> Forall (fun l => (l < length h)%nat) items.
Proof.
  induction 1; constructor; [by eapply obj_at_lt|done].
Qed.

Lemma holds_slice h items vals n :
  holds proj h items vals -> holds proj h (slice_to items n) (slice_to vals n).
Proof.
  intros H. unfold slice_to. rewrite (Forall2_length _ _ _ H).
  destruct (0 <=? n); by apply Forall2_take.
Qed.

Lemma dicts_at_Some h l vals :
  dicts_at (obj_at proj) h l = Some vals <->
  exists items, list_at h l = Some items /\ NoDup items /\ holds proj h items vals.
Proof.
  unfold dicts_at, holds. split.
  - destruct (list_at h l) as [items|]; [|done].
    case_bool_decide; [|done]. intros Hm. exists items.
    by rewrite <- mapM_Some.
  - intros (items & -> & Hnd & Hm).
    rewrite bool_decide_eq_true_2 by done. by apply mapM_Some.
Qed.
End Objects.

Lemma slice_to_nil {A} n : slice_to (@nil A) n = [].
Proof. unfold slice_to. by destruct (0 <=? n); rewrite take_nil. Qed.

Lemma slice_to_sublist {A} (l : list A) n : sublist (slice_to l n) l.
Proof. unfold slice_to. destruct (0 <=? n); apply sublist_take. Qed.

(** ** Running the primitives *)

Lemma bind_ok {A B} (m : M A) (f : A -> M B) w a w' :
  m w = (Ok a, w') -> bind m f w = f a w'.
Proof. unfold bind. by intros ->. Qed.

Lemma run_load {A} (proj : cell -> option A) l w a :
  obj_at proj (heap w) l = Some a ->
  exists c, load l w = (Ok c, w) /\ proj c = Some a.
Proof.
  unfold obj_at, load. destruct (heap w !! l) as [c|]; [|done]. eauto.
Qed.

Lemma run_load_list l w items :
  list_at (heap w) l = Some items -> load_list l w = (Ok items, w).
Proof.
  intros H. destruct (run_load _ _ _ _ H) as (c & Hl & Hc).
  unfold load_list. rewrite (bind_ok _ _ _ _ _ Hl). destruct c; try done.
  by injection Hc as ->.
Qed.

Lemma run_load_log l w e :
  log_at (heap w) l = Some e -> load_log l w = (Ok e, w).
Proof.
  intros H. destruct (run_load _ _ _ _ H) as (c & Hl & Hc).
  unfold load_log. rewrite (bind_ok _ _ _ _ _ Hl). destruct c; try done.
  by injection Hc as ->.
Qed.

Lemma run_load_group l w g :
  group_at (heap w) l = Some g -> load_group l w = (Ok g, w).
Proof.
  intros H. destruct (run_load _ _ _ _ H) as (c & Hl & Hc).
  unfold load_group. rewrite (bind_ok _ _ _ _ _ Hl). destruct c; try done.
  by injection Hc as ->.
Qed.

Lemma run_load_req l w r :
  req_at (heap w) l = Some r -> load_req l w = (Ok r, w).
Proof.
  intros H. destruct (run_load _ _ _ _ H) as (c & Hl & Hc).
  unfold load_req. rewrite (bind_ok _ _ _ _ _ Hl). destruct c; try done.
  by injection Hc as ->.
Qed.

Lemma run_list_slice_to w xs n items :
  list_at (heap w) xs = Some items ->
  list_slice_to xs n w
  = (Ok (length (heap w)), set_heap (heap w ++ [CList (slice_to items n)]) w).
Proof.
  intros Hl. unfold list_slice_to.
  by rewrite (bind_ok _ _ _ _ _ (run_load_list _ _ _ Hl)).
Qed.

Lemma run_list_append w xs x items :
  list_at (heap w) xs = Some items ->
  list_append xs x w
  = (Ok tt, set_heap (<[xs := CList (items ++ [x])]> (heap w)) w).
Proof.
  intros Hl. unfold list_append.
  by rewrite (bind_ok _ _ _ _ _ (run_load_list _ _ _ Hl)).
Qed.

(** ** Sorting references by the timestamp of their dicts *)

Section SortDicts.
Context {A : Type} (proj : cell -> option A) (key : A -> timestamp).
Hypothesis timestamp_key_proj :
  forall w l a, obj_at proj (heap w) l = Some a ->
                timestamp_key l w = (Ok (key a), w).

Lemma run_keys w items vals :
  holds proj (heap w) items vals ->
  map_m timestamp_key items w = (Ok (map key vals), w).
Proof.
  induction 1 as [|l a items vals Hl _ IH]; [done|].
  cbn [map_m map]. rewrite (bind_ok _ _ _ _ _ (timestamp_key_proj _ _ _ Hl)).
  by rewrite (bind_ok _ _ _ _ _ IH).
Qed.

Lemma run_sort_items w reverse items vals :
  holds proj (heap w) items vals ->
  sort_items timestamp_key reverse items w
  = (Ok (sort_locs reverse (map key vals) items), w).
Proof.
  intros H. unfold sort_items. by rewrite (bind_ok _ _ _ _ _ (run_keys _ _ _ H)).
Qed.

Lemma run_sorted w reverse xs items vals :
  list_at (heap w) xs = Some items ->
  holds proj (heap w) items vals ->
  sorted xs timestamp_key reverse w
  = (Ok (length (heap w)),
     set_heap (heap w ++ [CList (sort_locs reverse (map key vals) items)]) w).
Proof.
  intros Hl H. unfold sorted.
  rewrite (bind_ok _ _ _ _ _ (run_load_list _ _ _ Hl)).
  by rewrite (bind_ok _ _ _ _ _ (run_sort_items _ reverse _ _ H)).
Qed.

Lemma run_list_sort w reverse xs items vals :
  list_at (heap w) xs = Some items ->
  holds proj (heap w) items vals ->
  list_sort xs timestamp_key reverse w
  = (Ok tt,
     set_heap (<[xs := CList (sort_locs reverse (map key vals) items)]> (heap w)) w).
Proof.
  intros Hl H. unfold list_sort.
  rewrite (bind_ok _ _ _ _ _ (run_load_list _ _ _ Hl)).
  by rewrite (bind_ok _ _ _ _ _ (run_sort_items _ reverse _ _ H)).
Qed.

Lemma sort_locs_holds h reverse items vals :
  holds proj h items vals ->
  holds proj h (sort_locs reverse (map key vals) items) (sort_on key reverse vals)
  /\ Permutation (sort_locs reverse (map key vals) items) items.
Proof.
  intros H.
  set (q := zip items vals).
  set (q' := stable_sort (key_le (fun p => key (snd p)) reverse) q).
  assert (Hz : zip (map key vals) items = map (fun p => (key (snd p), fst p)) q).
  { unfold q. clear -H. induction H; [done|]. cbn. by f_equal. }
  assert (Hi : items = map fst q).
  { unfold q. clear -H. induction H; [done|]. cbn. by f_equal. }
  assert (Hv : vals = map snd q).
  { unfold q. clear -H. induction H; [done|]. cbn. by f_equal. }
  assert (Hl : sort_locs reverse (map key vals) items = map fst q').
  { unfold sort_locs. rewrite Hz.
    rewrite <- (stable_sort_map (fun p : loc * A => (key (snd p), fst p))).
    rewrite map_map. done. }
  assert (Hs : sort_on key reverse vals = map snd q').
  { unfold sort_on. rewrite Hv at 1. by rewrite <- (stable_sort_map snd). }
  assert (Hp : Permutation q' q) by apply stable_sort_perm.
  rewrite Hl, Hs. split.
  - assert (Hq : Forall (fun p => obj_at proj h (fst p) = Some (snd p)) q).
    { unfold q. clear -H. induction H; constructor; done. }
    rewrite <- Hp in Hq. clear -Hq. unfold holds.
    induction Hq; constructor; done.
  - etrans; [apply Permutation_map, Hp|]. by rewrite <- Hi.
Qed.
End SortDicts.

Lemma timestamp_key_log w l e :
  log_at (heap w) l = Some e -> timestamp_key l w = (Ok (log_timestamp e), w).
Proof.
  intros H. destruct (run_load _ _ _ _ H) as (c & Hl & Hc).
  unfold timestamp_key. rewrite (bind_ok _ _ _ _ _ Hl). destruct c; try done.
  by injection Hc as ->.
Qed.

Lemma timestamp_key_group w l g :
  group_at (heap w) l = Some g -> timestamp_key l w = (Ok (grp_timestamp g), w).
Proof.
  intros H. destruct (run_load _ _ _ _ H) as (c & Hl & Hc).
  unfold timestamp_key. rewrite (bind_ok _ _ _ _ _ Hl). destruct c; try done.
  by injection Hc as ->.
Qed.

Lemma timestamp_key_req w l r :
  req_at (heap w) l = Some r -> timestamp_key l w = (Ok (req_timestamp r), w).
Proof.
  intros H. destruct (run_load _ _ _ _ H) as (c & Hl & Hc).
  unfold timestamp_key. rewrite (bind_ok _ _ _ _ _ Hl). destruct c; try done.
  by injection Hc as ->.
Qed.

(** An object has one kind. *)
Ltac other_kind H :=
  revert H; unfold list_at, log_at, group_at, req_at, obj_at;
  let c := fresh "c" in
  destruct (_ !! _) as [c|]; [destruct c|]; done.

Lemma store_last (h : list cell) (c c' : cell) : <[length h := c']> (h ++ [c]) = h ++ [c'].
Proof.
  rewrite insert_app_r_alt by lia. by rewrite Nat.sub_diag.
Qed.

Lemma list_at_new h items : list_at (h ++ [CList items]) (length h) = Some items.
Proof. apply (obj_at_new as_list). Qed.

Lemma set_heap_same w : set_heap (heap w) w = w.
Proof. by destruct w. Qed.

(** ** The network query returns the value-level result *)

Lemma get_network_requests_refines w n R :
  network_view w = Some R ->
  exists out ext,
    get_network_requests n w = (Ok out, set_heap (heap w ++ ext) w)
    /\ reqs_at (heap w ++ ext) out = Some (network_result R n).
Proof.
  intros Hv. apply dicts_at_Some in Hv as (items & Hl & Hnd & Hh).
  unfold get_network_requests.
  rewrite (bind_ok get_self _ w _ w eq_refl).
  rewrite (bind_ok _ _ _ _ _ (run_load_list _ _ _ Hl)).
  destruct items as [|l0 items0].
  { apply Forall2_nil_inv_l in Hh as ->.
    exists (length (heap w)), [CList []]. split; [done|].
    apply dicts_at_Some. exists []. split; [apply list_at_new|].
    split; [constructor|].
    unfold network_result, sort_on. cbn. rewrite slice_to_nil. constructor. }
  cbv beta iota.
  set (items := l0 :: items0) in *. clearbody items. clear l0 items0.
  destruct (sort_locs_holds as_req req_timestamp (heap w) true items R Hh)
    as [Hh1 Hp1].
  set (items1 := sort_locs true (map req_timestamp R) items) in *.
  set (R1 := sort_on req_timestamp true R) in *.
  pose proof (holds_slice _ _ _ _ n Hh1) as Hh2.
  destruct (sort_locs_holds as_req req_timestamp (heap w) false _ _ Hh2)
    as [Hh3 Hp3].
  set (items3 := sort_locs false (map req_timestamp (slice_to R1 n)) (slice_to items1 n)) in *.
  exists (S (length (heap w))), [CList items1; CList items3].
  split.
  - rewrite (bind_ok _ _ _ _ _
               (run_sorted as_req req_timestamp timestamp_key_req w true _ _ _ Hl Hh)).
    erewrite (bind_ok (list_slice_to _ _)); cycle 1.
    { apply run_list_slice_to. apply list_at_new. }
    erewrite (bind_ok (list_sort _ _ _)); cycle 1.
    { apply (run_list_sort as_req req_timestamp timestamp_key_req).
      - cbn. apply list_at_new.
      - cbn. rewrite <- app_assoc. apply holds_app. exact Hh2. }
    unfold ret, set_heap. cbn. rewrite store_last, <- app_assoc. cbn.
    rewrite length_app. cbn. by rewrite Nat.add_1_r.
  - apply dicts_at_Some. exists items3. split; [|split].
    + replace (S (length (heap w))) with (length (heap w ++ [CList items1])) by (rewrite length_app; cbn; lia).
      change (heap w ++ [CList items1; CList items3])
        with (heap w ++ [CList items1] ++ [CList items3]).
      rewrite app_assoc. apply list_at_new.
    + rewrite Hp3. eapply sublist_NoDup; [|apply slice_to_sublist]. by rewrite Hp1.
    + apply holds_app. exact Hh3.
Qed.

(** ** The grouping loop *)

Lemma dedup_step_start acc log :
  match acc with [] => True | g :: _ => differs log g = true end ->
  dedup_step acc log = new_group log :: acc.
Proof. destruct acc as [|g acc]; cbn; [done|]. by intros ->. Qed.

(** Starting a group: a new dict, appended to [deduplicated_logs]. *)
Lemma start_group_state w d gitems (gvals : list log_group) items Ls log :
  holds as_log (heap w) items Ls ->
  list_at (heap w) d = Some gitems ->
  holds as_group (heap w) gitems gvals ->
  NoDup gitems ->
  let g := length (heap w) in
  let h2 := <[d := CList (gitems ++ [g])]> (heap w ++ [CGroup (new_group log)]) in
  holds as_log h2 items Ls
  /\ list_at h2 d = Some (gitems ++ [g])
  /\ holds as_group h2 (gitems ++ [g]) (gvals ++ [new_group log])
  /\ NoDup (gitems ++ [g]).
Proof.
  intros Hlogs Hd Hg Hnd g h2.
  assert (Hd1 : list_at (heap w ++ [CGroup (new_group log)]) d = Some gitems)
    by (by apply obj_at_app).
  assert (Hdg : d <> g).
  { apply obj_at_lt in Hd. unfold g. lia. }
  split; [|split; [|split]].
  - apply holds_store_other; [done|other_kind Hd1|]. by apply holds_app.
  - unfold h2, list_at. by rewrite (obj_at_store_eq _ _ _ _ _ Hd1).
  - apply Forall2_app.
    + apply holds_store_other; [done|other_kind Hd1|]. by apply holds_app.
    + constructor; [|constructor]. unfold h2.
      rewrite obj_at_store_ne by done. apply (obj_at_new as_group).
  - apply NoDup_app. split; [done|]. split; [|apply NoDup_singleton].
    intros l Hin ->%list_elem_of_singleton.
    apply holds_lt in Hg. rewrite Forall_forall in Hg.
    specialize (Hg _ Hin). unfold g in Hg. lia.
Qed.

Lemma dedup_loop_spec items : forall Ls w d gitems acc,
  holds as_log (heap w) items Ls ->
  list_at (heap w) d = Some gitems ->
  holds as_group (heap w) gitems (rev acc) ->
  NoDup gitems ->
  exists h' gitems',
    dedup_loop items (last gitems) d w = (Ok tt, set_heap h' w)
    /\ list_at h' d = Some gitems'
    /\ holds as_group h' gitems' (rev (fold_left dedup_step Ls acc))
    /\ NoDup gitems'.
Proof.
  induction items as [|l items IH]; intros Ls w d gitems acc Hlogs Hd Hg Hnd.
  { apply Forall2_nil_inv_l in Hlogs as ->. exists (heap w), gitems.
    cbn. unfold ret. by rewrite set_heap_same. }
  apply Forall2_cons_inv_l in Hlogs as (log & Ls' & Hl & Hlogs & ->).
  cbn [dedup_loop fold_left].
  rewrite (bind_ok _ _ _ _ _ (run_load_log _ _ _ Hl)).
  (* what starting a group does, whatever the reason *)
  assert (Hstart :
    dedup_step acc log = new_group log :: acc ->
    exists h' gitems',
      (g <- alloc (CGroup (new_group log)) ;;
       list_append d g ;; dedup_loop items (Some g) d)%py w = (Ok tt, set_heap h' w)
      /\ list_at h' d = Some gitems'
      /\ holds as_group h' gitems' (rev (fold_left dedup_step Ls' (dedup_step acc log)))
      /\ NoDup gitems').
  { intros ->.
    destruct (start_group_state w d gitems (rev acc) items Ls' log Hlogs Hd Hg Hnd)
      as (H1 & H2 & H3 & H4).
    rewrite (bind_ok (alloc _) _ _ _ _ eq_refl).
    erewrite (bind_ok (list_append _ _)); cycle 1.
    { apply run_list_append. cbn. by apply obj_at_app. }
    cbv beta. rewrite <- (@last_snoc loc (length (heap w)) gitems).
    apply (IH Ls' (set_heap _ (set_heap _ w)) d _ (new_group log :: acc)); done. }
  destruct gitems as [|g gs _] using rev_ind.
  { apply Forall2_nil_inv_l in Hg.
    assert (acc = []) as -> by (by apply (f_equal (@rev _)) in Hg; rewrite rev_involutive in Hg).
    cbn [last]. by apply Hstart. }
  rewrite last_snoc.
  apply Forall2_app_inv_l in Hg as (vs & vg & Hgs & Hgg & Hacc).
  apply Forall2_cons_inv_l in Hgg as (cg & ? & Hcg & ->%Forall2_nil_inv_l & ->).
  assert (acc = cg :: rev vs) as ->.
  { apply (f_equal (@rev _)) in Hacc. rewrite rev_involutive in Hacc.
    by rewrite Hacc, rev_app_distr. }
  rewrite (bind_ok _ _ _ _ _ (run_load_group _ _ _ Hcg)).
  destruct (differs log cg) eqn:Hdiff.
  { apply Hstart. cbn. by rewrite Hdiff. }
  rewrite (bind_ok (store _ _) _ _ _ _ eq_refl).
  cbn [dedup_step]. rewrite Hdiff.
  cbv beta. rewrite <- (@last_snoc loc g gs).
  apply (IH Ls' (set_heap _ w) d (gs ++ [g]) (repeat_group cg log :: rev vs)).
  - cbn. apply holds_store_other; [done|other_kind Hcg|done].
  - cbn. unfold list_at. rewrite obj_at_store_other; [done|done|other_kind Hcg].
  - cbn. rewrite rev_involutive. apply Forall2_app.
    + apply NoDup_app in Hnd as (_ & Hnotin & _).
      apply holds_store_notin; [|done].
      intros Hin. eapply Hnotin; [done|]. by apply list_elem_of_singleton.
    + constructor; [|constructor]. by rewrite (obj_at_store_eq _ _ _ _ _ Hcg).
  - done.
Qed.

(** ** The console query returns the value-level result *)

Lemma get_console_logs_refines w n L :
  console_view w = Some L ->
  exists out w',
    get_console_logs n w = (Ok out, w')
    /\ groups_at (heap w') out = Some (console_result L n).
Proof.
  intros Hv. apply dicts_at_Some in Hv as (items & Hl & Hnd & Hh).
  unfold get_console_logs.
  rewrite (bind_ok get_self _ w _ w eq_refl).
  rewrite (bind_ok _ _ _ _ _ (run_load_list _ _ _ Hl)).
  destruct items as [|l0 items0].
  { apply Forall2_nil_inv_l in Hh as ->.
    exists (length (heap w)), (set_heap (heap w ++ [CList []]) w). split; [done|].
    apply dicts_at_Some. exists []. split; [apply list_at_new|].
    split; [constructor|].
    unfold console_result, sort_on. cbn. rewrite slice_to_nil. constructor. }
  cbv beta iota.
  set (items := l0 :: items0) in *. clearbody items. clear l0 items0.
  rewrite (bind_ok (alloc _) _ _ _ _ eq_refl).
  set (d := length (heap w)).
  set (w1 := set_heap (heap w ++ [CList []]) w).
  assert (Hl1 : list_at (heap w1) (console_logs (self w)) = Some items)
    by (by apply obj_at_app).
  assert (Hh1 : holds as_log (heap w1) items L) by (by apply holds_app).
  rewrite (bind_ok _ _ _ _ _
             (run_sorted as_log log_timestamp timestamp_key_log w1 false _ _ _ Hl1 Hh1)).
  destruct (sort_locs_holds as_log log_timestamp (heap w1) false items L Hh1)
    as [Hs _].
  set (sorted_items := sort_locs false (map log_timestamp L) items) in *.
  set (w2 := set_heap (heap w1 ++ [CList sorted_items]) w1).
  erewrite (bind_ok (load_list _)); cycle 1.
  { apply run_load_list. apply list_at_new. }
  destruct (dedup_loop_spec sorted_items (sort_on log_timestamp false L) w2 d [] [])
    as (h3 & gitems & Hrun & Hd3 & Hg3 & Hnd3).
  { cbn. by apply holds_app. }
  { cbn. apply obj_at_app. apply list_at_new. }
  { constructor. }
  { constructor. }
  cbn [last] in Hrun. rewrite (bind_ok _ _ _ _ _ Hrun).
  fold (deduplicate (sort_on log_timestamp false L)) in Hg3.
  set (G := deduplicate (sort_on log_timestamp false L)) in *.
  erewrite (bind_ok (list_sort _ _ _)); cycle 1.
  { apply (run_list_sort as_group grp_timestamp timestamp_key_group); cbn; eassumption. }
  destruct (sort_locs_holds as_group grp_timestamp h3 true gitems G Hg3) as [Hs4 Hp4].
  set (gitems4 := sort_locs true (map grp_timestamp G) gitems) in *.
  set (h4 := <[d := CList gitems4]> h3).
  assert (Hd4 : list_at h4 d = Some gitems4).
  { unfold h4, list_at. by rewrite (obj_at_store_eq _ _ _ _ _ Hd3). }
  assert (Hg4 : holds as_group h4 gitems4 (sort_on grp_timestamp true G)).
  { apply holds_store_other; [done|other_kind Hd3|done]. }
  erewrite (bind_ok (list_slice_to _ _)); cycle 1.
  { apply run_list_slice_to. cbn. exact Hd4. }
  pose proof (holds_slice _ _ _ _ n Hg4) as Hg5.
  destruct (sort_locs_holds as_group grp_timestamp h4 false _ _ Hg5) as [Hs6 Hp6].
  erewrite (bind_ok (list_sort _ _ _)); cycle 1.
  { apply (run_list_sort as_group grp_timestamp timestamp_key_group).
    - cbn. apply list_at_new.
    - cbn. apply holds_app. exact Hg5. }
  eexists _, _. split; [reflexivity|].
  cbn. fold h4. rewrite store_last.
  apply dicts_at_Some. eexists. split; [apply list_at_new|]. split.
  - rewrite Hp6. eapply sublist_NoDup; [|apply slice_to_sublist]. by rewrite Hp4.
  - apply holds_app. exact Hs6.
Qed.

(** ** Windows on values *)

Lemma key_le_ascending {A} (key : A -> timestamp) (l : list A) :
  StronglySorted (fun a b => key_le key false a b = true) l <-> ascending key l.
Proof.
  unfold ascending, key_le.
  split; induction 1 as [|a l Hs IH Ha]; constructor; try done;
    (eapply Forall_impl; [exact Ha|]); intros b Hb; cbn in *; lia.
Qed.

Lemma sort_on_ascending {A} (key : A -> timestamp) (l : list A) :
  ascending key (sort_on key false l).
Proof. apply key_le_ascending, sort_on_sorted. Qed.

Lemma sort_on_ascending_id {A} (key : A -> timestamp) (l : list A) :
  ascending key l -> sort_on key false l = l.
Proof. intros H. by apply sort_on_id, key_le_ascending. Qed.

Lemma slice_to_positive {A} (l : list A) n :
  0 <= n -> slice_to l n = take (Z.to_nat n) l.
Proof. intros H. unfold slice_to. destruct (Z.leb_spec 0 n); [done|lia]. Qed.

Lemma slice_to_negative {A} (l : list A) n :
  n < 0 -> slice_to l n = take (Z.to_nat (Z.of_nat (length l) + n)) l.
Proof. intros H. unfold slice_to. destruct (Z.leb_spec 0 n); [lia|done]. Qed.

Lemma slice_to_all {A} (l : list A) n :
  Z.of_nat (length l) <= n -> slice_to l n = l.
Proof. intros H. rewrite slice_to_positive by lia. apply take_ge. lia. Qed.

(** The window keeps the entries with the greatest timestamps. *)
Lemma window_most_recent {A} (key : A -> timestamp) (l : list A) n :
  0 < n ->
  let res := sort_on key false (slice_to (sort_on key true l) n) in
  exists rest,
    length res = Nat.min (Z.to_nat n) (length l)
    /\ Permutation l (rest ++ res)
    /\ (forall x y, In x res -> In y rest -> key y <= key x)
    /\ ascending key res.
Proof.
  intros Hn res. unfold res. clear res.
  rewrite slice_to_positive by lia.
  set (d := sort_on key true l). set (m := Z.to_nat n).
  exists (drop m d). split; [|split; [|split]].
  - rewrite sort_on_length, length_take. unfold d. by rewrite sort_on_length.
  - rewrite sort_on_perm, Permutation_app_comm, take_drop. unfold d.
    by rewrite sort_on_perm.
  - intros x y Hx Hy.
    rewrite <- list_elem_of_In, sort_on_perm in Hx. rewrite <- list_elem_of_In in Hy.
    pose proof (sort_on_sorted key true l) as Hs. fold d in Hs.
    rewrite <- (take_drop m d) in Hs.
    pose proof (StronglySorted_app_1_elem_of _ _ _ _ _ Hs Hx Hy) as Hxy.
    unfold key_le in Hxy. cbn in Hxy. lia.
  - apply sort_on_ascending.
Qed.

Lemma window_all {A} (key : A -> timestamp) (l : list A) n :
  Z.of_nat (length l) <= n ->
  sort_on key false (slice_to (sort_on key true l) n) = sort_on key false l.
Proof.
  intros H. rewrite slice_to_all by (by rewrite sort_on_length).
  apply sort_on_ascending_of_descending.
Qed.

(** ** Groups come out in timestamp order *)

Lemma descending_rev {A} (key : A -> timestamp) (l : list A) :
  StronglySorted (fun a b => key b <= key a) l -> ascending key (rev l).
Proof.
  unfold ascending. induction 1 as [|a l Hs IH Ha]; cbn; [constructor|].
  apply StronglySorted_app. split; [|split]; [|done|repeat constructor].
  intros x y Hx ->%list_elem_of_singleton.
  rewrite Forall_forall in Ha. apply Ha.
  apply list_elem_of_In in Hx. apply in_rev in Hx. by apply list_elem_of_In.
Qed.

Lemma dedup_fold_ascending logs : forall acc,
  ascending log_timestamp logs ->
  StronglySorted (fun a b => grp_timestamp b <= grp_timestamp a) acc ->
  (forall g e, In g acc -> In e logs -> grp_timestamp g <= log_timestamp e) ->
  ascending grp_timestamp (rev (fold_left dedup_step logs acc)).
Proof.
  induction logs as [|e logs IH]; intros acc Hlogs Hacc Hle; cbn [fold_left].
  { by apply descending_rev. }
  apply StronglySorted_inv in Hlogs as [Hlogs He].
  rewrite Forall_forall in He.
  assert (Hnew : forall g, In g acc -> grp_timestamp g <= log_timestamp e)
    by (intros g Hg; apply Hle; [done|by left]).
  apply IH; [done| |].
  - destruct acc as [|g acc]; cbn.
    { repeat constructor. }
    destruct (differs e g).
    + constructor; [done|]. apply Forall_forall. intros b Hb. cbn.
      apply Hnew. by apply list_elem_of_In.
    + apply StronglySorted_inv in Hacc as [Hacc Hg]. by constructor.
  - intros g e' Hg He'.
    assert (Hee' : log_timestamp e <= log_timestamp e')
      by (apply He; by apply list_elem_of_In).
    assert (Hold : forall g', In g' acc -> grp_timestamp g' <= log_timestamp e')
      by (intros g' Hin; apply Hle; [done|by right]).
    destruct acc as [|g0 acc]; cbn in Hg.
    { destruct Hg as [<-|[]]. done. }
    destruct (differs e g0); cbn in Hg.
    + destruct Hg as [<-|Hg]; [done|]. by apply Hold.
    + destruct Hg as [<-|Hg]; [|apply Hold; by right].
      cbn. apply Hold. by left.
Qed.

Lemma deduplicate_ascending logs :
  ascending log_timestamp logs -> ascending grp_timestamp (deduplicate logs).
Proof.
  intros H. apply dedup_fold_ascending; [done|constructor|]. by intros g e [].
Qed.

(** With a window that covers every group, the query returns the groups. *)
Lemma console_result_all L n :
  let groups := deduplicate (sort_on log_timestamp false L) in
  Z.of_nat (length groups) <= n -> console_result L n = groups.
Proof.
  intros groups H. unfold console_result. fold groups.
  rewrite window_all by done.
  apply sort_on_ascending_id, deduplicate_ascending, sort_on_ascending.
Qed.

(** ** Windows on a log with distinct, increasing timestamps *)

Lemma increasing_ascending {A} (key : A -> timestamp) (l : list A) :
  increasing key l -> ascending key l.
Proof.
  unfold increasing, ascending.
  induction 1 as [|a l Hs IH Ha]; constructor; [done|].
  eapply Forall_impl; [exact Ha|]. intros b Hb. cbn in *. lia.
Qed.

Lemma increasing_key_inj {A} (key : A -> timestamp) (l : list A) x y :
  increasing key l -> x ∈ l -> y ∈ l -> key x = key y -> x = y.
Proof.
  unfold increasing.
  induction 1 as [|a l Hs IH Ha]; intros Hx Hy Hk; [by inv Hx|].
  rewrite Forall_forall in Ha.
  inv Hx; inv Hy; try done.
  - match goal with H : y ∈ l |- _ => specialize (Ha _ H) end. lia.
  - match goal with H : x ∈ l |- _ => specialize (Ha _ H) end. lia.
  - by apply IH.
Qed.

Lemma increasing_drop {A} (key : A -> timestamp) (l : list A) k :
  increasing key l -> increasing key (drop k l).
Proof.
  unfold increasing. intros H. rewrite <- (take_drop k l) in H.
  by apply StronglySorted_app_1_r in H.
Qed.

(** The one arrangement of distinct keys in a given order. *)
Lemma sort_on_unique {A} (key : A -> timestamp) reverse (l l' : list A) :
  Permutation l l' ->
  StronglySorted (fun a b => key_le key reverse a b = true) l' ->
  (forall x y, x ∈ l' -> y ∈ l' -> key x = key y -> x = y) ->
  sort_on key reverse l = l'.
Proof.
  intros Hp Hs Hinj.
  apply (StronglySorted_unique_strong (fun a b => key_le key reverse a b = true));
    [|apply sort_on_sorted|done|by rewrite sort_on_perm].
  intros x y Hx Hy Hxy Hyx. apply Hinj; [|done|].
  - by rewrite <- Hp, <- (sort_on_perm key reverse l).
  - unfold key_le in *. destruct reverse; lia.
Qed.

Lemma increasing_rev_descending {A} (key : A -> timestamp) (l : list A) :
  increasing key l ->
  StronglySorted (fun a b => key_le key true a b = true) (rev l).
Proof.
  unfold increasing. induction 1 as [|a l Hs IH Ha]; cbn; [constructor|].
  apply StronglySorted_app. split; [|split]; [|done|repeat constructor].
  intros x y Hx ->%list_elem_of_singleton.
  rewrite Forall_forall in Ha. unfold key_le.
  apply list_elem_of_In in Hx. apply in_rev in Hx. apply list_elem_of_In in Hx.
  specialize (Ha _ Hx). cbn in Ha. lia.
Qed.

(** On such a log the window is the end of the log, in stored order. *)
Lemma window_suffix {A} (key : A -> timestamp) (l : list A) n :
  0 < n -> increasing key l ->
  sort_on key false (slice_to (sort_on key true l) n)
  = drop (length l - Z.to_nat n) l.
Proof.
  intros Hn Hl.
  assert (Hrev : forall x, x ∈ rev l <-> x ∈ l).
  { intros x. rewrite !list_elem_of_In. symmetry. apply in_rev. }
  assert (Hd : sort_on key true l = rev l).
  { apply sort_on_unique.
    - apply Permutation_rev.
    - by apply increasing_rev_descending.
    - intros x y Hx%Hrev Hy%Hrev. by apply increasing_key_inj with (l := l). }
  rewrite Hd, slice_to_positive by lia.
  change (take (Z.to_nat n) (rev l)) with (firstn (Z.to_nat n) (rev l)).
  rewrite firstn_rev.
  set (t := skipn (length l - Z.to_nat n) l).
  assert (Ht : increasing key t) by (by apply increasing_drop).
  apply sort_on_unique.
  - symmetry. apply Permutation_rev.
  - by apply key_le_ascending, increasing_ascending.
  - intros x y Hx Hy. by apply increasing_key_inj with (l := t).
Qed.

(** ** What an operation leaves alone *)

Lemma preserves_refl n0 w : preserves n0 w w.
Proof. by repeat split. Qed.

Lemma preserves_trans n0 w1 w2 w3 :
  preserves n0 w1 w2 -> preserves n0 w2 w3 -> preserves n0 w1 w3.
Proof.
  intros (?&?&?&?&?) (?&?&?&?&?). repeat split; try congruence. lia.
Qed.

Section Keeps.
Variable n0 : nat.

Lemma keeps_ret {A} (a : A) (Q : A -> Prop) : Q a -> keeps n0 (ret a) Q.
Proof.
  intros Ha w _. split; [apply preserves_refl|]. cbn. by intros ? [= <-].
Qed.

Lemma keeps_raise {A} e (Q : A -> Prop) : keeps n0 (raise e) Q.
Proof. intros w _. split; [apply preserves_refl|]. done. Qed.

Lemma keeps_bind {A B} (m : M A) (f : A -> M B) (Q : A -> Prop) (Q' : B -> Prop) :
  keeps n0 m Q -> (forall a, Q a -> keeps n0 (f a) Q') -> keeps n0 (bind m f) Q'.
Proof.
  intros Hm Hf w Hw. destruct (Hm w Hw) as [Hp Hq]. unfold bind.
  destruct (m w) as [[a|e] w1] eqn:E; cbn in *; [|done].
  assert (Hw1 : (n0 <= length (heap w1))%nat) by (destruct Hp as (?&?&?&?&?); lia).
  destruct (Hf a (Hq a eq_refl) w1 Hw1) as [Hp' Hq'].
  split; [by eapply preserves_trans|done].
Qed.

Lemma keeps_weaken {A} (m : M A) (Q Q' : A -> Prop) :
  keeps n0 m Q -> (forall a, Q a -> Q' a) -> keeps n0 m Q'.
Proof. intros Hm HQ w Hw. destruct (Hm w Hw). split; [done|]. eauto. Qed.

Lemma keeps_get_self : keeps n0 get_self (fun _ => True).
Proof. intros w _. split; [apply preserves_refl|done]. Qed.

Lemma keeps_load l : keeps n0 (load l) (fun _ => True).
Proof.
  intros w _. unfold load. destruct (heap w !! l);
    (split; [apply preserves_refl|done]).
Qed.

Lemma keeps_alloc c : keeps n0 (alloc c) (fun l => (n0 <= l)%nat).
Proof.
  intros w Hw. split; cbn.
  - repeat split; try done.
    + cbn. by rewrite take_app_le.
    + cbn. rewrite length_app. lia.
  - by intros ? [= <-].
Qed.

Lemma keeps_store l c : (n0 <= l)%nat -> keeps n0 (store l c) (fun _ => True).
Proof.
  intros Hl w Hw. split; [|done]. cbn. repeat split; try done.
  - cbn. by apply take_insert_ge.
  - cbn. by rewrite length_insert.
Qed.

Lemma keeps_load_list l : keeps n0 (load_list l) (fun _ => True).
Proof.
  eapply keeps_bind; [apply keeps_load|]. intros [] _;
    (apply keeps_ret || apply keeps_raise); done.
Qed.

Lemma keeps_load_log l : keeps n0 (load_log l) (fun _ => True).
Proof.
  eapply keeps_bind; [apply keeps_load|]. intros [] _;
    (apply keeps_ret || apply keeps_raise); done.
Qed.

Lemma keeps_load_group l : keeps n0 (load_group l) (fun _ => True).
Proof.
  eapply keeps_bind; [apply keeps_load|]. intros [] _;
    (apply keeps_ret || apply keeps_raise); done.
Qed.

Lemma keeps_timestamp_key l : keeps n0 (timestamp_key l) (fun _ => True).
Proof.
  eapply keeps_bind; [apply keeps_load|]. intros [] _;
    (apply keeps_ret || apply keeps_raise); done.
Qed.

Lemma keeps_map_m {A B} (f : A -> M B) (l : list A) :
  (forall x, keeps n0 (f x) (fun _ => True)) ->
  keeps n0 (map_m f l) (fun _ => True).
Proof.
  intros Hf. induction l as [|x l IH]; cbn; [by apply keeps_ret|].
  eapply keeps_bind; [apply Hf|]. intros y _.
  eapply keeps_bind; [apply IH|]. intros ys _. by apply keeps_ret.
Qed.

Lemma keeps_sort_items reverse items :
  keeps n0 (sort_items timestamp_key reverse items) (fun _ => True).
Proof.
  eapply keeps_bind; [apply keeps_map_m, keeps_timestamp_key|].
  intros keys _. by apply keeps_ret.
Qed.

Lemma keeps_sorted xs reverse :
  keeps n0 (sorted xs timestamp_key reverse) (fun l => (n0 <= l)%nat).
Proof.
  eapply keeps_bind; [apply keeps_load_list|]. intros items _.
  eapply keeps_bind; [apply keeps_sort_items|]. intros r _.
  apply keeps_alloc.
Qed.

Lemma keeps_list_sort xs reverse :
  (n0 <= xs)%nat -> keeps n0 (list_sort xs timestamp_key reverse) (fun _ => True).
Proof.
  intros Hxs.
  eapply keeps_bind; [apply keeps_load_list|]. intros items _.
  eapply keeps_bind; [apply keeps_sort_items|]. intros r _.
  by apply keeps_store.
Qed.

Lemma keeps_list_slice_to xs n :
  keeps n0 (list_slice_to xs n) (fun l => (n0 <= l)%nat).
Proof.
  eapply keeps_bind; [apply keeps_load_list|]. intros items _.
  apply keeps_alloc.
Qed.

Lemma keeps_list_append xs x :
  (n0 <= xs)%nat -> keeps n0 (list_append xs x) (fun _ => True).
Proof.
  intros Hxs.
  eapply keeps_bind; [apply keeps_load_list|]. intros items _.
  by apply keeps_store.
Qed.

(** The loop writes to [deduplicated_logs] and to the current group, both
    built by the running call. *)
Lemma keeps_dedup_loop items : forall current_group d,
  (n0 <= d)%nat ->
  (forall g, current_group = Some g -> (n0 <= g)%nat) ->
  keeps n0 (dedup_loop items current_group d) (fun _ => True).
Proof.
  induction items as [|l items IH]; intros cg d Hd Hcg; cbn [dedup_loop].
  { by apply keeps_ret. }
  eapply keeps_bind; [apply keeps_load_log|]. intros log _.
  assert (Hstart :
    keeps n0 (g <- alloc (CGroup (new_group log)) ;;
              list_append d g ;; dedup_loop items (Some g) d)%py (fun _ => True)).
  { eapply keeps_bind; [apply keeps_alloc|]. intros g Hg.
    eapply keeps_bind; [by apply keeps_list_append|]. intros _ _.
    apply IH; [done|]. by intros ? [= <-]. }
  destruct cg as [g|]; [|done].
  eapply keeps_bind; [apply keeps_load_group|]. intros cg _.
  destruct (differs log cg); [done|].
  eapply keeps_bind; [apply keeps_store; by apply Hcg|]. intros _ _.
  by apply IH.
Qed.

Lemma keeps_get_console_logs n :
  keeps n0 (get_console_logs n) (fun _ => True).
Proof.
  eapply keeps_bind; [apply keeps_get_self|]. intros s _.
  eapply keeps_bind; [apply keeps_load_list|]. intros [|l0 console] _.
  { eapply keeps_weaken; [apply keeps_alloc|done]. }
  eapply keeps_bind; [apply keeps_alloc|]. intros d Hd.
  eapply keeps_bind; [apply keeps_sorted|]. intros sorted_logs _.
  eapply keeps_bind; [apply keeps_load_list|]. intros logs _.
  eapply keeps_bind; [by apply keeps_dedup_loop|]. intros _ _.
  eapply keeps_bind; [by apply keeps_list_sort|]. intros _ _.
  eapply keeps_bind; [apply keeps_list_slice_to|]. intros d2 Hd2.
  eapply keeps_bind; [by apply keeps_list_sort|]. intros _ _.
  by apply keeps_ret.
Qed.

Lemma keeps_get_network_requests n :
  keeps n0 (get_network_requests n) (fun _ => True).
Proof.
  eapply keeps_bind; [apply keeps_get_self|]. intros s _.
  eapply keeps_bind; [apply keeps_load_list|]. intros [|l0 requests] _.
  { eapply keeps_weaken; [apply keeps_alloc|done]. }
  eapply keeps_bind; [apply keeps_sorted|]. intros sorted_requests _.
  eapply keeps_bind; [apply keeps_list_slice_to|]. intros limited Hl.
  eapply keeps_bind; [by apply keeps_list_sort|]. intros _ _.
  by apply keeps_ret.
Qed.
End Keeps.

(** An operation that keeps every existing object only extends the store. *)
Lemma keeps_extends {A} (m : M A) (Q : A -> Prop) w :
  keeps (length (heap w)) m Q ->
  exists ext, snd (m w) = set_heap (heap w ++ ext) w.
Proof.
  intros Hm. destruct (Hm w) as [(Hs & Hl & Hc & Ht & Hn) _]; [done|].
  exists (drop (length (heap w)) (heap (snd (m w)))).
  rewrite (take_ge (heap w)) in Ht by done.
  rewrite <- Ht at 1. rewrite take_drop.
  destruct (snd (m w)); cbn in *. unfold set_heap. cbn. congruence.
Qed.

Lemma console_view_extends w ext L :
  console_view w = Some L -> console_view (set_heap (heap w ++ ext) w) = Some L.
Proof.
  intros (items & Hl & Hnd & Hh)%dicts_at_Some. apply dicts_at_Some.
  exists items. split; [by apply obj_at_app|]. split; [done|by apply holds_app].
Qed.

Lemma network_view_extends w ext R :
  network_view w = Some R -> network_view (set_heap (heap w ++ ext) w) = Some R.
Proof.
  intros (items & Hl & Hnd & Hh)%dicts_at_Some. apply dicts_at_Some.
  exists items. split; [by apply obj_at_app|]. split; [done|by apply holds_app].
Qed.

(** ** Responses *)

Lemma awaits_response_spec r e :
  awaits_response r e = true <-> req_url e = rs_url r /\ req_response e = None.
Proof.
  unfold awaits_response. rewrite andb_true_iff, String.eqb_eq.
  destruct (req_response e); intuition congruence.
Qed.

Lemma awaits_response_false r e :
  awaits_response r e = false <-> ~ (req_url e = rs_url r /\ req_response e = None).
Proof. rewrite <- awaits_response_spec. by destruct (awaits_response r e). Qed.

Lemma attach_length r now R : length (attach r now R) = length R.
Proof.
  induction R as [|e R IH]; cbn; [done|].
  destruct (awaits_response r e); cbn; by rewrite ?IH.
Qed.

Lemma attach_first r now pre e post :
  Forall (fun x => awaits_response r x = false) pre ->
  awaits_response r e = true ->
  attach r now (pre ++ e :: post)
  = pre ++ with_response e (response_dict r now) :: post.
Proof.
  intros Hpre He. induction Hpre as [|x pre Hx _ IH]; cbn.
  - by rewrite He.
  - by rewrite Hx, IH.
Qed.

Lemma attach_none r now R :
  Forall (fun x => awaits_response r x = false) R -> attach r now R = R.
Proof.
  induction 1 as [|x R Hx _ IH]; cbn; [done|]. by rewrite Hx, IH.
Qed.

Lemma attach_keeps_responded r now R : forall (i : nat) x,
  R !! i = Some x -> req_response x <> None -> attach r now R !! i = Some x.
Proof.
  induction R as [|e R IH]; intros i x Hi Hx; [done|]. cbn.
  destruct (awaits_response r e) eqn:He.
  - destruct i as [|i]; [|done]. cbn in Hi. injection Hi as ->.
    apply awaits_response_spec in He as [_ He]. done.
  - destruct i as [|i]; [done|]. cbn in *. by apply IH.
Qed.

(** A response that no exchange awaits leaves the store as it is. *)
Lemma handle_response_loop_none r now items : forall vals w,
  holds as_req (heap w) items vals ->
  Forall (fun x => awaits_response r x = false) vals ->
  _handle_response_loop r now items w = (Ok tt, w).
Proof.
  induction items as [|l items IH]; intros vals w Hh Hnone; [done|].
  apply Forall2_cons_inv_l in Hh as (e & vals' & Hl & Hh & ->).
  apply Forall_cons in Hnone as [He Hnone].
  cbn [_handle_response_loop].
  rewrite (bind_ok _ _ _ _ _ (run_load_req _ _ _ Hl)), He. by eapply IH.
Qed.

Lemma handle_response_loop_spec r now items : forall vals w,
  holds as_req (heap w) items vals -> NoDup items ->
  exists h',
    _handle_response_loop r now items w = (Ok tt, set_heap h' w)
    /\ holds as_req h' items (attach r now vals)
    /\ (forall l, l ∉ items -> h' !! l = heap w !! l)
    /\ (forall l, list_at h' l = list_at (heap w) l)
    /\ (forall l, log_at h' l = log_at (heap w) l).
Proof.
  induction items as [|l items IH]; intros vals w Hh Hnd.
  { apply Forall2_nil_inv_l in Hh as ->. exists (heap w).
    cbn. unfold ret. rewrite set_heap_same. repeat split. constructor. }
  apply Forall2_cons_inv_l in Hh as (e & vals' & Hl & Hh & ->).
  apply NoDup_cons in Hnd as [Hnotin Hnd].
  cbn [_handle_response_loop attach].
  rewrite (bind_ok _ _ _ _ _ (run_load_req _ _ _ Hl)).
  destruct (awaits_response r e).
  - eexists. split; [reflexivity|]. split; [|split; [|split]].
    + constructor.
      * by rewrite (obj_at_store_eq _ _ _ _ _ Hl).
      * by apply holds_store_notin.
    + intros l' Hl'. apply list_lookup_insert_ne. intros ->. apply Hl'. by left.
    + intros l'. unfold list_at. apply obj_at_store_other; [done|other_kind Hl].
    + intros l'. unfold log_at. apply obj_at_store_other; [done|other_kind Hl].
  - destruct (IH vals' w Hh Hnd) as (h' & Hrun & Hh' & Hother & Hlist & Hlog).
    exists h'. split; [done|]. split; [|split; [|done]].
    + constructor; [|done]. unfold obj_at in *. by rewrite Hother.
    + intros l' Hl'. apply Hother. intros Hin. apply Hl'. by right.
Qed.

Lemma handle_response_refines r now w R :
  network_view w = Some R ->
  exists h',
    _handle_response r now w = (Ok tt, set_heap h' w)
    /\ network_view (set_heap h' w) = Some (attach r now R)
    /\ (forall l, log_at h' l = log_at (heap w) l)
    /\ (forall l, l <> network_requests (self w) -> list_at h' l = list_at (heap w) l).
Proof.
  intros (items & Hl & Hnd & Hh)%dicts_at_Some.
  destruct (handle_response_loop_spec r now items R w Hh Hnd)
    as (h' & Hrun & Hh' & _ & Hlist & Hlog).
  exists h'. unfold _handle_response.
  rewrite (bind_ok get_self _ w _ w eq_refl).
  rewrite (bind_ok _ _ _ _ _ (run_load_list _ _ _ Hl)).
  split; [done|]. split; [|split; [done|]].
  - apply dicts_at_Some. exists items. cbn. by rewrite Hlist.
  - intros l _. apply Hlist.
Qed.

(** ** Appending a new object to a list *)

Section Append.
Context {A : Type} (proj : cell -> option A).
Hypothesis proj_list : forall items, proj (CList items) = None.

Lemma append_new h d items vals c v :
  proj c = Some v ->
  list_at h d = Some items ->
  holds proj h items vals ->
  NoDup items ->
  let h2 := <[d := CList (items ++ [length h])]> (h ++ [c]) in
  list_at h2 d = Some (items ++ [length h])
  /\ holds proj h2 (items ++ [length h]) (vals ++ [v])
  /\ NoDup (items ++ [length h]).
Proof.
  intros Hc Hd Hh Hnd h2.
  assert (Hd1 : list_at (h ++ [c]) d = Some items) by (by apply obj_at_app).
  assert (Hdg : d <> length h) by (apply obj_at_lt in Hd; lia).
  split; [|split].
  - unfold h2, list_at. by rewrite (obj_at_store_eq _ _ _ _ _ Hd1).
  - apply Forall2_app.
    + apply holds_store_other; [done|other_kind Hd1|]. by apply holds_app.
    + constructor; [|constructor]. unfold h2.
      rewrite obj_at_store_ne by done. by rewrite obj_at_new.
  - apply NoDup_app. split; [done|]. split; [|apply NoDup_singleton].
    intros l Hin ->%list_elem_of_singleton.
    apply holds_lt in Hh. rewrite Forall_forall in Hh.
    specialize (Hh _ Hin). lia.
Qed.

(** Dicts in other lists are not concerned. *)
Lemma append_new_other h d (items' : list loc) c items vals :
  list_at h d = Some items' ->
  holds proj h items vals ->
  holds proj (<[d := CList (items' ++ [length h])]> (h ++ [c])) items vals.
Proof.
  intros Hd Hh.
  assert (Hd1 : list_at (h ++ [c]) d = Some items') by (by apply obj_at_app).
  apply holds_store_other; [done|other_kind Hd1|]. by apply holds_app.
Qed.
End Append.

Lemma append_new_other_list h d (items' : list loc) c l items :
  l <> d -> list_at h l = Some items ->
  list_at (<[d := CList (items' ++ [length h])]> (h ++ [c])) l = Some items.
Proof.
  intros Hne Hl. unfold list_at. rewrite obj_at_store_ne by done.
  by apply obj_at_app.
Qed.

(** ** Handlers on the two logs *)

Lemma run_handler_refines h e now w L R :
  console_view w = Some L -> network_view w = Some R ->
  console_logs (self w) <> network_requests (self w) ->
  exists h',
    snd (run_handler h e now w) = set_heap h' w
    /\ console_view (set_heap h' w) = Some (fst (apply_handler h e now (L, R)))
    /\ network_view (set_heap h' w) = Some (snd (apply_handler h e now (L, R))).
Proof.
  intros HL HR Hne.
  assert (Hsame : exists h',
    w = set_heap h' w
    /\ console_view (set_heap h' w) = Some L
    /\ network_view (set_heap h' w) = Some R).
  { exists (heap w). by rewrite set_heap_same. }
  pose proof HL as (citems & Hc & Hcnd & Hch)%dicts_at_Some.
  pose proof HR as (nitems & Hn & Hnnd & Hnh)%dicts_at_Some.
  destruct h, e as [m|r|r]; cbn [run_handler apply_handler fst snd];
    try exact Hsame.
  - (* a console message *)
    unfold _handle_console_message.
    rewrite (bind_ok get_self _ w _ w eq_refl).
    rewrite (bind_ok (alloc _) _ _ _ _ eq_refl).
    erewrite run_list_append by (cbn; by apply obj_at_app).
    eexists. split; [reflexivity|]. cbn [snd set_heap heap self].
    destruct (append_new as_log (fun _ => eq_refl) (heap w) _ citems L
                (CLog (LogEntry (msg_type m) (msg_text m) (msg_location m) now)) _
                eq_refl Hc Hch Hcnd) as (H1 & H2 & H3).
    split; apply dicts_at_Some.
    + eexists. split; [exact H1|]. split; [exact H3|exact H2].
    + exists nitems. split; [by apply append_new_other_list|]. split; [done|].
      by apply append_new_other.
  - (* a request *)
    unfold _handle_request.
    rewrite (bind_ok get_self _ w _ w eq_refl).
    rewrite (bind_ok (alloc _) _ _ _ _ eq_refl).
    erewrite run_list_append by (cbn; by apply obj_at_app).
    eexists. split; [reflexivity|]. cbn [snd set_heap heap self].
    destruct (append_new as_req (fun _ => eq_refl) (heap w) _ nitems R
                (CReq (RequestEntry (rq_url r) (rq_method r) (rq_headers r) now
                                    (rq_resource_type r) (rq_id r) None)) _
                eq_refl Hn Hnh Hnnd) as (H1 & H2 & H3).
    split; apply dicts_at_Some.
    + exists citems. split; [by apply append_new_other_list|]. split; [done|].
      by apply append_new_other.
    + eexists. split; [exact H1|]. split; [exact H3|exact H2].
  - (* a response *)
    destruct (handle_response_refines r now w R HR) as (h' & Hrun & HR' & Hlog & Hlist).
    exists h'. rewrite Hrun. split; [done|]. split; [|done].
    apply dicts_at_Some. exists citems. cbn.
    rewrite Hlist by done. split; [done|]. split; [done|].
    eapply Forall2_impl; [exact Hch|]. intros l a Hl.
    specialize (Hlog l). unfold log_at in Hlog. by rewrite Hlog.
Qed.

Lemma emit_refines d w L R :
  console_view w = Some L -> network_view w = Some R ->
  console_logs (self w) <> network_requests (self w) ->
  exists h',
    emit d w = set_heap h' w
    /\ console_view (set_heap h' w) = Some (fst (captured (listeners w) d (L, R)))
    /\ network_view (set_heap h' w) = Some (snd (captured (listeners w) d (L, R))).
Proof.
  unfold emit, captured.
  generalize (List.filter (listens d) (listeners w)). intros ls.
  revert w L R. induction ls as [|l ls IH]; intros w L R HL HR Hne.
  { exists (heap w). by rewrite set_heap_same. }
  cbn [fold_left].
  destruct (run_handler_refines (snd l) (dl_event d) (dl_now d) w L R HL HR Hne)
    as (h1 & E1 & HL1 & HR1).
  rewrite E1.
  destruct (apply_handler (snd l) (dl_event d) (dl_now d) (L, R)) as [L1 R1].
  destruct (IH (set_heap h1 w) L1 R1 HL1 HR1 Hne) as (h' & E & HL' & HR').
  exists h'. by rewrite E.
Qed.

Lemma emit_all_refines ds : forall w L R,
  console_view w = Some L -> network_view w = Some R ->
  console_logs (self w) <> network_requests (self w) ->
  exists h',
    emit_all ds w = set_heap h' w
    /\ console_view (set_heap h' w) = Some (fst (captured_all (listeners w) ds (L, R)))
    /\ network_view (set_heap h' w) = Some (snd (captured_all (listeners w) ds (L, R))).
Proof.
  unfold emit_all, captured_all.
  induction ds as [|d ds IH]; intros w L R HL HR Hne.
  { exists (heap w). by rewrite set_heap_same. }
  cbn [fold_left].
  destruct (emit_refines d w L R HL HR Hne) as (h1 & E1 & HL1 & HR1).
  rewrite E1.
  destruct (captured (listeners w) d (L, R)) as [L1 R1].
  destruct (IH (set_heap h1 w) L1 R1 HL1 HR1 Hne) as (h' & E & HL' & HR').
  exists h'. by rewrite E.
Qed.

(** Whatever the store holds, delivering events changes the store only. *)
Lemma keeps_load_req l : keeps 0 (load_req l) (fun _ => True).
Proof.
  eapply keeps_bind; [apply keeps_load|]. intros [] _;
    (apply keeps_ret || apply keeps_raise); done.
Qed.

Lemma keeps_run_handler h e now : keeps 0 (run_handler h e now) (fun _ => True).
Proof.
  destruct h, e as [m|r|r]; cbn [run_handler]; try apply keeps_raise.
  - eapply keeps_bind; [apply keeps_get_self|]. intros s _.
    eapply keeps_bind; [apply keeps_alloc|]. intros x _.
    apply keeps_list_append. lia.
  - eapply keeps_bind; [apply keeps_get_self|]. intros s _.
    eapply keeps_bind; [apply keeps_alloc|]. intros x _.
    apply keeps_list_append. lia.
  - eapply keeps_bind; [apply keeps_get_self|]. intros s _.
    eapply keeps_bind; [apply keeps_load_list|]. intros requests _.
    induction requests as [|request rest IH]; cbn; [by apply keeps_ret|].
    eapply keeps_bind; [apply keeps_load_req|]. intros x _.
    destruct (awaits_response r x); [|done]. apply keeps_store. lia.
Qed.

Lemma preserves_heap_only w w' : preserves 0 w w' -> w' = set_heap (heap w') w.
Proof.
  intros (Hs & Hl & Hc & _ & _). destruct w'. unfold set_heap. cbn in *. congruence.
Qed.

Lemma emit_heap_only d w : exists h', emit d w = set_heap h' w.
Proof.
  unfold emit. generalize (List.filter (listens d) (listeners w)). intros ls.
  revert w. induction ls as [|l ls IH]; intros w.
  { exists (heap w). by rewrite set_heap_same. }
  cbn [fold_left].
  destruct (keeps_run_handler (snd l) (dl_event d) (dl_now d) w) as [Hp _]; [lia|].
  rewrite (preserves_heap_only _ _ Hp).
  destruct (IH (set_heap (heap (snd (run_handler (snd l) (dl_event d) (dl_now d) w))) w))
    as [h' E'].
  exists h'. by rewrite E'.
Qed.

Lemma emit_all_heap_only ds : forall w, exists h', emit_all ds w = set_heap h' w.
Proof.
  unfold emit_all. induction ds as [|d ds IH]; intros w.
  { exists (heap w). by rewrite set_heap_same. }
  cbn [fold_left]. destruct (emit_heap_only d w) as [h1 E1]. rewrite E1.
  destruct (IH (set_heap h1 w)) as [h' E']. exists h'. by rewrite E'.
Qed.

(** ** Lifecycle *)

Lemma emit_all_self ds w : self (emit_all ds w) = self w.
Proof. destruct (emit_all_heap_only ds w) as [h' ->]. done. Qed.

Lemma emit_all_listeners ds w : listeners (emit_all ds w) = listeners w.
Proof. destruct (emit_all_heap_only ds w) as [h' ->]. done. Qed.

Lemma emit_all_calls ds w : calls (emit_all ds w) = calls w.
Proof. destruct (emit_all_heap_only ds w) as [h' ->]. done. Qed.

Lemma bind_assoc {A B C} (m : M A) (f : A -> M B) (g : B -> M C) w :
  bind (bind m f) g w = bind m (fun a => bind (f a) g) w.
Proof. unfold bind. by destruct (m w) as [[a|e] w']. Qed.

Lemma fresh_views h s ls cs :
  console_logs s = length h -> network_requests s = length (h ++ [CList []]) ->
  console_view (World ((h ++ [CList []]) ++ [CList []]) s ls cs) = Some []
  /\ network_view (World ((h ++ [CList []]) ++ [CList []]) s ls cs) = Some []
  /\ console_logs s <> network_requests s.
Proof.
  intros Hc Hn. unfold console_view, network_view. cbn. rewrite Hc, Hn.
  split; [|split].
  - apply dicts_at_Some. exists []. split; [|split; constructor].
    apply obj_at_app, list_at_new.
  - apply dicts_at_Some. exists []. split; [|split; constructor].
    apply list_at_new.
  - rewrite length_app. cbn. lia.
Qed.

Lemma world_eq {A} (a : A) h h' s s' ls ls' cs cs' :
  h = h' -> s = s' -> ls = ls' -> cs = cs' ->
  (Ok a, World h s ls cs) = (Ok a, World h' s' ls' cs').
Proof. by intros -> -> -> ->. Qed.

Section Lifecycle.
Variable provider : list call -> call -> reply.

(** While an awaited call is suspended only the store changes, and the
    call is recorded. *)
Lemma run_await c w :
  exists h',
    await provider c w
    = (match result (provider (calls w) c) with
       | Some x => Ok x
       | None => Raise (ProviderError c)
       end,
       World h' (self w) (listeners w) (calls w ++ [c]))
    /\ forall L R,
        console_view w = Some L -> network_view w = Some R ->
        console_logs (self w) <> network_requests (self w) ->
        let logs := captured_all (listeners w) (deliveries (provider (calls w) c)) (L, R) in
        console_view (World h' (self w) (listeners w) (calls w ++ [c])) = Some (fst logs)
        /\ network_view (World h' (self w) (listeners w) (calls w ++ [c])) = Some (snd logs).
Proof.
  set (w1 := World (heap w) (self w) (listeners w) (calls w ++ [c])).
  set (ds := deliveries (provider (calls w) c)).
  destruct (emit_all_heap_only ds w1) as [h' E].
  exists h'. split.
  - unfold await. fold w1 ds. rewrite E. by destruct (result _).
  - intros L R HL HR Hne logs.
    destruct (emit_all_refines ds w1 L R HL HR Hne) as (h2 & E2 & HL2 & HR2).
    rewrite E in E2. injection E2 as <-. done.
Qed.

Lemma await_ok c w x :
  result (provider (calls w) c) = Some x ->
  exists h', await provider c w
             = (Ok x, World h' (self w) (listeners w) (calls w ++ [c])).
Proof.
  intros E. destruct (run_await c w) as (h' & Hrun & _). exists h'.
  by rewrite Hrun, E.
Qed.

Ltac step :=
  first
    [ rewrite (bind_ok get_self _ _ _ _ eq_refl)
    | rewrite (bind_ok (put_self _) _ _ _ _ eq_refl)
    | rewrite (bind_ok (alloc _) _ _ _ _ eq_refl)
    | rewrite (bind_ok (ret _) _ _ _ _ eq_refl)
    | rewrite (bind_ok (page_on _ _ _) _ _ _ _ eq_refl)
    | rewrite bind_assoc ];
  unfold set_heap, set_self;
  cbn [heap self listeners calls playwright browser page
       console_logs network_requests is_initialized headless].

Ltac step_await Hok :=
  match goal with
  | |- context [bind (await provider ?c) _ ?w] =>
      let x := fresh "x" in
      let E := fresh "E" in
      let h' := fresh "h" in
      let Eh := fresh "Eh" in
      destruct (result (provider (calls w) c)) as [x|] eqn:E;
      [ destruct (await_ok c w x E) as [h' Eh];
        rewrite (bind_ok _ _ _ _ _ Eh); clear Eh E;
        cbn [heap self listeners calls]
      | exfalso; eapply Hok; [|exact E];
        apply list_elem_of_In; cbn; intuition ]
  end.

Lemma close_run w :
  (forall history c, c ∈ releases (self w) -> result (provider history c) <> None) ->
  exists h',
    close provider w
    = (Ok tt,
       World ((h' ++ [CList []]) ++ [CList []])
             (Manager None None None (length h') (length (h' ++ [CList []]))
                      false (headless (self w)))
             (listeners w) (calls w ++ releases (self w))).
Proof.
  intros Hok. destruct w as [h [pw b p c n init hl] ls cs].
  unfold releases in *. cbn in Hok. cbn [self headless listeners calls page browser playwright].
  unfold close.
  destruct p as [p|], b as [b|], pw as [pw|];
    repeat (step || step_await Hok);
    eexists; unfold put_self, set_self;
    cbn [heap self listeners calls headless];
    (apply world_eq; [reflexivity..|]);
    cbn; by rewrite <- ?app_assoc, ?app_nil_r.
Qed.

(** Closing a session that holds nothing calls nobody. *)
Lemma close_closed w :
  playwright (self w) = None -> browser (self w) = None -> page (self w) = None ->
  close provider w
  = (Ok tt,
     World ((heap w ++ [CList []]) ++ [CList []])
           (Manager None None None (length (heap w)) (length (heap w ++ [CList []]))
                    false (headless (self w)))
           (listeners w) (calls w)).
Proof.
  destruct w as [h [pw b p c n init hl] ls cs]. cbn. intros -> -> ->.
  unfold close. by repeat step.
Qed.

Lemma bind_raise {A B} (m : M A) (f : A -> M B) w e w' :
  m w = (Raise e, w') -> bind m f w = (Raise e, w').
Proof. unfold bind. by intros ->. Qed.

Lemma open_url_run w url b p :
  is_initialized (self w) = true ->
  browser (self w) = Some b ->
  (forall p0, page (self w) = Some p0 ->
              result (provider (calls w) (PageClose p0)) <> None) ->
  let cs1 := (calls w ++ match page (self w) with
                         | Some p0 => [PageClose p0]
                         | None => []
                         end)%list in
  result (provider cs1 (BrowserNewPage b)) = Some p ->
  let ls' := (listeners w ++ new_listeners p)%list in
  let goto := provider (cs1 ++ [BrowserNewPage b]) (PageGoto p url) in
  let logs :=
    captured_all ls' (deliveries goto)
      (captured_all (listeners w)
         (deliveries (provider cs1 (BrowserNewPage b))) ([], [])) in
  exists w',
    open_url provider url w
    = (match result goto with
       | Some _ => Ok (opened_message url)
       | None => Raise (ProviderError (PageGoto p url))
       end, w')
    /\ console_view w' = Some (fst logs)
    /\ network_view w' = Some (snd logs)
    /\ page (self w') = Some p
    /\ listeners w' = ls'
    /\ calls w' = (cs1 ++ [BrowserNewPage b; PageGoto p url])%list.
Proof.
  destruct w as [h [pw b0 p0 c n init hl] ls cs]. cbn.
  intros -> -> Hclose Enew.
  unfold open_url.
  do 2 step.
  assert (Hreset : exists h1,
    (match p0 with
     | Some p1 => await provider (PageClose p1);; ret tt
     | None => ret tt
     end)%py (World h (Manager pw (Some b) p0 c n true hl) ls cs)
    = (Ok tt, World h1 (Manager pw (Some b) p0 c n true hl) ls
                    (cs ++ match p0 with Some p1 => [PageClose p1] | None => [] end))).
  { destruct p0 as [p1|].
    - destruct (result (provider cs (PageClose p1))) as [x|] eqn:E;
        [|by destruct (Hclose p1 eq_refl)].
      destruct (await_ok (PageClose p1) (World h (Manager pw (Some b) (Some p1) c n true hl) ls cs) x E)
        as [h1 Eh]. exists h1. by rewrite (bind_ok _ _ _ _ _ Eh).
    - exists h. cbn. by rewrite app_nil_r. }
  destruct Hreset as [h1 Hreset]. rewrite (bind_ok _ _ _ _ _ Hreset).
  clear Hreset Hclose.
  set (cs1 := (cs ++ match p0 with Some p1 => [PageClose p1] | None => [] end)%list) in *.
  clearbody cs1.
  repeat step.
  match goal with
  | |- context [bind (await provider ?c) _ ?w] =>
      destruct (run_await c w) as (h2 & Hrun & Hviews)
  end.
  cbn [heap self listeners calls] in Hrun, Hviews.
  rewrite Enew in Hrun. rewrite (bind_ok _ _ _ _ _ Hrun). clear Hrun.
  destruct (fresh_views h1 (Manager pw (Some b) p0 (length h1) (length (h1 ++ [CList []])) true hl) ls cs1 eq_refl eq_refl)
    as (HL0 & HR0 & Hne0).
  destruct (Hviews _ _ HL0 HR0 Hne0) as [HL1 HR1]. clear Hviews HL0 HR0.
  repeat step.
  match goal with
  | |- context [bind (await provider ?c) _ ?w] =>
      destruct (run_await c w) as (h3 & Hrun & Hviews)
  end.
  cbn [heap self listeners calls] in Hrun, Hviews.
  destruct (Hviews _ _ HL1 HR1 Hne0) as [HL2 HR2]. clear Hviews HL1 HR1.
  assert (Els : ((ls ++ [(p, "console"%string, HandleConsoleMessage)]) ++
                 [(p, "request"%string, HandleRequest)]) ++
                [(p, "response"%string, HandleResponse)]
                = ls ++ new_listeners p) by (by rewrite <- !app_assoc).
  rewrite Els in *. rewrite <- !(app_assoc cs1) in *.
  rewrite <- surjective_pairing in HL2, HR2.
  eexists. split; [|split; [exact HL2|split; [exact HR2|done]]].
  destruct (result (provider (cs1 ++ [BrowserNewPage b]) (PageGoto p url))).
  - by rewrite (bind_ok _ _ _ _ _ Hrun).
  - by rewrite (bind_raise _ _ _ _ _ Hrun).
Qed.
End Lifecycle.

(** * Properties of the session engine *)

(** ** Console log deduplication *)

Lemma eqb_with_suffix (s t : string) :
  t <> EmptyString -> (s =? s ++ t)%string = false.
Proof.
  intros Ht. induction s as [|c s IH]; cbn.
  - by destruct t.
  - by rewrite Ascii.eqb_refl.
Qed.

(** C1, as the code runs it: three consecutive messages of one kind and
    text do not come out as one record with count 3.  The second message
    rewrites the text of the current group, so the third no longer compares
    equal to it and starts a group of its own: the run gives a record with
    count 2 and a record with count 1. *)
Theorem run_of_three_is_split w kind text l0 l1 l2 t0 t1 t2 n :
  console_view w = Some [LogEntry kind text l0 t0; LogEntry kind text l1 t1;
                         LogEntry kind text l2 t2] ->
  t0 <= t1 -> t1 <= t2 -> 2 <= n ->
  exists out w',
    get_console_logs n w = (Ok out, w')
    /\ groups_at (heap w') out
       = Some [LogGroup kind (text ++ " (repeated 2 times)") l0 t0 2 [t0; t1];
               LogGroup kind text l2 t2 1 [t2]].
Proof.
  intros Hv H01 H12 Hn.
  set (L := [LogEntry kind text l0 t0; LogEntry kind text l1 t1;
             LogEntry kind text l2 t2]) in *.
  assert (Hs : sort_on log_timestamp false L = L).
  { apply sort_on_ascending_id. unfold ascending, L.
    repeat (constructor; [|repeat constructor; cbn; lia]). constructor. }
  assert (Hg : deduplicate L
               = [LogGroup kind (text ++ " (repeated 2 times)") l0 t0 2 [t0; t1];
                  LogGroup kind text l2 t2 1 [t2]]).
  { assert (D1 : differs (LogEntry kind text l1 t1) (new_group (LogEntry kind text l0 t0))
                 = false).
    { unfold differs. cbn [log_type log_text grp_type grp_text new_group].
      by rewrite !String.eqb_refl. }
    assert (G1 : repeat_group (new_group (LogEntry kind text l0 t0))
                              (LogEntry kind text l1 t1)
                 = LogGroup kind (text ++ " (repeated 2 times)") l0 t0 2 [t0; t1])
      by reflexivity.
    assert (D2 : differs (LogEntry kind text l2 t2)
                         (LogGroup kind (text ++ " (repeated 2 times)") l0 t0 2 [t0; t1])
                 = true).
    { unfold differs. cbn [log_type log_text grp_type grp_text].
      by rewrite String.eqb_refl, eqb_with_suffix. }
    unfold deduplicate, L. cbn [fold_left dedup_step].
    rewrite D1. cbn [dedup_step]. by rewrite G1, D2. }
  destruct (get_console_logs_refines w n L Hv) as (out & w' & Hrun & Hout).
  exists out, w'. split; [done|]. rewrite Hout. f_equal.
  rewrite console_result_all; rewrite Hs, Hg; [done|]. cbn. lia.
Qed.

Lemma run_of_three_is_split_witness :
  let L := [entry "info" "a" 0; entry "info" "a" 1; entry "info" "a" 2] in
  let w := session_with L [] in
  console_view w = Some L /\ 0 <= 1 /\ 1 <= 2 /\ 2 <= 10
  /\ exists out w',
      get_console_logs 10 w = (Ok out, w')
      /\ groups_at (heap w') out
         = Some [LogGroup "info" "a (repeated 2 times)" no_location 0 2 [0; 1];
                 LogGroup "info" "a" no_location 2 1 [2]].
Proof.
  split; [reflexivity|]. split; [lia|]. split; [lia|]. split; [lia|].
  apply (run_of_three_is_split _ "info" "a" no_location no_location no_location 0 1 2 10);
    [reflexivity|lia|lia|lia].
Defined.

(** C4 does not hold of the code when the last two entries carry one
    timestamp: the window is cut from a stable descending sort by timestamp,
    which keeps the older of two groups of one instant first, so
    [get_console_logs 1] returns the group ["b"], not the last group. *)
Lemma equal_timestamps_keep_the_older_group :
  let w := session_with [entry "info" "a" 0; entry "info" "a" 1;
                         entry "info" "b" 2; entry "info" "a" 2] [] in
  exists out w',
    get_console_logs 1 w = (Ok out, w')
    /\ groups_at (heap w') out = Some [LogGroup "info" "b" no_location 2 1 [2]]
    /\ groups_at (heap w') out <> Some [LogGroup "info" "a" no_location 2 1 [2]].
Proof.
  eexists _, _. split; [vm_compute; reflexivity|].
  split; [vm_compute; reflexivity|]. vm_compute. discriminate.
Qed.

(** C4, amended: with the four entries [(info,a) (info,a) (info,b) (info,a)]
    stored in this order with timestamps that never go back,
    [get_console_logs 10] returns the three groups ["a (repeated 2 times)"]
    (count 2), ["b"] (count 1), ["a"] (count 1), in this order.
    [get_console_logs 1] returns one group: the last one when the last entry
    is strictly later than the third; otherwise the first in stored order
    of the groups that carry the latest timestamp, which is ["b"], or
    ["a (repeated 2 times)"] when all four timestamps are equal. *)
Theorem four_entries_three_groups w l0 l1 l2 l3 t0 t1 t2 t3 :
  console_view w = Some [LogEntry "info" "a" l0 t0; LogEntry "info" "a" l1 t1;
                         LogEntry "info" "b" l2 t2; LogEntry "info" "a" l3 t3] ->
  t0 <= t1 -> t1 <= t2 -> t2 <= t3 ->
  (exists out w',
      get_console_logs 10 w = (Ok out, w')
      /\ groups_at (heap w') out
         = Some [LogGroup "info" "a (repeated 2 times)" l0 t0 2 [t0; t1];
                 LogGroup "info" "b" l2 t2 1 [t2];
                 LogGroup "info" "a" l3 t3 1 [t3]])
  /\ (exists out w',
      get_console_logs 1 w = (Ok out, w')
      /\ groups_at (heap w') out
         = Some [if t2 <? t3 then LogGroup "info" "a" l3 t3 1 [t3]
                 else if t0 <? t2 then LogGroup "info" "b" l2 t2 1 [t2]
                 else LogGroup "info" "a (repeated 2 times)" l0 t0 2 [t0; t1]]).
Proof.
  intros Hv H01 H12 H23.
  set (L := [LogEntry "info" "a" l0 t0; LogEntry "info" "a" l1 t1;
             LogEntry "info" "b" l2 t2; LogEntry "info" "a" l3 t3]) in *.
  assert (Hs : sort_on log_timestamp false L = L).
  { apply sort_on_ascending_id. unfold ascending, L.
    repeat (constructor; [|repeat constructor; cbn; lia]). constructor. }
  assert (Hg : deduplicate L
               = [LogGroup "info" "a (repeated 2 times)" l0 t0 2 [t0; t1];
                  LogGroup "info" "b" l2 t2 1 [t2];
                  LogGroup "info" "a" l3 t3 1 [t3]]) by (vm_compute; reflexivity).
  split.
  - destruct (get_console_logs_refines w 10 L Hv) as (out & w' & Hrun & Hout).
    exists out, w'. split; [done|]. rewrite Hout. f_equal.
    rewrite console_result_all; rewrite Hs, Hg; [done|]. cbn. lia.
  - destruct (get_console_logs_refines w 1 L Hv) as (out & w' & Hrun & Hout).
    exists out, w'. split; [done|]. rewrite Hout. f_equal.
    unfold console_result. rewrite Hs, Hg.
    unfold sort_on, key_le. cbn.
    destruct (Z.ltb_spec t2 t3), (Z.ltb_spec t0 t2);
      repeat match goal with
             | |- context [?a <=? ?b] => destruct (Z.leb_spec a b); try lia; cbn
             end;
      reflexivity.
Qed.

(** The buffer of the claim, one entry per instant. *)
Lemma four_entries_three_groups_witness :
  let L := [entry "info" "a" 0; entry "info" "a" 1;
            entry "info" "b" 2; entry "info" "a" 3] in
  let w := session_with L [] in
  console_view w = Some L /\ 0 <= 1 /\ 1 <= 2 /\ 2 <= 3 /\
  (exists out w',
      get_console_logs 10 w = (Ok out, w')
      /\ groups_at (heap w') out
         = Some [LogGroup "info" "a (repeated 2 times)" no_location 0 2 [0; 1];
                 LogGroup "info" "b" no_location 2 1 [2];
                 LogGroup "info" "a" no_location 3 1 [3]])
  /\ (exists out w',
      get_console_logs 1 w = (Ok out, w')
      /\ groups_at (heap w') out = Some [LogGroup "info" "a" no_location 3 1 [3]]).
Proof.
  split; [reflexivity|]. split; [lia|]. split; [lia|]. split; [lia|].
  apply (four_entries_three_groups _ no_location no_location no_location no_location 0 1 2 3);
    [reflexivity|lia|lia|lia].
Defined.

(** ** Windows *)

(** C7: for a positive [last_n], [get_network_requests] returns
    [min last_n (length log)] exchanges of the stored log, whatever their
    response; none of the exchanges left out is more recent than a returned
    one, and the returned ones are ordered oldest first.  On a log with
    increasing timestamps they are the last exchanges of the log, in stored
    order. *)
Theorem get_network_requests_most_recent w n R :
  network_view w = Some R ->
  0 < n ->
  exists out w' res rest,
    get_network_requests n w = (Ok out, w')
    /\ reqs_at (heap w') out = Some res
    /\ length res = Nat.min (Z.to_nat n) (length R)
    /\ Permutation R (rest ++ res)
    /\ (forall x y, In x res -> In y rest -> req_timestamp y <= req_timestamp x)
    /\ ascending req_timestamp res
    /\ (increasing req_timestamp R -> res = drop (length R - Z.to_nat n) R).
Proof.
  intros Hv Hn.
  destruct (get_network_requests_refines w n R Hv) as (out & ext & Hrun & Hout).
  destruct (window_most_recent req_timestamp R n Hn) as (rest & H1 & H2 & H3 & H4).
  exists out, (set_heap (heap w ++ ext) w), (network_result R n), rest.
  repeat split; try done. by apply window_suffix.
Qed.

Lemma get_network_requests_most_recent_witness :
  let R := [get_request "a" 0 1; get_request "b" 1 2; get_request "c" 2 3] in
  let w := session_with [] R in
  network_view w = Some R /\ 0 < 2 /\
  exists out w' res rest,
    get_network_requests 2 w = (Ok out, w')
    /\ reqs_at (heap w') out = Some res
    /\ length res = Nat.min (Z.to_nat 2) (length R)
    /\ Permutation R (rest ++ res)
    /\ (forall x y, In x res -> In y rest -> req_timestamp y <= req_timestamp x)
    /\ ascending req_timestamp res
    /\ (increasing req_timestamp R -> res = drop (length R - Z.to_nat 2) R).
Proof.
  split; [reflexivity|]. split; [lia|].
  apply get_network_requests_most_recent; [reflexivity|lia].
Defined.

(** C8: with [last_n] above the number of groups, [get_console_logs]
    returns every group of the deduplicated log; with [last_n] above the
    number of stored exchanges, [get_network_requests] returns all of them,
    oldest first, which is the stored order when the log is in timestamp
    order.  Neither raises. *)
Theorem large_window_returns_everything w L R n_console n_network :
  console_view w = Some L ->
  network_view w = Some R ->
  Z.of_nat (length (deduplicate (sort_on log_timestamp false L))) < n_console ->
  Z.of_nat (length R) < n_network ->
  (exists out w',
      get_console_logs n_console w = (Ok out, w')
      /\ groups_at (heap w') out = Some (deduplicate (sort_on log_timestamp false L)))
  /\ (exists out w' res,
      get_network_requests n_network w = (Ok out, w')
      /\ reqs_at (heap w') out = Some res
      /\ Permutation res R
      /\ ascending req_timestamp res
      /\ (ascending req_timestamp R -> res = R)).
Proof.
  intros HL HR Hc Hn. split.
  - destruct (get_console_logs_refines w n_console L HL) as (out & w' & Hrun & Hout).
    exists out, w'. split; [done|]. rewrite Hout, console_result_all; [done|lia].
  - destruct (get_network_requests_refines w n_network R HR) as (out & ext & Hrun & Hout).
    exists out, (set_heap (heap w ++ ext) w), (network_result R n_network).
    split; [done|]. split; [done|].
    unfold network_result. rewrite window_all by lia.
    split; [apply sort_on_perm|]. split; [apply sort_on_ascending|].
    apply sort_on_ascending_id.
Qed.

Lemma large_window_returns_everything_witness :
  let L := [entry "info" "a" 0; entry "info" "a" 1; entry "error" "b" 2] in
  let R := [get_request "a" 0 1; get_request "b" 1 2] in
  let w := session_with L R in
  console_view w = Some L /\ network_view w = Some R
  /\ Z.of_nat (length (deduplicate (sort_on log_timestamp false L))) < 3
  /\ Z.of_nat (length R) < 100
  /\ (exists out w',
      get_console_logs 3 w = (Ok out, w')
      /\ groups_at (heap w') out = Some (deduplicate (sort_on log_timestamp false L)))
  /\ (exists out w' res,
      get_network_requests 100 w = (Ok out, w')
      /\ reqs_at (heap w') out = Some res
      /\ Permutation res R
      /\ ascending req_timestamp res
      /\ (ascending req_timestamp R -> res = R)).
Proof.
  split; [reflexivity|]. split; [reflexivity|].
  split; [vm_compute; reflexivity|]. split; [vm_compute; reflexivity|].
  apply large_window_returns_everything;
    [reflexivity|reflexivity|vm_compute; reflexivity|vm_compute; reflexivity].
Defined.

(** ** Arguments that are not positive *)

Lemma slice_to_nonpositive {A} (l : list A) n :
  n <= 0 -> slice_to l n = take (kept (length l) n) l.
Proof.
  intros Hn. unfold kept. destruct (Z.eqb_spec n 0) as [->|Hne]; [done|].
  rewrite slice_to_negative by lia. f_equal. lia.
Qed.

Lemma query_extends {A} (m : M A) w :
  (forall n0, keeps n0 m (fun _ => True)) ->
  forall L R,
    console_view w = Some L -> network_view w = Some R ->
    console_view (snd (m w)) = Some L /\ network_view (snd (m w)) = Some R.
Proof.
  intros Hm L R HL HR. destruct (keeps_extends m _ w (Hm _)) as [ext ->].
  split; [by apply console_view_extends|by apply network_view_extends].
Qed.

(** C2 does not hold of the code: nothing in the two queries inspects
    [last_n], and a slice accepts any integer.  On a log with two entries
    of each kind, [get_console_logs 0] and [get_network_requests (-1)] both
    return, the second with one exchange of the two. *)
Lemma nonpositive_last_n_is_answered :
  let w := session_with [entry "info" "a" 0; entry "info" "b" 1]
                        [get_request "u" 0 1; get_request "v" 1 2] in
  ~ rejected (get_console_logs 0) w
  /\ ~ rejected (get_network_requests (-1)) w
  /\ (let (o, w') := get_network_requests (-1) w in
      match o with
      | Ok out => reqs_at (heap w') out
      | Raise _ => None
      end) = Some [get_request "v" 1 2].
Proof.
  split; [|split].
  - intros [e He]. vm_compute in He. discriminate.
  - intros [e He]. vm_compute in He. discriminate.
  - vm_compute. reflexivity.
Qed.

(** C2, amended: for [last_n <= 0] both queries return without raising and
    leave both logs as they are; they return the [kept] most recent entries
    (groups for the console), oldest first: none for [last_n = 0], all but
    the [-last_n] oldest for a negative [last_n]. *)
Theorem nonpositive_last_n_returns_a_slice w L R n :
  console_view w = Some L ->
  network_view w = Some R ->
  n <= 0 ->
  let groups := deduplicate (sort_on log_timestamp false L) in
  (exists out w',
      get_console_logs n w = (Ok out, w')
      /\ groups_at (heap w') out
         = Some (sort_on grp_timestamp false
                   (take (kept (length groups) n) (sort_on grp_timestamp true groups)))
      /\ console_view w' = Some L /\ network_view w' = Some R)
  /\ (exists out w',
      get_network_requests n w = (Ok out, w')
      /\ reqs_at (heap w') out
         = Some (sort_on req_timestamp false
                   (take (kept (length R) n) (sort_on req_timestamp true R)))
      /\ console_view w' = Some L /\ network_view w' = Some R).
Proof.
  intros HL HR Hn groups. split.
  - destruct (get_console_logs_refines w n L HL) as (out & w' & Hrun & Hout).
    exists out, w'. split; [done|]. split.
    + rewrite Hout. unfold console_result. fold groups.
      by rewrite slice_to_nonpositive, sort_on_length.
    + replace w' with (snd (get_console_logs n w)) by (by rewrite Hrun).
      apply query_extends; [|done..]. intros n0. apply keeps_get_console_logs.
  - destruct (get_network_requests_refines w n R HR) as (out & ext & Hrun & Hout).
    exists out, (set_heap (heap w ++ ext) w). split; [done|]. split.
    + cbn. rewrite Hout. unfold network_result.
      by rewrite slice_to_nonpositive, sort_on_length.
    + split; [by apply console_view_extends|by apply network_view_extends].
Qed.

Lemma nonpositive_last_n_returns_a_slice_witness :
  let L := [entry "info" "a" 0; entry "info" "b" 1] in
  let R := [get_request "u" 0 1; get_request "v" 1 2] in
  let w := session_with L R in
  let groups := deduplicate (sort_on log_timestamp false L) in
  console_view w = Some L /\ network_view w = Some R /\ -1 <= 0
  /\ (exists out w',
      get_console_logs (-1) w = (Ok out, w')
      /\ groups_at (heap w') out
         = Some (sort_on grp_timestamp false
                   (take (kept (length groups) (-1)) (sort_on grp_timestamp true groups)))
      /\ console_view w' = Some L /\ network_view w' = Some R)
  /\ (exists out w',
      get_network_requests (-1) w = (Ok out, w')
      /\ reqs_at (heap w') out
         = Some (sort_on req_timestamp false
                   (take (kept (length R) (-1)) (sort_on req_timestamp true R)))
      /\ console_view w' = Some L /\ network_view w' = Some R).
Proof.
  split; [reflexivity|]. split; [reflexivity|]. split; [lia|].
  apply (nonpositive_last_n_returns_a_slice _ _ _ (-1)); [reflexivity|reflexivity|lia].
Defined.

(** ** Queries are read-only *)

(** C10: the two queries only add objects to the store.  The manager, the
    listeners, the recorded calls and every object that existed before the
    call are the same afterwards, so the stored console log and network log
    are unchanged, for every state and every [last_n]. *)
Theorem queries_are_read_only w n :
  let w1 := snd (get_console_logs n w) in
  let w2 := snd (get_network_requests n w) in
  (exists ext, w1 = set_heap (heap w ++ ext) w)
  /\ (exists ext, w2 = set_heap (heap w ++ ext) w)
  /\ (forall L, console_view w = Some L ->
                console_view w1 = Some L /\ console_view w2 = Some L)
  /\ (forall R, network_view w = Some R ->
                network_view w1 = Some R /\ network_view w2 = Some R).
Proof.
  intros w1 w2.
  destruct (keeps_extends (get_console_logs n) _ w (keeps_get_console_logs _ n))
    as [ext1 E1].
  destruct (keeps_extends (get_network_requests n) _ w (keeps_get_network_requests _ n))
    as [ext2 E2].
  fold w1 in E1. fold w2 in E2. rewrite E1, E2.
  split; [by exists ext1|]. split; [by exists ext2|]. split.
  - intros L HL. split; by apply console_view_extends.
  - intros R HR. split; by apply network_view_extends.
Qed.

(** ** Matching responses to requests *)

(** C3: [_handle_response] returns normally, and the first exchange of the
    log that has the response's url and no response yet gets the response:
    afterwards its ["response"] holds the status, status text and headers of
    the response and the clock reading, its request fields are as before,
    and the exchanges before and after it are untouched.  An exchange that
    already has a response keeps it, so no exchange ever gets a second
    one. *)
Theorem handle_response_attaches_to_oldest w r now R :
  network_view w = Some R ->
  exists w' R',
    _handle_response r now w = (Ok tt, w')
    /\ network_view w' = Some R'
    /\ length R' = length R
    /\ (forall pre e post,
          R = pre ++ e :: post ->
          Forall (fun x => ~ (req_url x = rs_url r /\ req_response x = None)) pre ->
          req_url e = rs_url r -> req_response e = None ->
          R' = pre
               ++ RequestEntry (req_url e) (req_method e) (req_headers e)
                    (req_timestamp e) (req_resourceType e) (req_id e)
                    (Some (ResponseEntry (rs_status r) (rs_status_text r)
                                         (rs_headers r) now))
               :: post)
    /\ (forall (i : nat) x,
          R !! i = Some x -> req_response x <> None -> R' !! i = Some x).
Proof.
  intros Hv.
  destruct (handle_response_refines r now w R Hv) as (h' & Hrun & Hv' & _).
  exists (set_heap h' w), (attach r now R).
  split; [done|]. split; [done|]. split; [apply attach_length|]. split.
  - intros pre e post -> Hpre Hurl Hresp.
    etransitivity; [apply attach_first|reflexivity].
    + eapply Forall_impl; [exact Hpre|]. intros x. apply awaits_response_false.
    + by apply awaits_response_spec.
  - apply attach_keeps_responded.
Qed.

(** Two requests for one url, then one response for it: the first request
    gets the response, the second stays without. *)
Lemma handle_response_attaches_to_oldest_witness :
  let R1 := RequestEntry "http://x/" "GET" [] 0 "document" 1 None in
  let R2 := RequestEntry "http://x/" "GET" [] 1 "document" 2 None in
  let r := Response "http://x/" 200 "OK" [] in
  let w := session_with [] [R1; R2] in
  network_view w = Some [R1; R2]
  /\ exists w' R',
      _handle_response r 2 w = (Ok tt, w')
      /\ network_view w' = Some R'
      /\ R' = [RequestEntry "http://x/" "GET" [] 0 "document" 1
                            (Some (ResponseEntry 200 "OK" [] 2));
               RequestEntry "http://x/" "GET" [] 1 "document" 2 None].
Proof.
  intros R1 R2 r w. split; [reflexivity|].
  destruct (handle_response_attaches_to_oldest w r 2 [R1; R2] eq_refl)
    as (w' & R' & Hrun & Hv & _ & Hfirst & _).
  exists w', R'. split; [exact Hrun|]. split; [exact Hv|].
  apply (Hfirst [] R1 [R2]); [reflexivity|constructor|reflexivity|reflexivity].
Defined.

(** C9: when no exchange of the log has the response's url and no response
    yet, [_handle_response] returns without raising and the whole state,
    the network log included, is what it was. *)
Theorem unmatched_response_is_dropped w r now R :
  network_view w = Some R ->
  Forall (fun x => ~ (req_url x = rs_url r /\ req_response x = None)) R ->
  _handle_response r now w = (Ok tt, w).
Proof.
  intros (items & Hl & Hnd & Hh)%dicts_at_Some Hnone.
  unfold _handle_response.
  rewrite (bind_ok get_self _ w _ w eq_refl).
  rewrite (bind_ok _ _ _ _ _ (run_load_list _ _ _ Hl)).
  eapply handle_response_loop_none; [exact Hh|].
  eapply Forall_impl; [exact Hnone|]. intros x. apply awaits_response_false.
Qed.

Lemma unmatched_response_is_dropped_witness :
  let R := [with_response (get_request "http://x/" 0 1)
              (ResponseEntry 200 "OK" [] 1);
            get_request "http://y/" 2 2] in
  let r := Response "http://x/" 304 "Not Modified" [] in
  let w := session_with [] R in
  network_view w = Some R
  /\ Forall (fun x => ~ (req_url x = rs_url r /\ req_response x = None)) R
  /\ _handle_response r 3 w = (Ok tt, w).
Proof.
  intros R r w.
  assert (Hnone : Forall (fun x => ~ (req_url x = rs_url r /\ req_response x = None)) R).
  { repeat constructor; intros [H1 H2]; discriminate. }
  split; [reflexivity|]. split; [exact Hnone|].
  apply (unmatched_response_is_dropped w r 3 R); [reflexivity|exact Hnone].
Defined.

(** ** Opening and closing *)

Section Session.
Variable provider : list call -> call -> reply.

(** C5: when a page is opened in an initialised session, whatever the two
    logs held before, after [open_url] they hold what the handlers made of
    the events delivered once the logs were replaced, namely while the new
    page was created and while it loaded, starting from two empty logs;
    [get_console_logs] then answers from those entries alone.  This holds
    whether the navigation returns or raises. *)
Theorem open_url_resets_logs w url b p n :
  is_initialized (self w) = true ->
  browser (self w) = Some b ->
  (forall p0, page (self w) = Some p0 ->
              result (provider (calls w) (PageClose p0)) <> None) ->
  let cs1 := calls w ++ match page (self w) with
                        | Some p0 => [PageClose p0]
                        | None => []
                        end in
  result (provider cs1 (BrowserNewPage b)) = Some p ->
  let new_page := deliveries (provider cs1 (BrowserNewPage b)) in
  let loading := deliveries (provider (cs1 ++ [BrowserNewPage b]) (PageGoto p url)) in
  let logs :=
    captured_all (listeners w ++ new_listeners p) loading
      (captured_all (listeners w) new_page ([], [])) in
  let w' := snd (open_url provider url w) in
  console_view w' = Some (fst logs)
  /\ network_view w' = Some (snd logs)
  /\ exists out w'',
      get_console_logs n w' = (Ok out, w'')
      /\ groups_at (heap w'') out = Some (console_result (fst logs) n).
Proof.
  intros Hinit Hb Hclose cs1 Hnew new_page loading logs w'.
  destruct (open_url_run provider w url b p Hinit Hb Hclose Hnew)
    as (w1 & Hrun & HL & HR & _).
  assert (w' = w1) as -> by (unfold w'; by rewrite Hrun).
  split; [exact HL|]. split; [exact HR|].
  by apply get_console_logs_refines.
Qed.

(** C6: [close] calls the provider for the page, the browser and the
    driver, in this order and only for those that are present; when these
    calls return, it ends with the three handles absent, the session not
    initialised and both logs empty.  Closing again then returns without
    calling the provider and changes nothing a caller can observe. *)
Theorem close_is_idempotent w :
  (forall history c, c ∈ releases (self w) -> result (provider history c) <> None) ->
  exists w1,
    close provider w = (Ok tt, w1)
    /\ session_view w1
       = (None, None, None, false, headless (self w), Some [], Some [],
          listeners w, calls w ++ releases (self w))
    /\ exists w2,
        close provider w1 = (Ok tt, w2)
        /\ session_view w2 = session_view w1.
Proof.
  intros Hok. destruct (close_run provider w Hok) as [h1 Hrun].
  eexists. split; [exact Hrun|].
  destruct (fresh_views h1
              (Manager None None None (length h1) (length (h1 ++ [CList []]))
                       false (headless (self w)))
              (listeners w) (calls w ++ releases (self w)) eq_refl eq_refl)
    as (HL & HR & _).
  split.
  { unfold session_view. cbn [self playwright browser page is_initialized
                              headless listeners calls].
    by rewrite HL, HR. }
  eexists. split; [by apply close_closed|].
  unfold session_view. cbn [self playwright browser page is_initialized
                            headless listeners calls heap].
  rewrite HL, HR.
  match goal with
  | |- context [console_view (World ((?h ++ _) ++ _) ?s ?ls ?cs)] =>
      destruct (fresh_views h s ls cs eq_refl eq_refl) as (HL' & HR' & _)
  end.
  by rewrite HL', HR'.
Qed.
End Session.

Lemma open_url_resets_logs_witness :
  let w := one_page_open in
  let url := "http://second"%string in
  let logs :=
    ([LogEntry "log" url no_location 12],
     [RequestEntry url "GET" [] 10 "document" 7 (Some (ResponseEntry 200 "OK" [] 11))]) in
  let w' := snd (open_url loading_provider url w) in
  console_view w = Some [LogEntry "log" "http://first" no_location 12]
  /\ is_initialized (self w) = true
  /\ browser (self w) = Some 1%nat
  /\ console_view w' = Some (fst logs)
  /\ network_view w' = Some (snd logs)
  /\ exists out w'',
      get_console_logs 100 w' = (Ok out, w'')
      /\ groups_at (heap w'') out = Some (console_result (fst logs) 100).
Proof.
  split; [vm_compute; reflexivity|]. split; [reflexivity|]. split; [reflexivity|].
  apply (open_url_resets_logs loading_provider one_page_open "http://second" 1%nat 5%nat 100);
    [reflexivity|reflexivity|intros p0 _; discriminate|reflexivity].
Defined.

Lemma close_is_idempotent_witness :
  let w := one_page_open in
  (forall history c, c ∈ releases (self w) -> result (quiet_provider history c) <> None)
  /\ exists w1,
      close quiet_provider w = (Ok tt, w1)
      /\ session_view w1
         = (None, None, None, false, headless (self w), Some [], Some [],
            listeners w, (calls w ++ releases (self w))%list)
      /\ exists w2,
          close quiet_provider w1 = (Ok tt, w2)
          /\ session_view w2 = session_view w1.
Proof.
  assert (H : forall history c, c ∈ releases (self one_page_open) ->
                                result (quiet_provider history c) <> None)
    by (intros history c _; discriminate).
  split; [exact H|]. apply (close_is_idempotent quiet_provider one_page_open H).
Defined.

(** * Further properties *)

(** ** The handlers *)

Lemma run_handle_console_message w m now citems :
  list_at (heap w) (console_logs (self w)) = Some citems ->
  _handle_console_message m now w
  = (Ok tt,
     set_heap (<[console_logs (self w) := CList (citems ++ [length (heap w)])]>
                 (heap w ++ [CLog (LogEntry (msg_type m) (msg_text m)
                                            (msg_location m) now)])) w).
Proof.
  intros Hc. unfold _handle_console_message.
  rewrite (bind_ok get_self _ w _ w eq_refl).
  rewrite (bind_ok (alloc _) _ _ _ _ eq_refl).
  by erewrite run_list_append by (cbn; by apply obj_at_app).
Qed.

Lemma run_handle_request w r now nitems :
  list_at (heap w) (network_requests (self w)) = Some nitems ->
  _handle_request r now w
  = (Ok tt,
     set_heap (<[network_requests (self w) := CList (nitems ++ [length (heap w)])]>
                 (heap w ++ [CReq (RequestEntry (rq_url r) (rq_method r)
                                                (rq_headers r) now
                                                (rq_resource_type r) (rq_id r)
                                                None)])) w).
Proof.
  intros Hn. unfold _handle_request.
  rewrite (bind_ok get_self _ w _ w eq_refl).
  rewrite (bind_ok (alloc _) _ _ _ _ eq_refl).
  by erewrite run_list_append by (cbn; by apply obj_at_app).
Qed.

(** A response leaves the console log as it is. *)
Lemma handle_response_console w r now L R :
  console_view w = Some L ->
  network_view w = Some R ->
  exists h',
    _handle_response r now w = (Ok tt, set_heap h' w)
    /\ network_view (set_heap h' w) = Some (attach r now R)
    /\ console_view (set_heap h' w) = Some L.
Proof.
  intros (citems & Hc & Hcnd & Hch)%dicts_at_Some HR.
  pose proof HR as (nitems & Hn & Hnnd & Hnh)%dicts_at_Some.
  destruct (handle_response_loop_spec r now nitems R w Hnh Hnnd)
    as (h' & Hrun & Hh' & _ & Hlist & Hlog).
  exists h'. split.
  { unfold _handle_response.
    rewrite (bind_ok get_self _ w _ w eq_refl).
    by rewrite (bind_ok _ _ _ _ _ (run_load_list _ _ _ Hn)). }
  split.
  { apply dicts_at_Some. exists nitems. cbn. by rewrite Hlist. }
  apply dicts_at_Some. exists citems. cbn. rewrite Hlist.
  split; [done|]. split; [done|].
  eapply Forall2_impl; [exact Hch|]. intros l a Hl.
  specialize (Hlog l). unfold log_at in Hlog. by rewrite Hlog.
Qed.

(** X1: [_handle_console_message] returns normally and puts one entry at
    the end of the console log, with the kind, text and location of the
    message and the clock reading; the network log is as it was. *)
Theorem handle_console_message_appends w m now L R :
  console_view w = Some L ->
  network_view w = Some R ->
  console_logs (self w) <> network_requests (self w) ->
  exists w',
    _handle_console_message m now w = (Ok tt, w')
    /\ console_view w'
       = Some (L ++ [LogEntry (msg_type m) (msg_text m) (msg_location m) now])
    /\ network_view w' = Some R
    /\ self w' = self w.
Proof.
  intros (citems & Hc & Hcnd & Hch)%dicts_at_Some
         (nitems & Hn & Hnnd & Hnh)%dicts_at_Some Hne.
  rewrite (run_handle_console_message _ _ _ _ Hc).
  eexists. split; [reflexivity|]. cbn [set_heap heap self].
  destruct (append_new as_log (fun _ => eq_refl) (heap w) _ citems L
              (CLog (LogEntry (msg_type m) (msg_text m) (msg_location m) now)) _
              eq_refl Hc Hch Hcnd) as (H1 & H2 & H3).
  split; [|split; [|done]]; apply dicts_at_Some.
  - eexists. split; [exact H1|]. split; [exact H3|exact H2].
  - exists nitems. split; [by apply append_new_other_list|]. split; [done|].
    by apply append_new_other.
Qed.

Lemma handle_console_message_appends_witness :
  let L := [entry "log" "ready" 1] in
  let R := [get_request "http://x/" 0 1] in
  let w := session_with L R in
  let m := ConsoleMessage "error" "boom" no_location in
  console_view w = Some L /\ network_view w = Some R
  /\ console_logs (self w) <> network_requests (self w)
  /\ exists w',
      _handle_console_message m 2 w = (Ok tt, w')
      /\ console_view w' = Some (L ++ [LogEntry "error" "boom" no_location 2])
      /\ network_view w' = Some R
      /\ self w' = self w.
Proof.
  split; [reflexivity|]. split; [reflexivity|]. split; [discriminate|].
  apply (handle_console_message_appends _ (ConsoleMessage "error" "boom" no_location));
    [reflexivity|reflexivity|discriminate].
Defined.

(** X2: [_handle_request] returns normally and puts one exchange at the end
    of the network log, with the fields of the request, the clock reading
    and no response; the console log is as it was. *)
Theorem handle_request_appends w r now L R :
  console_view w = Some L ->
  network_view w = Some R ->
  console_logs (self w) <> network_requests (self w) ->
  exists w',
    _handle_request r now w = (Ok tt, w')
    /\ network_view w'
       = Some (R ++ [RequestEntry (rq_url r) (rq_method r) (rq_headers r) now
                                  (rq_resource_type r) (rq_id r) None])
    /\ console_view w' = Some L
    /\ self w' = self w.
Proof.
  intros (citems & Hc & Hcnd & Hch)%dicts_at_Some
         (nitems & Hn & Hnnd & Hnh)%dicts_at_Some Hne.
  rewrite (run_handle_request _ _ _ _ Hn).
  eexists. split; [reflexivity|]. cbn [set_heap heap self].
  destruct (append_new as_req (fun _ => eq_refl) (heap w) _ nitems R
              (CReq (RequestEntry (rq_url r) (rq_method r) (rq_headers r) now
                                  (rq_resource_type r) (rq_id r) None)) _
              eq_refl Hn Hnh Hnnd) as (H1 & H2 & H3).
  split; [|split; [|done]]; apply dicts_at_Some.
  - eexists. split; [exact H1|]. split; [exact H3|exact H2].
  - exists citems. split; [by apply append_new_other_list|]. split; [done|].
    by apply append_new_other.
Qed.

Lemma handle_request_appends_witness :
  let L := [entry "log" "ready" 1] in
  let R := [get_request "http://x/" 0 1] in
  let w := session_with L R in
  let r := Request "http://y/" "POST" [("accept"%string, "*/*"%string)] "fetch" 9 in
  console_view w = Some L /\ network_view w = Some R
  /\ console_logs (self w) <> network_requests (self w)
  /\ exists w',
      _handle_request r 2 w = (Ok tt, w')
      /\ network_view w'
         = Some (R ++ [RequestEntry "http://y/" "POST" [("accept"%string, "*/*"%string)] 2 "fetch" 9 None])
      /\ console_view w' = Some L
      /\ self w' = self w.
Proof.
  split; [reflexivity|]. split; [reflexivity|]. split; [discriminate|].
  apply (handle_request_appends _ (Request "http://y/" "POST" [("accept"%string, "*/*"%string)] "fetch" 9));
    [reflexivity|reflexivity|discriminate].
Defined.

(** ** Responses leave the requests alone *)

Lemma attach_without_response r now R :
  map without_response (attach r now R) = map without_response R.
Proof.
  induction R as [|e R IH]; cbn; [done|].
  destruct (awaits_response r e); cbn; [done|]. by rewrite IH.
Qed.

Lemma attach_answered r now R :
  (length (List.filter answered (attach r now R))
   <= S (length (List.filter answered R)))%nat.
Proof.
  induction R as [|e R IH]; cbn; [lia|].
  destruct (awaits_response r e) eqn:He; cbn.
  - destruct (answered e); cbn; lia.
  - destruct (answered e); cbn; lia.
Qed.

(** X5: [_handle_response] never adds, removes or reorders exchanges and
    never changes the request part of one; at most one more exchange is
    answered after it; the console log is as it was. *)
Theorem handle_response_keeps_requests w r now L R :
  console_view w = Some L ->
  network_view w = Some R ->
  exists w' R',
    _handle_response r now w = (Ok tt, w')
    /\ network_view w' = Some R'
    /\ map without_response R' = map without_response R
    /\ (length (List.filter answered R') <= S (length (List.filter answered R)))%nat
    /\ console_view w' = Some L
    /\ self w' = self w.
Proof.
  intros HL HR.
  destruct (handle_response_console w r now L R HL HR) as (h' & Hrun & HR' & HL').
  exists (set_heap h' w), (attach r now R).
  split; [done|]. split; [done|].
  split; [apply attach_without_response|]. split; [apply attach_answered|].
  by split.
Qed.

Lemma handle_response_keeps_requests_witness :
  let L := [entry "log" "ready" 1] in
  let R := [get_request "http://x/" 0 1; get_request "http://x/" 1 2] in
  let w := session_with L R in
  let r := Response "http://x/" 200 "OK" [] in
  console_view w = Some L /\ network_view w = Some R
  /\ exists w' R',
      _handle_response r 2 w = (Ok tt, w')
      /\ network_view w' = Some R'
      /\ map without_response R' = map without_response R
      /\ (length (List.filter answered R') <= S (length (List.filter answered R)))%nat
      /\ console_view w' = Some L
      /\ self w' = self w.
Proof.
  split; [reflexivity|]. split; [reflexivity|].
  apply handle_response_keeps_requests; reflexivity.
Defined.

(** X4: a request followed by the response for its url.  When no older
    exchange is waiting for that url, the exchange of the request is the one
    that gets the response: the two handlers together leave the log with one
    more exchange, answered. *)
Theorem request_then_response w rq r t1 t2 L R :
  console_view w = Some L ->
  network_view w = Some R ->
  console_logs (self w) <> network_requests (self w) ->
  rs_url r = rq_url rq ->
  Forall (fun x => ~ (req_url x = rs_url r /\ req_response x = None)) R ->
  exists w1 w2,
    _handle_request rq t1 w = (Ok tt, w1)
    /\ _handle_response r t2 w1 = (Ok tt, w2)
    /\ network_view w2
       = Some (R ++ [RequestEntry (rq_url rq) (rq_method rq) (rq_headers rq) t1
                                  (rq_resource_type rq) (rq_id rq)
                                  (Some (response_dict r t2))])
    /\ console_view w2 = Some L.
Proof.
  intros HL HR Hne Hurl Hnone.
  pose proof HL as (citems & Hc & Hcnd & Hch)%dicts_at_Some.
  pose proof HR as (nitems & Hn & Hnnd & Hnh)%dicts_at_Some.
  set (e := RequestEntry (rq_url rq) (rq_method rq) (rq_headers rq) t1
                         (rq_resource_type rq) (rq_id rq) None).
  destruct (append_new as_req (fun _ => eq_refl) (heap w) _ nitems R (CReq e) _
              eq_refl Hn Hnh Hnnd) as (H1 & H2 & H3).
  set (w1 := set_heap (<[network_requests (self w) := CList (nitems ++ [length (heap w)])]>
                          (heap w ++ [CReq e])) w).
  assert (HL1 : console_view w1 = Some L).
  { apply dicts_at_Some. exists citems. cbn.
    split; [by apply append_new_other_list|]. split; [done|].
    by apply append_new_other. }
  assert (HR1 : network_view w1 = Some (R ++ [e])).
  { apply dicts_at_Some. eexists. cbn. split; [exact H1|]. split; [exact H3|exact H2]. }
  destruct (handle_response_console w1 r t2 L (R ++ [e]) HL1 HR1)
    as (h' & Hrun & HR' & HL').
  exists w1, (set_heap h' w1).
  split; [by apply run_handle_request|]. split; [exact Hrun|]. split; [|exact HL'].
  rewrite HR'. f_equal. unfold e. apply attach_first.
  - eapply Forall_impl; [exact Hnone|]. intros x. apply awaits_response_false.
  - apply awaits_response_spec. by split.
Qed.

Lemma request_then_response_witness :
  let L := [entry "log" "ready" 1] in
  let R := [with_response (get_request "http://x/" 0 1) (ResponseEntry 200 "OK" [] 1)] in
  let w := session_with L R in
  let rq := Request "http://x/" "GET" [] "document" 2 in
  let r := Response "http://x/" 304 "Not Modified" [] in
  console_view w = Some L /\ network_view w = Some R
  /\ console_logs (self w) <> network_requests (self w)
  /\ rs_url r = rq_url rq
  /\ Forall (fun x => ~ (req_url x = rs_url r /\ req_response x = None)) R
  /\ exists w1 w2,
      _handle_request rq 2 w = (Ok tt, w1)
      /\ _handle_response r 3 w1 = (Ok tt, w2)
      /\ network_view w2
         = Some (R ++ [RequestEntry "http://x/" "GET" [] 2 "document" 2
                                    (Some (ResponseEntry 304 "Not Modified" [] 3))])
      /\ console_view w2 = Some L.
Proof.
  intros L R w rq r.
  assert (Hnone : Forall (fun x => ~ (req_url x = rs_url r /\ req_response x = None)) R).
  { repeat constructor. intros [_ H]. discriminate. }
  split; [reflexivity|]. split; [reflexivity|]. split; [discriminate|].
  split; [reflexivity|]. split; [exact Hnone|].
  apply (request_then_response w rq r 2 3 L R);
    [reflexivity|reflexivity|discriminate|reflexivity|exact Hnone].
Defined.

(** ** Timestamp order under a clock that never goes back *)

Lemma ascending_snoc {A} (key : A -> timestamp) (l : list A) x :
  ascending key l -> Forall (fun a => key a <= key x) l -> ascending key (l ++ [x]).
Proof.
  unfold ascending. intros Hl Hx. apply StronglySorted_app.
  split; [|split]; [|done|repeat constructor].
  intros a b Ha ->%list_elem_of_singleton.
  rewrite Forall_forall in Hx. by apply Hx.
Qed.

Lemma Forall_keys {A} (key : A -> timestamp) (P : timestamp -> Prop) (l : list A) :
  Forall (fun x => P (key x)) l <-> Forall P (map key l).
Proof.
  induction l as [|x l IH]; cbn; [by split; constructor|].
  rewrite !Forall_cons. by rewrite IH.
Qed.

Lemma ascending_by_keys {A} (key : A -> timestamp) (l l' : list A) :
  map key l = map key l' -> ascending key l -> ascending key l'.
Proof.
  unfold ascending. intros Hk Hl. revert l' Hk.
  induction Hl as [|a l Hs IH Ha]; intros [|a' l'] Hk;
    [constructor|discriminate|discriminate|].
  cbn in Hk. injection Hk as Ha' Hk. constructor; [by apply IH|].
  apply (proj2 (Forall_keys key (fun t => key a' <= t) _)). rewrite <- Hk, <- Ha'.
  by apply (proj1 (Forall_keys key (fun t => key a <= t) _)).
Qed.

Lemma attach_timestamps r now R :
  map req_timestamp (attach r now R) = map req_timestamp R.
Proof.
  induction R as [|e R IH]; cbn; [done|].
  destruct (awaits_response r e); cbn; [done|]. by rewrite IH.
Qed.

Lemma ordered_until_later t t' logs :
  t <= t' -> ordered_until t logs -> ordered_until t' logs.
Proof.
  intros Ht (H1 & H2 & H3 & H4). repeat split; try done;
    (eapply Forall_impl; [eassumption|]); intros e He; cbn in *; lia.
Qed.

Lemma apply_handler_ordered h e now logs :
  ordered_until now logs -> ordered_until now (apply_handler h e now logs).
Proof.
  intros (H1 & H2 & H3 & H4). destruct logs as [L R]. cbn in *.
  destruct h, e as [m|r|r]; cbn; try done.
  - split; [|split; [done|split; [|done]]].
    + by apply ascending_snoc.
    + apply Forall_app. split; [done|]. repeat constructor. cbn. lia.
  - split; [done|split; [|split; [done|]]].
    + by apply ascending_snoc.
    + apply Forall_app. split; [done|]. repeat constructor. cbn. lia.
  - split; [done|split; [|split; [done|]]].
    + cbn [snd]. eapply ascending_by_keys; [|exact H2].
      symmetry. apply attach_timestamps.
    + apply (proj2 (Forall_keys req_timestamp (fun t => t <= now) _)).
      cbn [snd]. rewrite attach_timestamps.
      by apply (proj1 (Forall_keys req_timestamp (fun t => t <= now) _)).
Qed.

Lemma captured_ordered ls d logs :
  ordered_until (dl_now d) logs -> ordered_until (dl_now d) (captured ls d logs).
Proof.
  unfold captured. generalize (List.filter (listens d) ls). intros hs.
  revert logs. induction hs as [|l hs IH]; intros logs H; [done|].
  cbn. by apply IH, apply_handler_ordered.
Qed.

Lemma captured_all_ordered ls ds : forall logs,
  clock_ordered ds ->
  ascending log_timestamp (fst logs) -> ascending req_timestamp (snd logs) ->
  (forall d, In d ds -> ordered_until (dl_now d) logs) ->
  ascending log_timestamp (fst (captured_all ls ds logs))
  /\ ascending req_timestamp (snd (captured_all ls ds logs)).
Proof.
  unfold captured_all, clock_ordered.
  induction ds as [|d ds IH]; intros logs Hds HL HR Hbound; [done|].
  cbn [fold_left]. apply StronglySorted_inv in Hds as [Hds Hd].
  assert (Hnow : ordered_until (dl_now d) (captured ls d logs))
    by (apply captured_ordered, Hbound; by left).
  apply IH; [done|apply Hnow|apply Hnow|].
  intros d' Hd'. eapply ordered_until_later; [|exact Hnow].
  rewrite Forall_forall in Hd. apply Hd. by apply list_elem_of_In.
Qed.

(** X3: when the clock never goes back, delivering events keeps both logs
    in timestamp order, so the first sort of [get_console_logs] finds the
    log already ordered and leaves it as it is. *)
Theorem deliveries_keep_timestamp_order w ds L R :
  console_view w = Some L ->
  network_view w = Some R ->
  console_logs (self w) <> network_requests (self w) ->
  ascending log_timestamp L ->
  ascending req_timestamp R ->
  (forall d, In d ds -> ordered_until (dl_now d) (L, R)) ->
  clock_ordered ds ->
  exists L' R',
    console_view (emit_all ds w) = Some L'
    /\ network_view (emit_all ds w) = Some R'
    /\ ascending log_timestamp L'
    /\ ascending req_timestamp R'
    /\ sort_on log_timestamp false L' = L'.
Proof.
  intros HL HR Hne HaL HaR Hbound Hds.
  destruct (emit_all_refines ds w L R HL HR Hne) as (h' & -> & HL' & HR').
  destruct (captured_all_ordered (listeners w) ds (L, R) Hds HaL HaR Hbound)
    as [H1 H2].
  eexists _, _. split; [exact HL'|]. split; [exact HR'|].
  split; [done|]. split; [done|]. by apply sort_on_ascending_id.
Qed.

Lemma deliveries_keep_timestamp_order_witness :
  let w := one_page_open in
  let L := [LogEntry "log" "http://first" no_location 12] in
  let R := [RequestEntry "http://first" "GET" [] 10 "document" 7
                         (Some (ResponseEntry 200 "OK" [] 11))] in
  let ds := [Delivery 2%nat 12 (EConsole (ConsoleMessage "log" "again" no_location));
             Delivery 2%nat 13 (ERequest (Request "http://x/" "GET" [] "fetch" 8))] in
  console_view w = Some L /\ network_view w = Some R
  /\ clock_ordered ds
  /\ exists L' R',
      console_view (emit_all ds w) = Some L'
      /\ network_view (emit_all ds w) = Some R'
      /\ ascending log_timestamp L'
      /\ ascending req_timestamp R'
      /\ sort_on log_timestamp false L' = L'.
Proof.
  intros w L R ds.
  assert (Hds : clock_ordered ds).
  { unfold clock_ordered, ds. repeat constructor; cbn; lia. }
  split; [vm_compute; reflexivity|]. split; [vm_compute; reflexivity|].
  split; [exact Hds|].
  apply (deliveries_keep_timestamp_order w ds L R);
    [vm_compute; reflexivity|vm_compute; reflexivity|vm_compute; discriminate
    |repeat constructor|repeat constructor| |exact Hds].
  intros d Hd. unfold ordered_until, ascending. cbn.
  repeat split; repeat constructor; cbn;
    destruct Hd as [<-|[<-|[]]]; cbn; lia.
Defined.

(** ** What the network query hands out *)

Lemma sort_on_keys {A} (key : A -> timestamp) reverse (l : list A) :
  map key (sort_on key reverse l) = stable_sort (key_le id reverse) (map key l).
Proof. unfold sort_on. by rewrite <- (stable_sort_map key (key_le id reverse)). Qed.

Lemma slice_to_map {A B} (f : A -> B) (l : list A) n :
  map f (slice_to l n) = slice_to (map f l) n.
Proof.
  unfold slice_to. rewrite length_map.
  destruct (0 <=? n); symmetry; apply firstn_map.
Qed.

Lemma window_locs_holds {A} (proj : cell -> option A) (key : A -> timestamp)
    h items vals n :
  holds proj h items vals ->
  holds proj h (window_locs (map key vals) items n)
        (sort_on key false (slice_to (sort_on key true vals) n))
  /\ (forall l, l ∈ window_locs (map key vals) items n -> l ∈ items)
  /\ (NoDup items -> NoDup (window_locs (map key vals) items n)).
Proof.
  intros H.
  destruct (sort_locs_holds proj key h true items vals H) as [H1 P1].
  pose proof (holds_slice _ _ _ _ n H1) as H2.
  destruct (sort_locs_holds proj key h false _ _ H2) as [H3 P3].
  rewrite slice_to_map, sort_on_keys in H3, P3.
  split; [exact H3|]. unfold window_locs. split.
  - intros l Hl. rewrite P3 in Hl.
    rewrite <- P1. eapply elem_of_sublist; [exact Hl|]. apply slice_to_sublist.
  - intros Hnd. rewrite P3. eapply sublist_NoDup; [|apply slice_to_sublist].
    by rewrite P1.
Qed.

Lemma run_get_network_requests w n items R :
  list_at (heap w) (network_requests (self w)) = Some items ->
  holds as_req (heap w) items R ->
  exists out ext,
    get_network_requests n w = (Ok out, set_heap (heap w ++ ext) w)
    /\ (length (heap w) <= out)%nat
    /\ list_at (heap w ++ ext) out
       = Some (window_locs (map req_timestamp R) items n).
Proof.
  intros Hl Hh. unfold get_network_requests.
  rewrite (bind_ok get_self _ w _ w eq_refl).
  rewrite (bind_ok _ _ _ _ _ (run_load_list _ _ _ Hl)).
  destruct items as [|l0 items0].
  { apply Forall2_nil_inv_l in Hh as ->.
    exists (length (heap w)), [CList []]. split; [done|]. split; [done|].
    unfold window_locs, sort_locs. cbn. rewrite !slice_to_nil. cbn.
    apply list_at_new. }
  cbv beta iota.
  set (items := l0 :: items0) in *. clearbody items. clear l0 items0.
  destruct (sort_locs_holds as_req req_timestamp (heap w) true items R Hh)
    as [Hh1 _].
  pose proof (holds_slice _ _ _ _ n Hh1) as Hh2.
  exists (S (length (heap w))). eexists. split; [|split; [lia|]].
  - rewrite (bind_ok _ _ _ _ _
               (run_sorted as_req req_timestamp timestamp_key_req w true _ _ _ Hl Hh)).
    erewrite (bind_ok (list_slice_to _ _)); cycle 1.
    { apply run_list_slice_to. apply list_at_new. }
    erewrite (bind_ok (list_sort _ _ _)); cycle 1.
    { apply (run_list_sort as_req req_timestamp timestamp_key_req).
      - cbn. apply list_at_new.
      - cbn. rewrite <- app_assoc. apply holds_app. exact Hh2. }
    unfold ret, set_heap. cbn. rewrite store_last, <- app_assoc. cbn.
    rewrite length_app. cbn. rewrite Nat.add_1_r. reflexivity.
  - replace (S (length (heap w)))
      with (length (heap w ++ [CList (sort_locs true (map req_timestamp R) items)]))
      by (rewrite length_app; cbn; lia).
    match goal with |- list_at (?h ++ [?a; ?b]) _ = _ =>
      change (h ++ [a; b]) with (h ++ [a] ++ [b]) end.
    rewrite app_assoc, list_at_new. unfold window_locs.
    by rewrite slice_to_map, sort_on_keys.
Qed.

(** X6: the list [get_network_requests] returns holds the stored exchanges
    themselves, not copies: a response that arrives after the query shows
    in the list the query returned before. *)
Theorem network_results_are_live w n r now R :
  network_view w = Some R ->
  exists out w1 w2,
    get_network_requests n w = (Ok out, w1)
    /\ reqs_at (heap w1) out = Some (network_result R n)
    /\ _handle_response r now w1 = (Ok tt, w2)
    /\ reqs_at (heap w2) out = Some (network_result (attach r now R) n).
Proof.
  intros (items & Hl & Hnd & Hh)%dicts_at_Some.
  destruct (run_get_network_requests w n items R Hl Hh) as (out & ext & Hrun & Hout & Hlist).
  set (w1 := set_heap (heap w ++ ext) w) in *.
  assert (Hl1 : list_at (heap w1) (network_requests (self w1)) = Some items)
    by (by apply obj_at_app).
  assert (Hh1 : holds as_req (heap w1) items R) by (by apply holds_app).
  destruct (handle_response_loop_spec r now items R w1 Hh1 Hnd)
    as (h' & Hrun2 & Hh' & _ & Hlist' & _).
  exists out, w1, (set_heap h' w1). split; [done|]. split; [|split].
  - apply dicts_at_Some. eexists. split; [exact Hlist|].
    destruct (window_locs_holds as_req req_timestamp _ _ _ n Hh1) as (H1 & _ & H3).
    split; [by apply H3|exact H1].
  - unfold _handle_response.
    rewrite (bind_ok get_self _ w1 _ w1 eq_refl).
    by rewrite (bind_ok _ _ _ _ _ (run_load_list _ _ _ Hl1)).
  - apply dicts_at_Some. eexists. split; [cbn; rewrite Hlist'; exact Hlist|].
    destruct (window_locs_holds as_req req_timestamp _ _ _ n Hh') as (H1 & _ & H3).
    rewrite attach_timestamps in H1, H3.
    split; [by apply H3|exact H1].
Qed.

Lemma network_results_are_live_witness :
  let R := [get_request "http://x/" 0 1; get_request "http://y/" 1 2] in
  let w := session_with [] R in
  let r := Response "http://y/" 200 "OK" [] in
  network_view w = Some R
  /\ exists out w1 w2,
      get_network_requests 1 w = (Ok out, w1)
      /\ reqs_at (heap w1) out = Some [get_request "http://y/" 1 2]
      /\ _handle_response r 2 w1 = (Ok tt, w2)
      /\ reqs_at (heap w2) out
         = Some [with_response (get_request "http://y/" 1 2) (ResponseEntry 200 "OK" [] 2)].
Proof.
  intros R w r. split; [reflexivity|].
  destruct (network_results_are_live w 1 r 2 R eq_refl)
    as (out & w1 & w2 & H1 & H2 & H3 & H4).
  exists out, w1, w2. split; [exact H1|]. split; [exact H2|]. split; [exact H3|exact H4].
Defined.

(** ** The first version of the queries *)

(** X20: in [mcp_playwright.py] the two queries return the stored lists
    themselves, whole and in stored order, and change nothing; what a
    handler appends afterwards shows in the list a caller already holds. *)
Theorem legacy_queries_return_the_buffers w L R :
  console_view w = Some L ->
  network_view w = Some R ->
  console_logs (self w) <> network_requests (self w) ->
  exists c n,
    Legacy.get_console_logs w = (Ok c, w)
    /\ Legacy.get_network_requests w = (Ok n, w)
    /\ logs_at (heap w) c = Some L
    /\ reqs_at (heap w) n = Some R
    /\ (forall m now,
          logs_at (heap (snd (_handle_console_message m now w))) c
          = Some (L ++ [LogEntry (msg_type m) (msg_text m) (msg_location m) now]))
    /\ (forall r now,
          reqs_at (heap (snd (_handle_request r now w))) n
          = Some (R ++ [RequestEntry (rq_url r) (rq_method r) (rq_headers r) now
                                     (rq_resource_type r) (rq_id r) None])).
Proof.
  intros HL HR Hne.
  pose proof HL as (citems & Hc & Hcnd & Hch)%dicts_at_Some.
  pose proof HR as (nitems & Hn & Hnnd & Hnh)%dicts_at_Some.
  exists (console_logs (self w)), (network_requests (self w)).
  split; [done|]. split; [done|]. split; [exact HL|]. split; [exact HR|]. split.
  - intros m now. rewrite (run_handle_console_message _ _ _ _ Hc). cbn [snd set_heap heap].
    destruct (append_new as_log (fun _ => eq_refl) (heap w) _ citems L
                (CLog (LogEntry (msg_type m) (msg_text m) (msg_location m) now)) _
                eq_refl Hc Hch Hcnd) as (H1 & H2 & H3).
    apply dicts_at_Some. eexists. split; [exact H1|]. split; [exact H3|exact H2].
  - intros r now. rewrite (run_handle_request _ _ _ _ Hn). cbn [snd set_heap heap].
    destruct (append_new as_req (fun _ => eq_refl) (heap w) _ nitems R
                (CReq (RequestEntry (rq_url r) (rq_method r) (rq_headers r) now
                                    (rq_resource_type r) (rq_id r) None)) _
                eq_refl Hn Hnh Hnnd) as (H1 & H2 & H3).
    apply dicts_at_Some. eexists. split; [exact H1|]. split; [exact H3|exact H2].
Qed.

Lemma legacy_queries_return_the_buffers_witness :
  let L := [entry "log" "a" 0; entry "log" "a" 1] in
  let R := [get_request "http://x/" 0 1] in
  let w := session_with L R in
  console_view w = Some L /\ network_view w = Some R
  /\ console_logs (self w) <> network_requests (self w)
  /\ exists c n,
      Legacy.get_console_logs w = (Ok c, w)
      /\ Legacy.get_network_requests w = (Ok n, w)
      /\ logs_at (heap w) c = Some L
      /\ reqs_at (heap w) n = Some R
      /\ (forall m now,
            logs_at (heap (snd (_handle_console_message m now w))) c
            = Some (L ++ [LogEntry (msg_type m) (msg_text m) (msg_location m) now]))
      /\ (forall r now,
            reqs_at (heap (snd (_handle_request r now w))) n
            = Some (R ++ [RequestEntry (rq_url r) (rq_method r) (rq_headers r) now
                                       (rq_resource_type r) (rq_id r) None])).
Proof.
  split; [reflexivity|]. split; [reflexivity|]. split; [discriminate|].
  apply legacy_queries_return_the_buffers; [reflexivity|reflexivity|discriminate].
Defined.

(** ** What the groups keep of the log *)

Lemma dedup_step_sound logs acc e :
  In e logs ->
  Forall (group_sound logs) acc ->
  Forall (group_sound logs) (dedup_step acc e).
Proof.
  intros He Hacc.
  assert (Hnew : group_sound logs (new_group e)).
  { split; [done|]. split; [done|]. by exists e. }
  destruct acc as [|g acc]; cbn; [by constructor|].
  destruct (differs e g); [by constructor|].
  apply Forall_cons in Hacc as [(Hc & Hh & e0 & H0) Hacc].
  constructor; [|done]. split; [|split].
  - cbn. rewrite length_app, Hc. cbn. lia.
  - cbn. destruct (grp_timestamps g); [done|]. exact Hh.
  - by exists e0.
Qed.

Lemma dedup_fold_sound logs Ls : forall acc,
  (forall e, In e Ls -> In e logs) ->
  Forall (group_sound logs) acc ->
  Forall (group_sound logs) (fold_left dedup_step Ls acc).
Proof.
  induction Ls as [|e Ls IH]; intros acc Hin Hacc; [done|].
  cbn. apply IH.
  - intros e' He'. apply Hin. by right.
  - apply dedup_step_sound; [|done]. apply Hin. by left.
Qed.

Lemma dedup_fold_length Ls : forall acc,
  (length (fold_left dedup_step Ls acc) <= length acc + length Ls)%nat.
Proof.
  induction Ls as [|e Ls IH]; intros acc; cbn; [lia|].
  etrans; [apply IH|].
  destruct acc as [|g acc]; cbn; [lia|]. destruct (differs e g); cbn; lia.
Qed.

Lemma deduplicate_length logs : (length (deduplicate logs) <= length logs)%nat.
Proof.
  unfold deduplicate. rewrite length_rev.
  etrans; [apply dedup_fold_length|]. cbn. lia.
Qed.

Lemma console_result_part L n :
  let groups := deduplicate (sort_on log_timestamp false L) in
  Forall (fun g => In g groups) (console_result L n)
  /\ (length (console_result L n) <= length groups)%nat.
Proof.
  intros groups. unfold console_result. fold groups.
  assert (Hsub : sublist (slice_to (sort_on grp_timestamp true groups) n)
                         (sort_on grp_timestamp true groups))
    by apply slice_to_sublist.
  split.
  - apply Forall_forall. intros g Hg.
    rewrite sort_on_perm in Hg. eapply elem_of_sublist in Hg; [|exact Hsub].
    rewrite sort_on_perm in Hg. by apply list_elem_of_In.
  - rewrite sort_on_length. apply sublist_length in Hsub.
    by rewrite sort_on_length in Hsub.
Qed.

Lemma deduplicate_sound L :
  Forall (group_sound L) (deduplicate (sort_on log_timestamp false L)).
Proof.
  unfold deduplicate. apply Forall_rev, dedup_fold_sound; [|constructor].
  intros e He. apply list_elem_of_In. apply list_elem_of_In in He.
  by rewrite sort_on_perm in He.
Qed.

(** X7: every record [get_console_logs] returns, for any [last_n], stands
    for entries of the stored log: its count is the number of timestamps it
    lists, its timestamp is the first of them, and its kind, location and
    timestamp are those of one stored entry.  There are never more records
    than stored entries. *)
Theorem returned_groups_are_sound w n L :
  console_view w = Some L ->
  exists out w' res,
    get_console_logs n w = (Ok out, w')
    /\ groups_at (heap w') out = Some res
    /\ Forall (group_sound L) res
    /\ (length res <= length L)%nat.
Proof.
  intros HL.
  destruct (get_console_logs_refines w n L HL) as (out & w' & Hrun & Hout).
  exists out, w', (console_result L n). split; [done|]. split; [done|].
  destruct (console_result_part L n) as [Hin Hlen].
  pose proof (deduplicate_sound L) as Hs. rewrite Forall_forall in Hs. split.
  - eapply Forall_impl; [exact Hin|]. intros g Hg. apply Hs. by apply list_elem_of_In.
  - etrans; [exact Hlen|]. etrans; [apply deduplicate_length|].
    by rewrite sort_on_length.
Qed.

Lemma returned_groups_are_sound_witness :
  let L := [entry "info" "a" 0; entry "info" "a" 1; entry "info" "a" 2] in
  let w := session_with L [] in
  console_view w = Some L
  /\ exists out w' res,
      get_console_logs 1 w = (Ok out, w')
      /\ groups_at (heap w') out = Some res
      /\ Forall (group_sound L) res
      /\ (length res <= length L)%nat.
Proof.
  split; [reflexivity|]. apply returned_groups_are_sound. reflexivity.
Defined.

(** ** Every entry is counted once *)

Lemma dedup_fold_timestamps Ls : forall acc,
  concat (map grp_timestamps (rev (fold_left dedup_step Ls acc)))
  = concat (map grp_timestamps (rev acc)) ++ map log_timestamp Ls.
Proof.
  induction Ls as [|e Ls IH]; intros acc; cbn [fold_left map].
  { by rewrite app_nil_r. }
  rewrite IH. rewrite (app_assoc _ [log_timestamp e] _ : _ ++ log_timestamp e :: _ = _).
  f_equal.
  destruct acc as [|g acc]; cbn [dedup_step]; [done|].
  destruct (differs e g); cbn [rev]; rewrite !map_app, !concat_app; cbn.
  - by rewrite !app_nil_r.
  - rewrite !app_nil_r. by rewrite app_assoc.
Qed.

Lemma total_count_timestamps logs groups :
  Forall (group_sound logs) groups ->
  total_count groups = Z.of_nat (length (concat (map grp_timestamps groups))).
Proof.
  unfold total_count. induction 1 as [|g groups (Hc & _) _ IH]; cbn; [done|].
  rewrite length_app, IH, Hc. lia.
Qed.

(** X8: when [last_n] is at least the number of stored entries, the
    returned records list the timestamps of all stored entries, each once
    and in timestamp order, and their counts add up to the number of stored
    entries: the grouping loses no entry and counts none twice. *)
Theorem every_entry_is_counted_once w n L :
  console_view w = Some L ->
  Z.of_nat (length L) <= n ->
  exists out w' res,
    get_console_logs n w = (Ok out, w')
    /\ groups_at (heap w') out = Some res
    /\ concat (map grp_timestamps res) = map log_timestamp (sort_on log_timestamp false L)
    /\ total_count res = Z.of_nat (length L).
Proof.
  intros HL Hn.
  destruct (get_console_logs_refines w n L HL) as (out & w' & Hrun & Hout).
  pose proof (deduplicate_length (sort_on log_timestamp false L)) as Hlen.
  rewrite sort_on_length in Hlen.
  set (groups := deduplicate (sort_on log_timestamp false L)) in *.
  assert (Hres : console_result L n = groups).
  { apply console_result_all. fold groups. lia. }
  exists out, w', groups. split; [done|]. split; [by rewrite <- Hres|].
  assert (Hts : concat (map grp_timestamps groups)
                = map log_timestamp (sort_on log_timestamp false L))
    by apply (dedup_fold_timestamps _ []).
  split; [done|].
  rewrite (total_count_timestamps L) by apply deduplicate_sound.
  fold groups. by rewrite Hts, length_map, sort_on_length.
Qed.

Lemma every_entry_is_counted_once_witness :
  let L := [entry "info" "a" 0; entry "info" "a" 1; entry "info" "a" 2;
            entry "info" "b" 3] in
  let w := session_with L [] in
  console_view w = Some L /\ Z.of_nat (length L) <= 4
  /\ exists out w' res,
      get_console_logs 4 w = (Ok out, w')
      /\ groups_at (heap w') out = Some res
      /\ concat (map grp_timestamps res) = map log_timestamp (sort_on log_timestamp false L)
      /\ total_count res = Z.of_nat (length L).
Proof.
  split; [reflexivity|]. split; [vm_compute; discriminate|].
  apply every_entry_is_counted_once; [reflexivity|vm_compute; discriminate].
Defined.

(** ** Logs without repeats *)

Lemma differs_new_group e e' :
  ~ same_message e e' -> differs e' (new_group e) = true.
Proof.
  intros Hne. unfold differs, same_message in *. cbn.
  destruct (String.eqb_spec (log_type e') (log_type e)) as [Ht|]; [|done].
  destruct (String.eqb_spec (log_text e') (log_text e)) as [Hx|]; [|done].
  destruct Hne. by split.
Qed.

Lemma dedup_fold_no_repeat Ls : forall acc,
  Sorted (fun a b => ~ same_message a b) Ls ->
  (forall g e, head acc = Some g -> head Ls = Some e -> differs e g = true) ->
  fold_left dedup_step Ls acc = rev (map new_group Ls) ++ acc.
Proof.
  induction Ls as [|e Ls IH]; intros acc Hs Hd; [done|].
  apply Sorted_inv in Hs as [Hs He]. cbn [fold_left map rev].
  assert (Hstep : dedup_step acc e = new_group e :: acc).
  { destruct acc as [|g acc]; [done|]. cbn. by rewrite (Hd g e). }
  rewrite Hstep, IH, <- app_assoc; [done|done|].
  intros g e' [= <-] He'. apply differs_new_group.
  destruct Ls as [|e'' Ls]; [done|]. cbn in He'. injection He' as ->.
  by apply HdRel_inv in He.
Qed.

(** X9: a log in timestamp order in which no entry has the kind and text
    of the entry before it comes back entry for entry, each as a record
    with count 1 and its own text, once [last_n] covers it. *)
Theorem log_without_repeats_is_returned_as_is w n L :
  console_view w = Some L ->
  ascending log_timestamp L ->
  Sorted (fun a b => ~ same_message a b) L ->
  Z.of_nat (length L) <= n ->
  exists out w',
    get_console_logs n w = (Ok out, w')
    /\ groups_at (heap w') out = Some (map new_group L).
Proof.
  intros HL Hasc Hs Hn.
  destruct (get_console_logs_refines w n L HL) as (out & w' & Hrun & Hout).
  exists out, w'. split; [done|]. rewrite Hout. f_equal.
  assert (Hg : deduplicate (sort_on log_timestamp false L) = map new_group L).
  { rewrite sort_on_ascending_id by done. unfold deduplicate.
    rewrite dedup_fold_no_repeat by done.
    by rewrite app_nil_r, rev_involutive. }
  rewrite console_result_all; rewrite Hg; [done|]. by rewrite length_map.
Qed.

Lemma log_without_repeats_is_returned_as_is_witness :
  let L := [entry "info" "a" 0; entry "error" "a" 1; entry "error" "b" 2;
            entry "info" "a" 3] in
  let w := session_with L [] in
  console_view w = Some L /\ Z.of_nat (length L) <= 10
  /\ exists out w',
      get_console_logs 10 w = (Ok out, w')
      /\ groups_at (heap w') out = Some (map new_group L).
Proof.
  intros L w. split; [reflexivity|]. split; [vm_compute; discriminate|].
  apply log_without_repeats_is_returned_as_is;
    [reflexivity| | |vm_compute; discriminate].
  - unfold ascending, L. repeat (constructor; [|repeat constructor; cbn; lia]). constructor.
  - unfold L. repeat constructor; intros [H1 H2]; discriminate.
Defined.

(** ** The window of the console query *)

Lemma decreasing_rev {A} (key : A -> timestamp) (l : list A) :
  StronglySorted (fun a b => key b < key a) l -> increasing key (rev l).
Proof.
  unfold increasing. induction 1 as [|a l Hs IH Ha]; cbn; [constructor|].
  apply StronglySorted_app. split; [|split]; [|done|repeat constructor].
  intros x y Hx ->%list_elem_of_singleton.
  rewrite Forall_forall in Ha. apply Ha.
  apply list_elem_of_In in Hx. apply in_rev in Hx. by apply list_elem_of_In.
Qed.

Lemma dedup_fold_increasing logs : forall acc,
  increasing log_timestamp logs ->
  StronglySorted (fun a b => grp_timestamp b < grp_timestamp a) acc ->
  (forall g e, In g acc -> In e logs -> grp_timestamp g < log_timestamp e) ->
  increasing grp_timestamp (rev (fold_left dedup_step logs acc)).
Proof.
  induction logs as [|e logs IH]; intros acc Hlogs Hacc Hlt; cbn [fold_left].
  { by apply decreasing_rev. }
  apply StronglySorted_inv in Hlogs as [Hlogs He].
  rewrite Forall_forall in He.
  assert (Hnew : forall g, In g acc -> grp_timestamp g < log_timestamp e)
    by (intros g Hg; apply Hlt; [done|by left]).
  apply IH; [done| |].
  - destruct acc as [|g acc]; cbn.
    { repeat constructor. }
    destruct (differs e g).
    + constructor; [done|]. apply Forall_forall. intros b Hb. cbn.
      apply Hnew. by apply list_elem_of_In.
    + apply StronglySorted_inv in Hacc as [Hacc Hg]. by constructor.
  - intros g e' Hg He'.
    assert (Hee' : log_timestamp e < log_timestamp e')
      by (apply He; by apply list_elem_of_In).
    assert (Hold : forall g', In g' acc -> grp_timestamp g' < log_timestamp e')
      by (intros g' Hin; apply Hlt; [done|by right]).
    destruct acc as [|g0 acc]; cbn in Hg.
    { destruct Hg as [<-|[]]. done. }
    destruct (differs e g0); cbn in Hg.
    + destruct Hg as [<-|Hg]; [done|]. by apply Hold.
    + destruct Hg as [<-|Hg]; [|apply Hold; by right].
      cbn. apply Hold. by left.
Qed.

Lemma deduplicate_increasing logs :
  increasing log_timestamp logs -> increasing grp_timestamp (deduplicate logs).
Proof.
  intros H. apply dedup_fold_increasing; [done|constructor|]. by intros g e [].
Qed.

(** X10: for a positive [last_n], [get_console_logs] returns
    [min last_n (number of groups)] of the groups of the log; no group left
    out is more recent than a returned one and the returned ones are
    ordered oldest first.  On a log with increasing timestamps they are the
    last groups, in order: the window counts groups, not entries. *)
Theorem get_console_logs_most_recent_groups w n L :
  console_view w = Some L ->
  0 < n ->
  let groups := deduplicate (sort_on log_timestamp false L) in
  exists out w' res rest,
    get_console_logs n w = (Ok out, w')
    /\ groups_at (heap w') out = Some res
    /\ length res = Nat.min (Z.to_nat n) (length groups)
    /\ Permutation groups (rest ++ res)
    /\ (forall x y, In x res -> In y rest -> grp_timestamp y <= grp_timestamp x)
    /\ ascending grp_timestamp res
    /\ (increasing log_timestamp L ->
        res = drop (length (deduplicate L) - Z.to_nat n) (deduplicate L)).
Proof.
  intros HL Hn groups.
  destruct (get_console_logs_refines w n L HL) as (out & w' & Hrun & Hout).
  destruct (window_most_recent grp_timestamp groups n Hn) as (rest & H1 & H2 & H3 & H4).
  exists out, w', (console_result L n), rest.
  repeat split; try done.
  intros Hinc. unfold console_result.
  rewrite (sort_on_ascending_id log_timestamp L) by (by apply increasing_ascending).
  apply window_suffix; [done|]. by apply deduplicate_increasing.
Qed.

Lemma get_console_logs_most_recent_groups_witness :
  let L := [entry "info" "a" 0; entry "info" "a" 1; entry "info" "b" 2;
            entry "info" "c" 3] in
  let w := session_with L [] in
  let groups := deduplicate (sort_on log_timestamp false L) in
  console_view w = Some L /\ 0 < 2
  /\ exists out w' res rest,
      get_console_logs 2 w = (Ok out, w')
      /\ groups_at (heap w') out = Some res
      /\ length res = Nat.min (Z.to_nat 2) (length groups)
      /\ Permutation groups (rest ++ res)
      /\ (forall x y, In x res -> In y rest -> grp_timestamp y <= grp_timestamp x)
      /\ ascending grp_timestamp res
      /\ (increasing log_timestamp L ->
          res = drop (length (deduplicate L) - Z.to_nat 2) (deduplicate L)).
Proof.
  split; [reflexivity|]. split; [lia|].
  apply get_console_logs_most_recent_groups; [reflexivity|lia].
Defined.

(** ** Starting the browser *)

Ltac run_step :=
  first
    [ rewrite (bind_ok get_self _ _ _ _ eq_refl)
    | rewrite (bind_ok (put_self _) _ _ _ _ eq_refl)
    | rewrite (bind_ok (alloc _) _ _ _ _ eq_refl)
    | rewrite (bind_ok (ret _) _ _ _ _ eq_refl)
    | rewrite (bind_ok (page_on _ _ _) _ _ _ _ eq_refl)
    | rewrite bind_assoc ];
  unfold set_heap, set_self;
  cbn [heap self listeners calls playwright browser page
       console_logs network_requests is_initialized headless].

Ltac await_gives E :=
  match goal with
  | |- context [bind (await ?provider ?c) _ ?w] =>
      let h' := fresh "h" in
      let Eh := fresh "Eh" in
      destruct (await_ok provider c w _ E) as [h' Eh];
      rewrite (bind_ok _ _ _ _ _ Eh); clear Eh;
      cbn [heap self listeners calls]
  end.

Ltac await_cases :=
  match goal with
  | |- context [bind (await ?provider ?c) _ ?w] =>
      let h' := fresh "h" in
      let Hrun := fresh "Hrun" in
      destruct (run_await provider c w) as (h' & Hrun & _);
      cbn [heap self listeners calls] in Hrun;
      match type of Hrun with
      | context [result ?r] =>
          destruct (result r);
          [ rewrite (bind_ok _ _ _ _ _ Hrun)
          | rewrite (bind_raise _ _ _ _ _ Hrun) ]
      end;
      clear Hrun
  end.

Section Starting.
Variable provider : list call -> call -> reply.

Lemma await_raise c w :
  result (provider (calls w) c) = None ->
  exists h', await provider c w
             = (Raise (ProviderError c),
                World h' (self w) (listeners w) (calls w ++ [c])).
Proof.
  intros E. destruct (run_await provider c w) as (h' & Hrun & _). exists h'.
  by rewrite Hrun, E.
Qed.

Lemma initialize_run w pw b :
  is_initialized (self w) = false ->
  let opts := if headless (self w) then [("headless"%string, true)] else [] in
  result (provider (calls w) StartPlaywright) = Some pw ->
  result (provider (calls w ++ [StartPlaywright]) (ChromiumLaunch pw opts)) = Some b ->
  exists h',
    initialize provider w
    = (Ok tt,
       World h' (Manager (Some pw) (Some b) (page (self w)) (console_logs (self w))
                         (network_requests (self w)) true (headless (self w)))
             (listeners w) (calls w ++ [StartPlaywright; ChromiumLaunch pw opts])).
Proof.
  destruct w as [h [pw0 b0 p c n init hl] ls cs].
  cbn [heap self listeners calls playwright browser page
       console_logs network_requests is_initialized headless].
  intros -> E1 E2.
  unfold initialize at 1. run_step.
  await_gives E1.
  do 3 run_step.
  await_gives E2.
  repeat run_step.
  eexists. unfold put_self, set_self. cbn [heap self listeners calls].
  by rewrite <- app_assoc.
Qed.

(** X11: on a session that is not initialised, when the driver starts and
    the browser launches, [initialize] makes exactly these two calls, the
    launch with [headless=True] only if the manager was built headless,
    keeps both handles and marks the session initialised; the page and
    the logs' lists are the ones it found.  A second [initialize] then
    calls nobody and changes nothing. *)
Theorem initialize_starts_once w pw b :
  is_initialized (self w) = false ->
  let opts := if headless (self w) then [("headless"%string, true)] else [] in
  result (provider (calls w) StartPlaywright) = Some pw ->
  result (provider (calls w ++ [StartPlaywright]) (ChromiumLaunch pw opts)) = Some b ->
  exists w',
    initialize provider w = (Ok tt, w')
    /\ self w' = Manager (Some pw) (Some b) (page (self w)) (console_logs (self w))
                         (network_requests (self w)) true (headless (self w))
    /\ listeners w' = listeners w
    /\ calls w' = calls w ++ [StartPlaywright; ChromiumLaunch pw opts]
    /\ initialize provider w' = (Ok tt, w').
Proof.
  intros Hi opts E1 E2.
  destruct (initialize_run w pw b Hi E1 E2) as [h' Hrun].
  eexists. split; [exact Hrun|]. by repeat split.
Qed.

(** X12: when the browser does not launch, [initialize] raises with the
    driver it has just started kept in [self.playwright] and the session
    still not initialised, so the next [initialize] starts a driver
    again, without stopping the first. *)
Theorem failed_launch_keeps_the_driver w pw :
  is_initialized (self w) = false ->
  let opts := if headless (self w) then [("headless"%string, true)] else [] in
  result (provider (calls w) StartPlaywright) = Some pw ->
  result (provider (calls w ++ [StartPlaywright]) (ChromiumLaunch pw opts)) = None ->
  exists w',
    initialize provider w = (Raise (ProviderError (ChromiumLaunch pw opts)), w')
    /\ playwright (self w') = Some pw
    /\ browser (self w') = browser (self w)
    /\ is_initialized (self w') = false
    /\ calls w' = calls w ++ [StartPlaywright; ChromiumLaunch pw opts]
    /\ exists rest,
        calls (snd (initialize provider w')) = calls w' ++ StartPlaywright :: rest.
Proof.
  destruct w as [h [pw0 b0 p c n init hl] ls cs].
  cbn [heap self listeners calls playwright browser page
       console_logs network_requests is_initialized headless].
  intros -> E1 E2.
  unfold initialize at 1. run_step.
  await_gives E1.
  do 3 run_step.
  destruct (await_raise (ChromiumLaunch pw (if hl then [("headless"%string, true)] else []))
              (World h0 (Manager (Some pw) b0 p c n false hl) ls (cs ++ [StartPlaywright])) E2)
    as [h2 Eh2].
  cbn [heap self listeners calls] in Eh2.
  rewrite (bind_raise _ _ _ _ _ Eh2).
  eexists. split; [reflexivity|].
  cbn [heap self listeners calls playwright browser page is_initialized].
  rewrite <- app_assoc.
  do 4 (split; [reflexivity|]).
  unfold initialize. run_step.
  await_cases; [|by eexists].
  do 3 run_step.
  await_cases; [repeat run_step|]; eexists; cbn [snd calls];
    rewrite <- !app_assoc; reflexivity.
Qed.
End Starting.

Lemma initialize_starts_once_witness :
  exists w',
    initialize quiet_provider new_session = (Ok tt, w')
    /\ self w' = Manager (Some 0%nat) (Some 1%nat) None 0%nat 1%nat true true
    /\ listeners w' = []
    /\ calls w' = [StartPlaywright; ChromiumLaunch 0%nat [("headless"%string, true)]]
    /\ initialize quiet_provider w' = (Ok tt, w').
Proof.
  exact (initialize_starts_once quiet_provider new_session 0%nat 1%nat
           eq_refl eq_refl eq_refl).
Defined.

Lemma failed_launch_keeps_the_driver_witness :
  let launch := ChromiumLaunch 0%nat [("headless"%string, true)] in
  exists w',
    initialize (failing_on is_launch) new_session = (Raise (ProviderError launch), w')
    /\ playwright (self w') = Some 0%nat
    /\ browser (self w') = None
    /\ is_initialized (self w') = false
    /\ calls w' = [StartPlaywright; launch]
    /\ exists rest,
        calls (snd (initialize (failing_on is_launch) w'))
        = calls w' ++ StartPlaywright :: rest.
Proof.
  exact (failed_launch_keeps_the_driver (failing_on is_launch) new_session 0%nat
           eq_refl eq_refl eq_refl).
Defined.

(** ** Releases that fail *)

Ltac await_succeeds Hok :=
  match goal with
  | |- context [bind (await ?provider ?c) _ ?w] =>
      let x := fresh "x" in
      let E := fresh "E" in
      let h' := fresh "h" in
      let Eh := fresh "Eh" in
      destruct (result (provider (calls w) c)) as [x|] eqn:E;
      [ destruct (await_ok provider c w x E) as [h' Eh];
        rewrite (bind_ok _ _ _ _ _ Eh); clear Eh E;
        cbn [heap self listeners calls]
      | exfalso; eapply Hok; [| |exact E];
        [apply list_elem_of_In; cbn; intuition|reflexivity] ]
  end.

Section Failing.
Variable provider : list call -> call -> reply.

(** One provider call on an explicit world, with what the handlers make
    of its deliveries. *)
Lemma await_step c h s ls cs L R :
  console_view (World h s ls cs) = Some L ->
  network_view (World h s ls cs) = Some R ->
  console_logs s <> network_requests s ->
  let logs := captured_all ls (deliveries (provider cs c)) (L, R) in
  exists h',
    await provider c (World h s ls cs)
    = (match result (provider cs c) with
       | Some x => Ok x
       | None => Raise (ProviderError c)
       end, World h' s ls (cs ++ [c]))
    /\ console_view (World h' s ls (cs ++ [c])) = Some (fst logs)
    /\ network_view (World h' s ls (cs ++ [c])) = Some (snd logs).
Proof.
  intros HL HR Hne logs.
  destruct (run_await provider c (World h s ls cs)) as (h' & Hrun & Hviews).
  exists h'. split; [exact Hrun|]. exact (Hviews L R HL HR Hne).
Qed.

(** X16: when closing the page raises, [close] stops there: the browser
    and the driver are not released, no attribute of the manager changes
    (the page stays set, the session initialised) and the logs are not
    cleared. *)
Theorem close_stops_at_a_failed_page_close w p L R :
  page (self w) = Some p ->
  result (provider (calls w) (PageClose p)) = None ->
  console_view w = Some L -> network_view w = Some R ->
  console_logs (self w) <> network_requests (self w) ->
  let logs := captured_all (listeners w) (deliveries (provider (calls w) (PageClose p))) (L, R) in
  exists w',
    close provider w = (Raise (ProviderError (PageClose p)), w')
    /\ self w' = self w
    /\ listeners w' = listeners w
    /\ calls w' = calls w ++ [PageClose p]
    /\ console_view w' = Some (fst logs)
    /\ network_view w' = Some (snd logs).
Proof.
  destruct w as [h [pw b p0 c n init hl] ls cs].
  cbn [heap self listeners calls playwright browser page
       console_logs network_requests is_initialized headless].
  intros -> E HL HR Hne.
  destruct (await_step (PageClose p) _ _ _ _ _ _ HL HR Hne) as (h' & Hrun & HL' & HR').
  rewrite E in Hrun.
  unfold close. run_step. cbv iota.
  rewrite bind_assoc.
  rewrite (bind_raise _ _ _ _ _ Hrun).
  eexists. split; [reflexivity|]. by repeat split.
Qed.

(** X17: when the page and the browser close but the driver does not
    stop, [close] raises after dropping the page and the browser, with
    the driver kept, the session still marked initialised and the two
    lists of the logs not replaced.  The next [open_url] skips
    [initialize], replaces the logs by empty ones, and fails on the
    missing browser without calling the provider. *)
Theorem failed_stop_leaves_no_browser w pw url :
  is_initialized (self w) = true ->
  playwright (self w) = Some pw ->
  (forall history c, c ∈ releases (self w) -> is_stop c = false ->
                     result (provider history c) <> None) ->
  (forall history, result (provider history (PlaywrightStop pw)) = None) ->
  exists w',
    close provider w = (Raise (ProviderError (PlaywrightStop pw)), w')
    /\ self w' = Manager (Some pw) None None (console_logs (self w))
                         (network_requests (self w)) true (headless (self w))
    /\ calls w' = calls w ++ releases (self w)
    /\ exists w'',
        open_url provider url w' = (Raise AttributeError, w'')
        /\ calls w'' = calls w'
        /\ self w'' = Manager (Some pw) None None (console_logs (self w''))
                              (network_requests (self w'')) true (headless (self w))
        /\ console_view w'' = Some [] /\ network_view w'' = Some [].
Proof.
  destruct w as [h [pw0 b p c n init hl] ls cs]. unfold releases.
  cbn [heap self listeners calls playwright browser page
       console_logs network_requests is_initialized headless].
  intros -> [= ->] Hok Hstop.
  assert (Hfail : forall w0, exists h',
    await provider (PlaywrightStop pw) w0
    = (Raise (ProviderError (PlaywrightStop pw)),
       World h' (self w0) (listeners w0) (calls w0 ++ [PlaywrightStop pw]))).
  { intros w0. apply await_raise, Hstop. }
  unfold close.
  destruct p as [p|], b as [b|];
    repeat (run_step || await_succeeds Hok);
    match goal with
    | |- context [bind (await provider (PlaywrightStop pw)) _ ?w0] =>
        destruct (Hfail w0) as [h' Hrun];
        cbn [heap self listeners calls] in Hrun;
        rewrite (bind_raise _ _ _ _ _ Hrun)
    end;
    (eexists; split; [reflexivity|]; split; [reflexivity|];
     split; [cbn; by rewrite <- ?app_assoc|]);
    unfold open_url; repeat run_step;
    (eexists; split; [reflexivity|]; split; [reflexivity|];
     split; [reflexivity|]);
    match goal with
    | |- context [World ((?h0 ++ _) ++ _) ?s ?ls0 ?cs0] =>
        destruct (fresh_views h0 s ls0 cs0 eq_refl eq_refl) as (HL & HR & _)
    end; by split.
Qed.

(** X14: when closing the page that is open raises, [open_url] stops
    before it clears anything: the logs keep their entries, the manager
    its attributes, no page is created and no listener added. *)
Theorem open_url_stops_at_a_failed_page_close w url p L R :
  is_initialized (self w) = true ->
  page (self w) = Some p ->
  result (provider (calls w) (PageClose p)) = None ->
  console_view w = Some L -> network_view w = Some R ->
  console_logs (self w) <> network_requests (self w) ->
  let logs := captured_all (listeners w) (deliveries (provider (calls w) (PageClose p))) (L, R) in
  exists w',
    open_url provider url w = (Raise (ProviderError (PageClose p)), w')
    /\ self w' = self w
    /\ listeners w' = listeners w
    /\ calls w' = calls w ++ [PageClose p]
    /\ console_view w' = Some (fst logs)
    /\ network_view w' = Some (snd logs).
Proof.
  destruct w as [h [pw b p0 c n init hl] ls cs].
  cbn [heap self listeners calls playwright browser page
       console_logs network_requests is_initialized headless].
  intros -> -> E HL HR Hne.
  destruct (await_step (PageClose p) _ _ _ _ _ _ HL HR Hne) as (h' & Hrun & HL' & HR').
  rewrite E in Hrun.
  unfold open_url. do 3 run_step. cbv iota.
  rewrite bind_assoc.
  rewrite (bind_raise _ _ _ _ _ Hrun).
  eexists. split; [reflexivity|]. by repeat split.
Qed.
End Failing.

Lemma close_stops_at_a_failed_page_close_witness :
  let w := one_page_open in
  let L := [entry "log" "http://first" 12] in
  let R := [with_response (get_request "http://first" 10 7) (ResponseEntry 200 "OK" [] 11)] in
  exists w',
    close (failing_on is_page_close) w = (Raise (ProviderError (PageClose 2%nat)), w')
    /\ self w' = self w
    /\ listeners w' = listeners w
    /\ calls w' = calls w ++ [PageClose 2%nat]
    /\ console_view w' = Some L
    /\ network_view w' = Some R.
Proof.
  intros w L R.
  apply (close_stops_at_a_failed_page_close (failing_on is_page_close) w 2%nat L R);
    [reflexivity|reflexivity|reflexivity|reflexivity|vm_compute; discriminate].
Defined.

Lemma failed_stop_leaves_no_browser_witness :
  let w := one_page_open in
  exists w',
    close (failing_on is_stop) w = (Raise (ProviderError (PlaywrightStop 0%nat)), w')
    /\ self w' = Manager (Some 0%nat) None None 2%nat 3%nat true true
    /\ calls w' = calls w ++ [PageClose 2%nat; BrowserClose 1%nat; PlaywrightStop 0%nat]
    /\ exists w'',
        open_url (failing_on is_stop) "http://second" w' = (Raise AttributeError, w'')
        /\ calls w'' = calls w'
        /\ self w'' = Manager (Some 0%nat) None None (console_logs (self w''))
                              (network_requests (self w'')) true true
        /\ console_view w'' = Some [] /\ network_view w'' = Some [].
Proof.
  intros w.
  apply (failed_stop_leaves_no_browser (failing_on is_stop) w 0%nat "http://second");
    [reflexivity|reflexivity| |reflexivity].
  intros history c _ Hc. unfold failing_on. cbn [result]. rewrite Hc. discriminate.
Defined.

Lemma open_url_stops_at_a_failed_page_close_witness :
  let w := one_page_open in
  let L := [entry "log" "http://first" 12] in
  let R := [with_response (get_request "http://first" 10 7) (ResponseEntry 200 "OK" [] 11)] in
  exists w',
    open_url (failing_on is_page_close) "http://second" w
    = (Raise (ProviderError (PageClose 2%nat)), w')
    /\ self w' = self w
    /\ listeners w' = listeners w
    /\ calls w' = calls w ++ [PageClose 2%nat]
    /\ console_view w' = Some L
    /\ network_view w' = Some R.
Proof.
  intros w L R.
  apply (open_url_stops_at_a_failed_page_close (failing_on is_page_close) w
           "http://second" 2%nat L R);
    [reflexivity|reflexivity|reflexivity|reflexivity|reflexivity|vm_compute; discriminate].
Defined.

(** ** Opening a page, step by step *)

Section Opening.
Variable provider : list call -> call -> reply.

(** [open_url] on an initialised session whose page, if any, closes:
    the outcome and the whole state it leaves. *)
Lemma open_url_state w url b p :
  is_initialized (self w) = true ->
  browser (self w) = Some b ->
  (forall p0, page (self w) = Some p0 ->
              result (provider (calls w) (PageClose p0)) <> None) ->
  let cs1 := (calls w ++ match page (self w) with
                         | Some p0 => [PageClose p0]
                         | None => []
                         end)%list in
  result (provider cs1 (BrowserNewPage b)) = Some p ->
  let ls' := (listeners w ++ new_listeners p)%list in
  let goto := provider (cs1 ++ [BrowserNewPage b]) (PageGoto p url) in
  let logs :=
    captured_all ls' (deliveries goto)
      (captured_all (listeners w)
         (deliveries (provider cs1 (BrowserNewPage b))) ([], [])) in
  exists h' c' n',
    let w' := World h' (Manager (playwright (self w)) (Some b) (Some p) c' n'
                                true (headless (self w)))
                    ls' (cs1 ++ [BrowserNewPage b; PageGoto p url]) in
    open_url provider url w
    = (match result goto with
       | Some _ => Ok (opened_message url)
       | None => Raise (ProviderError (PageGoto p url))
       end, w')
    /\ console_view w' = Some (fst logs)
    /\ network_view w' = Some (snd logs)
    /\ c' <> n'.
Proof.
  destruct w as [h [pw b0 p0 c n init hl] ls cs]. cbn.
  intros -> -> Hclose Enew.
  unfold open_url.
  do 2 run_step.
  assert (Hreset : exists h1,
    (match p0 with
     | Some p1 => await provider (PageClose p1);; ret tt
     | None => ret tt
     end)%py (World h (Manager pw (Some b) p0 c n true hl) ls cs)
    = (Ok tt, World h1 (Manager pw (Some b) p0 c n true hl) ls
                    (cs ++ match p0 with Some p1 => [PageClose p1] | None => [] end))).
  { destruct p0 as [p1|].
    - destruct (result (provider cs (PageClose p1))) as [x|] eqn:E;
        [|by destruct (Hclose p1 eq_refl)].
      destruct (await_ok provider (PageClose p1)
                  (World h (Manager pw (Some b) (Some p1) c n true hl) ls cs) x E)
        as [h1 Eh]. exists h1. by rewrite (bind_ok _ _ _ _ _ Eh).
    - exists h. cbn. by rewrite app_nil_r. }
  destruct Hreset as [h1 Hreset]. rewrite (bind_ok _ _ _ _ _ Hreset).
  clear Hreset Hclose.
  set (cs1 := (cs ++ match p0 with Some p1 => [PageClose p1] | None => [] end)%list) in *.
  clearbody cs1.
  repeat run_step.
  match goal with
  | |- context [bind (await provider ?c) _ ?w] =>
      destruct (run_await provider c w) as (h2 & Hrun & Hviews)
  end.
  cbn [heap self listeners calls] in Hrun, Hviews.
  rewrite Enew in Hrun. rewrite (bind_ok _ _ _ _ _ Hrun). clear Hrun.
  destruct (fresh_views h1 (Manager pw (Some b) p0 (length h1) (length (h1 ++ [CList []])) true hl) ls cs1 eq_refl eq_refl)
    as (HL0 & HR0 & Hne0).
  destruct (Hviews _ _ HL0 HR0 Hne0) as [HL1 HR1]. clear Hviews HL0 HR0.
  repeat run_step.
  match goal with
  | |- context [bind (await provider ?c) _ ?w] =>
      destruct (run_await provider c w) as (h3 & Hrun & Hviews)
  end.
  cbn [heap self listeners calls] in Hrun, Hviews.
  destruct (Hviews _ _ HL1 HR1 Hne0) as [HL2 HR2]. clear Hviews HL1 HR1.
  assert (Els : ((ls ++ [(p, "console"%string, HandleConsoleMessage)]) ++
                 [(p, "request"%string, HandleRequest)]) ++
                [(p, "response"%string, HandleResponse)]
                = ls ++ new_listeners p) by (by rewrite <- !app_assoc).
  rewrite Els in *. rewrite <- !(app_assoc cs1) in *.
  rewrite <- surjective_pairing in HL2, HR2.
  exists h3, (length h1), (length (h1 ++ [CList []])).
  split; [|split; [exact HL2|split; [exact HR2|exact Hne0]]].
  destruct (result (provider (cs1 ++ [BrowserNewPage b]) (PageGoto p url))).
  - by rewrite (bind_ok _ _ _ _ _ Hrun).
  - by rewrite (bind_raise _ _ _ _ _ Hrun).
Qed.

(** On a session that is not initialised, [open_url] goes on from where
    [initialize] ends. *)
Lemma open_url_after_initialize w w1 url :
  is_initialized (self w) = false ->
  initialize provider w = (Ok tt, w1) ->
  is_initialized (self w1) = true ->
  open_url provider url w = open_url provider url w1.
Proof.
  destruct w as [h [pw b p c n init hl] ls cs].
  destruct w1 as [h1 [pw1 b1 p1 c1 n1 init1 hl1] ls1 cs1].
  cbn [self is_initialized]. intros -> Hrun ->.
  unfold open_url. do 2 run_step.
  rewrite (bind_ok _ _ _ _ _ Hrun). by run_step.
Qed.

(** X13: the first [open_url] of a new manager starts the driver,
    launches the browser, creates a page and loads the address, in this
    order and with no other call; it registers the three handlers on the
    new page and leaves the session initialised on that page.  The logs
    hold what the page emitted while it was created and while it
    loaded.  It answers with the confirmation if the navigation returns
    and raises its error otherwise. *)
Theorem first_open_url_starts_the_browser w url pw b p :
  is_initialized (self w) = false ->
  page (self w) = None ->
  let opts := if headless (self w) then [("headless"%string, true)] else [] in
  let cs := calls w ++ [StartPlaywright; ChromiumLaunch pw opts] in
  result (provider (calls w) StartPlaywright) = Some pw ->
  result (provider (calls w ++ [StartPlaywright]) (ChromiumLaunch pw opts)) = Some b ->
  result (provider cs (BrowserNewPage b)) = Some p ->
  let goto := provider (cs ++ [BrowserNewPage b]) (PageGoto p url) in
  let logs :=
    captured_all (listeners w ++ new_listeners p) (deliveries goto)
      (captured_all (listeners w) (deliveries (provider cs (BrowserNewPage b))) ([], [])) in
  exists w',
    open_url provider url w
    = (match result goto with
       | Some _ => Ok (opened_message url)
       | None => Raise (ProviderError (PageGoto p url))
       end, w')
    /\ calls w' = calls w ++ [StartPlaywright; ChromiumLaunch pw opts;
                              BrowserNewPage b; PageGoto p url]
    /\ listeners w' = listeners w ++ new_listeners p
    /\ (playwright (self w'), browser (self w'), page (self w'),
        is_initialized (self w'), headless (self w'))
       = (Some pw, Some b, Some p, true, headless (self w))
    /\ console_view w' = Some (fst logs)
    /\ network_view w' = Some (snd logs).
Proof.
  destruct w as [h [pw0 b0 p0 c n init hl] ls cs0].
  cbn [heap self listeners calls playwright browser page
       console_logs network_requests is_initialized headless].
  intros -> -> E1 E2 E3.
  destruct (initialize_run provider
              (World h (Manager pw0 b0 None c n false hl) ls cs0) pw b eq_refl E1 E2)
    as [h1 Hinit].
  cbn [heap self listeners calls playwright browser page
       console_logs network_requests is_initialized headless] in Hinit.
  erewrite (open_url_after_initialize _ _ url);
    [|reflexivity|exact Hinit|reflexivity].
  match goal with
  | |- context [open_url provider url ?w1] =>
      destruct (open_url_state w1 url b p eq_refl eq_refl)
        as (h' & c' & n' & Hrun & HL & HR & _)
  end.
  - discriminate.
  - cbn [self page calls]. rewrite app_nil_r. exact E3.
  - cbn [self page calls listeners playwright headless] in Hrun, HL, HR.
    rewrite app_nil_r in Hrun, HL, HR.
    eexists. split; [exact Hrun|].
    cbn [self calls listeners playwright browser page is_initialized headless].
    split; [by rewrite <- app_assoc|].
    split; [reflexivity|]. split; [reflexivity|]. by split.
Qed.

(** X15: when the navigation raises, [open_url] raises the same error
    and rolls nothing back: the session stays initialised on the new
    page, the handlers stay registered beside those of earlier pages,
    and the logs hold what was captured up to the failure.  The next
    [open_url] starts by closing that page. *)
Theorem failed_navigation_keeps_the_new_page w url b p next :
  is_initialized (self w) = true ->
  browser (self w) = Some b ->
  (forall p0, page (self w) = Some p0 ->
              result (provider (calls w) (PageClose p0)) <> None) ->
  let cs1 := calls w ++ match page (self w) with
                        | Some p0 => [PageClose p0]
                        | None => []
                        end in
  result (provider cs1 (BrowserNewPage b)) = Some p ->
  let goto := provider (cs1 ++ [BrowserNewPage b]) (PageGoto p url) in
  result goto = None ->
  let logs :=
    captured_all (listeners w ++ new_listeners p) (deliveries goto)
      (captured_all (listeners w) (deliveries (provider cs1 (BrowserNewPage b))) ([], [])) in
  exists w',
    open_url provider url w = (Raise (ProviderError (PageGoto p url)), w')
    /\ (playwright (self w'), browser (self w'), page (self w'), is_initialized (self w'))
       = (playwright (self w), Some b, Some p, true)
    /\ listeners w' = listeners w ++ new_listeners p
    /\ console_view w' = Some (fst logs)
    /\ network_view w' = Some (snd logs)
    /\ exists rest,
        calls (snd (open_url provider next w')) = calls w' ++ PageClose p :: rest.
Proof.
  intros Hi Hb Hclose cs1 Enew goto Egoto logs.
  destruct (open_url_state w url b p Hi Hb Hclose Enew)
    as (h' & c' & n' & Hrun & HL & HR & _).
  fold cs1 goto in Hrun, HL, HR. rewrite Egoto in Hrun.
  eexists. split; [exact Hrun|].
  split; [reflexivity|]. split; [reflexivity|].
  split; [exact HL|]. split; [exact HR|].
  clear. cbn [calls]. unfold open_url. do 3 run_step. cbv iota.
  rewrite bind_assoc.
  await_cases; [|eexists; reflexivity].
  repeat run_step.
  await_cases; [|eexists; cbn [snd calls]; by rewrite <- !app_assoc].
  repeat run_step.
  await_cases; [repeat run_step|];
    eexists; cbn [snd calls]; by rewrite <- !app_assoc.
Qed.

(** X21: when the browser gives no new page, [open_url] raises after it
    has closed the old page and replaced both logs: the entries captured
    so far are gone, [self.page] still names the closed page, and no
    handler is registered. *)
Theorem failed_new_page_loses_the_logs w url b :
  is_initialized (self w) = true ->
  browser (self w) = Some b ->
  (forall p0, page (self w) = Some p0 ->
              result (provider (calls w) (PageClose p0)) <> None) ->
  let cs1 := calls w ++ match page (self w) with
                        | Some p0 => [PageClose p0]
                        | None => []
                        end in
  result (provider cs1 (BrowserNewPage b)) = None ->
  let logs :=
    captured_all (listeners w) (deliveries (provider cs1 (BrowserNewPage b))) ([], []) in
  exists w',
    open_url provider url w = (Raise (ProviderError (BrowserNewPage b)), w')
    /\ (playwright (self w'), browser (self w'), page (self w'), is_initialized (self w'))
       = (playwright (self w), Some b, page (self w), true)
    /\ listeners w' = listeners w
    /\ calls w' = cs1 ++ [BrowserNewPage b]
    /\ console_view w' = Some (fst logs)
    /\ network_view w' = Some (snd logs).
Proof.
  destruct w as [h [pw b0 p0 c n init hl] ls cs].
  cbn [heap self listeners calls playwright browser page
       console_logs network_requests is_initialized headless].
  intros -> [= ->] Hclose Enew.
  unfold open_url. do 3 run_step.
  assert (Hreset : exists h1,
    (match p0 with
     | Some p1 => await provider (PageClose p1);; ret tt
     | None => ret tt
     end)%py (World h (Manager pw (Some b) p0 c n true hl) ls cs)
    = (Ok tt, World h1 (Manager pw (Some b) p0 c n true hl) ls
                    (cs ++ match p0 with Some p1 => [PageClose p1] | None => [] end))).
  { destruct p0 as [p1|].
    - destruct (result (provider cs (PageClose p1))) as [x|] eqn:E;
        [|by destruct (Hclose p1 eq_refl)].
      destruct (await_ok provider (PageClose p1)
                  (World h (Manager pw (Some b) (Some p1) c n true hl) ls cs) x E)
        as [h1 Eh]. exists h1. by rewrite (bind_ok _ _ _ _ _ Eh).
    - exists h. cbn. by rewrite app_nil_r. }
  destruct Hreset as [h1 Hreset]. rewrite (bind_ok _ _ _ _ _ Hreset).
  clear Hreset Hclose.
  set (cs1 := (cs ++ match p0 with Some p1 => [PageClose p1] | None => [] end)%list) in *.
  clearbody cs1.
  repeat run_step.
  match goal with
  | |- context [bind (await provider ?c) _ ?w] =>
      destruct (run_await provider c w) as (h2 & Hrun & Hviews)
  end.
  cbn [heap self listeners calls] in Hrun, Hviews.
  rewrite Enew in Hrun. rewrite (bind_raise _ _ _ _ _ Hrun). clear Hrun.
  destruct (fresh_views h1 (Manager pw (Some b) p0 (length h1) (length (h1 ++ [CList []])) true hl) ls cs1 eq_refl eq_refl)
    as (HL0 & HR0 & Hne0).
  destruct (Hviews _ _ HL0 HR0 Hne0) as [HL1 HR1].
  eexists. split; [reflexivity|]. by repeat split.
Qed.

(** X18: when the releases return, the tool [close_browser] answers
    ["Browser closed successfully"], and both query tools then return an
    empty list, whatever [last_n] is. *)
Theorem queries_after_close_browser_are_empty w n :
  (forall history c, c ∈ releases (self w) -> result (provider history c) <> None) ->
  exists w1,
    Tools.close_browser provider w = (Ok "Browser closed successfully"%string, w1)
    /\ (exists out w2,
          Tools.get_console_logs n w1 = (Ok out, w2)
          /\ groups_at (heap w2) out = Some [])
    /\ (exists out w2,
          Tools.get_network_requests n w1 = (Ok out, w2)
          /\ reqs_at (heap w2) out = Some []).
Proof.
  intros Hok. destruct (close_run provider w Hok) as [h1 Hrun].
  unfold Tools.close_browser, Tools.get_console_logs, Tools.get_network_requests.
  rewrite (bind_ok _ _ _ _ _ Hrun).
  eexists. split; [reflexivity|].
  match goal with
  | |- context [get_console_logs n (World ((?h ++ _) ++ _) ?s ?ls ?cs)] =>
      destruct (fresh_views h s ls cs eq_refl eq_refl) as (HL & HR & _)
  end.
  split.
  - destruct (get_console_logs_refines _ n _ HL) as (out & w2 & Hq & Hout).
    exists out, w2. split; [exact Hq|].
    rewrite Hout. f_equal. unfold console_result. cbn. by rewrite slice_to_nil.
  - destruct (get_network_requests_refines _ n _ HR) as (out & ext & Hq & Hout).
    eexists out, _. split; [exact Hq|].
    unfold set_heap. cbn [heap] in Hout |- *. rewrite Hout. f_equal. unfold network_result. cbn.
    by rewrite slice_to_nil.
Qed.
End Opening.

Lemma first_open_url_starts_the_browser_witness :
  exists w',
    open_url loading_provider "http://first" new_session
    = (Ok (opened_message "http://first"), w')
    /\ calls w' = [StartPlaywright; ChromiumLaunch 0%nat [("headless"%string, true)];
                   BrowserNewPage 1%nat; PageGoto 2%nat "http://first"]
    /\ listeners w' = new_listeners 2%nat
    /\ (playwright (self w'), browser (self w'), page (self w'),
        is_initialized (self w'), headless (self w'))
       = (Some 0%nat, Some 1%nat, Some 2%nat, true, true)
    /\ console_view w' = Some [entry "log" "http://first" 12]
    /\ network_view w'
       = Some [with_response (get_request "http://first" 10 7) (ResponseEntry 200 "OK" [] 11)].
Proof.
  exact (first_open_url_starts_the_browser loading_provider new_session "http://first"
           0%nat 1%nat 2%nat eq_refl eq_refl eq_refl eq_refl eq_refl).
Defined.

Lemma failed_navigation_keeps_the_new_page_witness :
  let w := one_page_open in
  exists w',
    open_url (failing_on is_goto) "http://second" w
    = (Raise (ProviderError (PageGoto 5%nat "http://second")), w')
    /\ (playwright (self w'), browser (self w'), page (self w'), is_initialized (self w'))
       = (Some 0%nat, Some 1%nat, Some 5%nat, true)
    /\ listeners w' = new_listeners 2%nat ++ new_listeners 5%nat
    /\ console_view w' = Some []
    /\ network_view w' = Some []
    /\ exists rest,
        calls (snd (open_url (failing_on is_goto) "http://third" w'))
        = calls w' ++ PageClose 5%nat :: rest.
Proof.
  intros w.
  apply (failed_navigation_keeps_the_new_page (failing_on is_goto) w "http://second"
           1%nat 5%nat "http://third");
    [reflexivity|reflexivity|intros p0 _; discriminate|reflexivity|reflexivity].
Defined.

Lemma queries_after_close_browser_are_empty_witness :
  exists w1,
    Tools.close_browser quiet_provider one_page_open
    = (Ok "Browser closed successfully"%string, w1)
    /\ (exists out w2,
          Tools.get_console_logs 5 w1 = (Ok out, w2)
          /\ groups_at (heap w2) out = Some [])
    /\ (exists out w2,
          Tools.get_network_requests 5 w1 = (Ok out, w2)
          /\ reqs_at (heap w2) out = Some []).
Proof.
  apply (queries_after_close_browser_are_empty quiet_provider one_page_open 5).
  intros history c _. discriminate.
Defined.

Lemma failed_new_page_loses_the_logs_witness :
  let w := one_page_open in
  let new_page := BrowserNewPage 1%nat in
  console_view w = Some [entry "log" "http://first" 12]
  /\ exists w',
      open_url (failing_on is_new_page) "http://second" w
      = (Raise (ProviderError new_page), w')
      /\ (playwright (self w'), browser (self w'), page (self w'), is_initialized (self w'))
         = (Some 0%nat, Some 1%nat, Some 2%nat, true)
      /\ listeners w' = listeners w
      /\ calls w' = calls w ++ [PageClose 2%nat; new_page]
      /\ console_view w' = Some []
      /\ network_view w' = Some [].
Proof.
  intros w new_page. split; [reflexivity|].
  apply (failed_new_page_loses_the_logs
           (failing_on is_new_page) w "http://second" 1%nat);
    [reflexivity|reflexivity|intros p0 _; discriminate|reflexivity].
Defined.

(** ** Every session a server can reach *)

Lemma well_formed_self h s s' ls ls' cs cs' :
  well_formed (World h s ls cs) ->
  console_logs s' = console_logs s -> network_requests s' = network_requests s ->
  well_formed (World h s' ls' cs').
Proof.
  unfold well_formed, console_view, network_view. cbn. by intros H -> ->.
Qed.

Lemma well_formed_fresh h s ls cs :
  console_logs s = length h -> network_requests s = length (h ++ [CList []]) ->
  well_formed (World ((h ++ [CList []]) ++ [CList []]) s ls cs).
Proof.
  intros Hc Hn. destruct (fresh_views h s ls cs Hc Hn) as (HL & HR & Hne).
  unfold well_formed. rewrite HL, HR. by repeat split.
Qed.

Lemma emit_all_well_formed ds w : well_formed w -> well_formed (emit_all ds w).
Proof.
  intros ([L HL] & [R HR] & Hne).
  destruct (emit_all_refines ds w L R HL HR Hne) as (h' & -> & HL' & HR').
  unfold well_formed. rewrite HL', HR'. by repeat split.
Qed.

Lemma query_well_formed {A} (m : M A) w :
  (forall n0, keeps n0 m (fun _ => True)) ->
  well_formed w -> well_formed (snd (m w)).
Proof.
  intros Hm ([L HL] & [R HR] & Hne).
  destruct (keeps_extends m _ w (Hm _)) as [ext ->].
  unfold well_formed.
  rewrite (console_view_extends w ext L HL), (network_view_extends w ext R HR).
  by repeat split.
Qed.

Section Reachable.
Variable provider : list call -> call -> reply.

Lemma await_well_formed_step c w :
  well_formed w ->
  exists h',
    await provider c w
    = (match result (provider (calls w) c) with
       | Some x => Ok x
       | None => Raise (ProviderError c)
       end, World h' (self w) (listeners w) (calls w ++ [c]))
    /\ well_formed (World h' (self w) (listeners w) (calls w ++ [c])).
Proof.
  intros ([L HL] & [R HR] & Hne).
  destruct (run_await provider c w) as (h' & Hrun & Hviews).
  destruct (Hviews L R HL HR Hne) as [HL' HR'].
  exists h'. split; [exact Hrun|].
  unfold well_formed. rewrite HL', HR'. by repeat split.
Qed.

Ltac ends_with H :=
  unfold ret, put_self, raise, set_self;
  cbn [snd heap self listeners calls playwright browser page
       console_logs network_requests is_initialized headless];
  first [ eapply well_formed_self; [exact H|reflexivity|reflexivity]
        | apply well_formed_fresh; reflexivity ].

Ltac await_keeps H :=
  match goal with
  | |- context [bind (await provider ?c) _ ?w] =>
      let h' := fresh "h" in
      let Hrun := fresh "Hrun" in
      let H' := fresh "Hwf" in
      assert (H' : well_formed w)
        by (eapply well_formed_self; [exact H|reflexivity|reflexivity]);
      clear H;
      destruct (await_well_formed_step c w H') as (h' & Hrun & H); clear H';
      cbn [heap self listeners calls] in Hrun, H;
      match type of Hrun with
      | context [result ?r] =>
          destruct (result r);
          [ rewrite (bind_ok _ _ _ _ _ Hrun)
          | rewrite (bind_raise _ _ _ _ _ Hrun); ends_with H ]
      end;
      clear Hrun
  end.

Ltac fresh_lists H :=
  match goal with
  | |- context [World ((?h0 ++ [CList []]) ++ [CList []]) ?s ?ls0 ?cs0] =>
      clear H; pose proof (well_formed_fresh h0 s ls0 cs0 eq_refl eq_refl) as H
  end.

Lemma initialize_well_formed w :
  well_formed w -> well_formed (snd (initialize provider w)).
Proof.
  intros H. destruct w as [h [pw b p c n init hl] ls cs].
  unfold initialize. run_step.
  destruct init; [ends_with H|].
  await_keeps H. repeat run_step.
  await_keeps H. repeat run_step.
  ends_with H.
Qed.

Lemma close_well_formed w :
  well_formed w -> well_formed (snd (close provider w)).
Proof.
  intros H. destruct w as [h [pw b p c n init hl] ls cs].
  unfold close.
  destruct p as [p|], b as [b|], pw as [pw|];
    repeat (run_step || await_keeps H);
    ends_with H.
Qed.

Lemma open_url_well_formed url w :
  well_formed w -> well_formed (snd (open_url provider url w)).
Proof.
  intros H. destruct w as [h [pw b p c n init hl] ls cs].
  unfold open_url. run_step.
  match goal with
  | |- context [bind (if _ then _ else _) ?k _] =>
      assert (Hrest : forall x w, well_formed w -> well_formed (snd (k x w)))
  end.
  { clear. intros _ [h [pw b p c n init hl] ls cs] H.
    run_step.
    destruct p as [p|]; [rewrite bind_assoc; await_keeps H|]; repeat run_step;
      fresh_lists H;
      (destruct b as [b|]; [|ends_with H]);
      await_keeps H; repeat run_step;
      await_keeps H; ends_with H. }
  destruct init.
  - run_step. by apply Hrest.
  - pose proof (initialize_well_formed _ H) as Hinit.
    match goal with
    | |- context [bind (initialize provider) ?k ?w0] =>
        unfold bind at 1; destruct (initialize provider w0) as [[[]|e] w1]
    end; cbn [snd] in Hinit |- *; [by apply Hrest|exact Hinit].
Qed.

Lemma perform_well_formed a w :
  well_formed w -> well_formed (perform provider a w).
Proof.
  intros H. destruct a as [ds|url|n|n|]; cbn [perform].
  - by apply emit_all_well_formed.
  - by apply open_url_well_formed.
  - apply query_well_formed; [|exact H]. intros n0. apply keeps_get_console_logs.
  - apply query_well_formed; [|exact H]. intros n0. apply keeps_get_network_requests.
  - unfold Tools.close_browser, bind.
    pose proof (close_well_formed _ H) as Hc.
    by destruct (close provider w) as [[[]|e] w1].
Qed.

(** X19: in every session a server can reach from a new manager, by tool
    calls that return or raise and by events of the pages, the two logs
    are two different lists of distinct dicts of their kind; so the two
    query tools never raise there. *)
Theorem reachable_sessions_answer_queries hl w0 acts n :
  let w := perform_all provider acts (snd (__init__ hl w0)) in
  well_formed w
  /\ (exists out w' res,
        Tools.get_console_logs n w = (Ok out, w')
        /\ groups_at (heap w') out = Some res)
  /\ (exists out w' res,
        Tools.get_network_requests n w = (Ok out, w')
        /\ reqs_at (heap w') out = Some res).
Proof.
  intros w.
  assert (H : well_formed w).
  { unfold w, perform_all. clear w.
    assert (H0 : well_formed (snd (__init__ hl w0))).
    { destruct w0 as [h s ls cs]. unfold __init__. repeat run_step.
      unfold put_self, set_self. cbn [snd heap self listeners calls].
      by apply well_formed_fresh. }
    revert H0. generalize (snd (__init__ hl w0)).
    induction acts as [|a acts IH]; intros w1 H1; [exact H1|].
    cbn [fold_left]. by apply IH, perform_well_formed. }
  split; [exact H|]. destruct H as ([L HL] & [R HR] & _).
  split.
  - destruct (get_console_logs_refines w n L HL) as (out & w' & Hq & Hout).
    by exists out, w', (console_result L n).
  - destruct (get_network_requests_refines w n R HR) as (out & ext & Hq & Hout).
    by eexists out, _, (network_result R n).
Qed.
End Reachable.
